(** * A shallow embedding of the Vision Transformer encoder of [vit.py]

    The development follows the source file top to bottom: [pair], the
    truncated-normal initializer, [Attention], [TransformerBlock],
    [ConvProjection] and [ViT] with its [_init_weights],
    [interpolate_pos_encoding] and [forward] methods.

    Modelling conventions.
    - A tensor is its shape together with its element function (a total
      function from multi-indices to values, read only inside the shape).
    - Floating-point values are read as real numbers; the primitives of the
      tensor framework that the Standard Library does not define ([erf],
      [erfinv], the bicubic resize, the random generator) are fields of an
      [Engine] or [RandomState] record over which every statement is
      quantified.
    - Python exceptions are the [Raise] results of an error monad; the
      operations of the tensor framework raise where the framework does. *)

From Stdlib Require Import Reals Lra Lia List ZArith Bool Arith String.
Import ListNotations.

(** ** Exceptions and the error monad *)

Inductive exn : Type :=
| ValueError
| TypeError
| ZeroDivisionError
| IndexError
| RuntimeError
| EinopsError
| AssertionError.

Inductive result (A : Type) : Type :=
| Ok (a : A)
| Raise (e : exn).

Arguments Ok {A} a.
Arguments Raise {A} e.

Definition bind {A B : Type} (m : result A) (k : A -> result B) : result B :=
  match m with
  | Ok a => k a
  | Raise e => Raise e
  end.

Notation "x <- m ;; k" := (bind m (fun x => k))
  (at level 61, m at next level, right associativity).
Notation "' pat <- m ;; k" := (bind m (fun x => match x with pat => k end))
  (at level 61, pat pattern, m at next level, right associativity).

(** ** Tensors *)

Record Tensor : Type := mkTensor {
  shape : list nat;
  elem : list nat -> R
}.

Fixpoint numel (s : list nat) : nat :=
  match s with
  | [] => 1
  | d :: s' => d * numel s'
  end.

Fixpoint in_bounds (s idx : list nat) : Prop :=
  match s, idx with
  | [], [] => True
  | d :: s', i :: idx' => i < d /\ in_bounds s' idx'
  | _, _ => False
  end.

Definition shape_eqb (s1 s2 : list nat) : bool :=
  if list_eq_dec Nat.eq_dec s1 s2 then true else false.

(** Sum of [f 0 .. f (n-1)]. *)
Fixpoint sum_n (n : nat) (f : nat -> R) : R :=
  match n with
  | O => 0%R
  | S n' => (sum_n n' f + f n')%R
  end.

(** ** Python values reaching [pair] and the constructor *)

#[warnings="-register-all"]
Inductive PyVal : Type :=
| PyNone
| PyInt (z : Z)
| PyFloat (r : R)
| PyTensor (t : Tensor)
| PyList (items : list PyVal)
| PyTuple (items : list PyVal).

Definition is_tuple (t : PyVal) : bool :=
  match t with
  | PyTuple _ => true
  | _ => false
  end.

(** [def pair(t): return t if isinstance(t, tuple) else (t, t)] *)
Definition pair (t : PyVal) : PyVal :=
  if is_tuple t then t else PyTuple [t; t].

(** [a, b = v]: tuple unpacking into exactly two names. *)
Definition unpack2 (v : PyVal) : result (PyVal * PyVal) :=
  match v with
  | PyTuple [a; b] => Ok (a, b)
  | PyList [a; b] => Ok (a, b)
  | PyTuple _ | PyList _ => Raise ValueError
  | _ => Raise TypeError
  end.

(** [a // b] and [a * b] on Python integers.  [Z.div] floors like [//]. *)
Definition py_floordiv (a b : PyVal) : result Z :=
  match a, b with
  | PyInt x, PyInt y =>
      if (y =? 0)%Z then Raise ZeroDivisionError else Ok (x / y)%Z
  | _, _ => Raise TypeError
  end.

Definition py_int (a : PyVal) : result Z :=
  match a with
  | PyInt x => Ok x
  | _ => Raise TypeError
  end.

(** ** The tensor framework's primitives that are taken as given *)

(** The special functions and the bicubic resize of the framework.
    [interp_size n s] is the length the resize gives to an axis of length
    [n] under scale factor [s] (or the exception it raises);
    [interp_value t oh ow] is the element function of the resized grid. *)
Record Engine : Type := mkEngine {
  erf : R -> R;
  erfinv : R -> R;
  interp_size : nat -> R -> result nat;
  interp_value : Tensor -> nat -> nat -> list nat -> R
}.

(** The draws of the random generator, per consumer: the uniform draws in
    [0,1) behind [uniform_], the multiplier a [Dropout] instance applies
    to each element (the identity outside training), and the initial
    values of freshly created parameters. *)
Record RandomState : Type := mkRandomState {
  uniform01 : list nat -> R;
  dropout_mask : nat -> list nat -> R;
  param_init : nat -> list nat -> R
}.

(** ** Elementwise tensor operations *)

Definition tensor_map (f : R -> R) (t : Tensor) : Tensor :=
  mkTensor (shape t) (fun idx => f (elem t idx)).

Definition full (s : list nat) (v : R) : Tensor :=
  mkTensor s (fun _ => v).

(** [Tensor.uniform_(from, to)] *)
Definition uniform_ (rs : RandomState) (t : Tensor) (from to : R) : result Tensor :=
  if Rle_dec from to
  then Ok (mkTensor (shape t) (fun idx => (from + (to - from) * uniform01 rs idx)%R))
  else Raise RuntimeError.

(** [Tensor.clamp_(min=a, max=b)] *)
Definition clamp_ (t : Tensor) (a b : R) : Tensor :=
  tensor_map (fun v => Rmin (Rmax v a) b) t.

(** ** The truncated normal initializer *)

Section TruncNormal.
Variable E : Engine.
Variable rs : RandomState.

Definition norm_cdf (x : R) : R := ((1 + erf E (x / sqrt 2)) / 2)%R.

(** [if (mean < a - 2 * std) or (mean > b + 2 * std): warnings.warn(...)] *)
Definition trunc_normal_warns (mean std a b : R) : bool :=
  if Rlt_dec mean (a - 2 * std) then true
  else if Rgt_dec mean (b + 2 * std) then true
  else false.

(** Python float division. *)
Definition py_div (x y : R) : result R :=
  if Req_dec_T y 0 then Raise ZeroDivisionError else Ok (x / y)%R.

(** Returns the tensor after the in-place updates, and whether the
    warning was emitted. *)
Definition _no_grad_trunc_normal_ (tensor : Tensor) (mean std a b : R)
  : result (Tensor * bool) :=
  let warned := trunc_normal_warns mean std a b in
  za <- py_div (a - mean) std ;;
  let l := norm_cdf za in
  zb <- py_div (b - mean) std ;;
  let u := norm_cdf zb in
  t1 <- uniform_ rs tensor (2 * l - 1) (2 * u - 1) ;;
  let t2 := tensor_map (erfinv E) t1 in
  let t3 := tensor_map (fun v => v * (std * sqrt 2))%R t2 in
  let t4 := tensor_map (fun v => v + mean)%R t3 in
  let t5 := clamp_ t4 a b in
  Ok (t5, warned).

(** [def trunc_normal_(tensor, mean=0., std=1., a=-2., b=2.)] *)
Definition trunc_normal_ (tensor : Tensor) (mean std a b : R)
  : result (Tensor * bool) :=
  _no_grad_trunc_normal_ tensor mean std a b.

End TruncNormal.

(** ** Layers of the framework used by the network *)

(** [nn.Linear]: weight of shape (out_features, in_features), optional
    bias of shape (out_features); applied to the last axis. *)
Record Linear : Type := mkLinear {
  lin_weight : Tensor;
  lin_bias : option Tensor
}.

Definition bias_at (b : option Tensor) (k : nat) : R :=
  match b with
  | Some t => elem t [k]
  | None => 0%R
  end.

Definition Linear_forward (m : Linear) (x : Tensor) : result Tensor :=
  match shape (lin_weight m), shape x with
  | [o; i], _ :: _ =>
      if last (shape x) 0 =? i
      then Ok (mkTensor (removelast (shape x) ++ [o])
                 (fun idx =>
                    (sum_n i (fun j => elem x (removelast idx ++ [j])
                                       * elem (lin_weight m) [last idx O; j])
                     + bias_at (lin_bias m) (last idx O))%R))
      else Raise RuntimeError
  | _, _ => Raise RuntimeError
  end.

(** [nn.LayerNorm(dim)]: affine, over the last axis, biased variance. *)
Record LayerNorm : Type := mkLayerNorm {
  ln_weight : Tensor;
  ln_bias : Tensor;
  ln_eps : R
}.

Definition row_mean (x : Tensor) (d : nat) (pre : list nat) : R :=
  (sum_n d (fun j => elem x (pre ++ [j])) / INR d)%R.

Definition row_var (x : Tensor) (d : nat) (pre : list nat) : R :=
  (sum_n d (fun j => (elem x (pre ++ [j]) - row_mean x d pre)
                     * (elem x (pre ++ [j]) - row_mean x d pre)) / INR d)%R.

Definition LayerNorm_forward (m : LayerNorm) (x : Tensor) : result Tensor :=
  match shape (ln_weight m), shape x with
  | [d], _ :: _ =>
      if last (shape x) 0 =? d
      then Ok (mkTensor (shape x)
                 (fun idx =>
                    let pre := removelast idx in
                    ((elem x idx - row_mean x d pre)
                     / sqrt (row_var x d pre + ln_eps m)
                     * elem (ln_weight m) [last idx O]
                     + elem (ln_bias m) [last idx O])%R))
      else Raise RuntimeError
  | _, _ => Raise RuntimeError
  end.

(** [nn.Dropout(p)]: each element is multiplied by the draw of the random
    state for this instance. *)
Record Dropout : Type := mkDropout {
  drop_p : R;
  drop_id : nat
}.

Definition Dropout_forward (rs : RandomState) (m : Dropout) (x : Tensor) : Tensor :=
  mkTensor (shape x) (fun idx => (elem x idx * dropout_mask rs (drop_id m) idx)%R).

(** [nn.GELU()]: x * Phi(x). *)
Definition GELU_forward (E : Engine) (x : Tensor) : Tensor :=
  tensor_map (fun v => (v * ((1 + erf E (v / sqrt 2)) / 2))%R) x.

(** [nn.Softmax(dim=-1)] *)
Definition Softmax_forward (x : Tensor) : Tensor :=
  mkTensor (shape x)
    (fun idx =>
       (exp (elem x idx)
        / sum_n (last (shape x) 1%nat)
                (fun j => exp (elem x (removelast idx ++ [j]))))%R).

(** [Tensor.chunk(3, dim=-1)]: the framework cuts the last axis, of
    length e, into pieces of length ceil(e / 3) (three empty pieces when
    e = 0). *)
Definition slice_last (t : Tensor) (off len : nat) : Tensor :=
  mkTensor (removelast (shape t) ++ [len])
    (fun idx => elem t (removelast idx ++ [off + last idx O])).

(** The pieces, in order: all of length [split] but possibly the last. *)
Definition chunk3 (t : Tensor) : result (list Tensor) :=
  match shape t with
  | [] => Raise IndexError
  | _ :: _ =>
      let e := last (shape t) 0 in
      let split := (e + 2) / 3 in
      if e =? 0 then Ok [slice_last t 0 0; slice_last t 0 0; slice_last t 0 0]
      else Ok (map (fun i => slice_last t (i * split) (Nat.min split (e - i * split)))
                   (seq 0 ((e + split - 1) / split)))
  end.

(** [q, k, v = map(f, pieces)]: the map is consumed one piece at a time
    by the unpacking, which then checks that there were exactly three. *)
Definition unpack3_map (f : Tensor -> result Tensor) (l : list Tensor)
  : result (Tensor * Tensor * Tensor) :=
  match l with
  | [] => Raise ValueError
  | [a] => _ <- f a ;; Raise ValueError
  | [a; b] => _ <- f a ;; _ <- f b ;; Raise ValueError
  | [a; b; c] => q <- f a ;; k <- f b ;; v <- f c ;; Ok (q, k, v)
  | a :: b :: c :: d :: _ =>
      _ <- f a ;; _ <- f b ;; _ <- f c ;; _ <- f d ;; Raise ValueError
  end.

(** [rearrange(t, 'b n (h d) -> b h n d', h=heads)] *)
Definition split_heads (heads : nat) (t : Tensor) : result Tensor :=
  match shape t with
  | [b; n; e] =>
      if (heads =? 0) || negb (e mod heads =? 0) then Raise EinopsError
      else
        let d := e / heads in
        Ok (mkTensor [b; heads; n; d]
              (fun idx =>
                 match idx with
                 | [ib; ih; i; c] => elem t [ib; i; (ih * d + c)%nat]
                 | _ => 0%R
                 end))
  | _ => Raise EinopsError
  end.

(** [rearrange(t, 'b h n d -> b n (h d)', h=heads)] *)
Definition merge_heads (heads : nat) (t : Tensor) : result Tensor :=
  match shape t with
  | [b; h; n; d] =>
      if h =? heads
      then Ok (mkTensor [b; n; h * d]
                 (fun idx =>
                    match idx with
                    | [ib; i; j] => elem t [ib; j / d; i; j mod d]
                    | _ => 0%R
                    end))
      else Raise EinopsError
  | _ => Raise EinopsError
  end.

(** [torch.einsum('b h n d, b h m d -> b h n m', q, k)] *)
Definition einsum_qk (q k : Tensor) : result Tensor :=
  match shape q, shape k with
  | [b; h; n; d], [b'; h'; m; d'] =>
      if (b =? b') && (h =? h') && (d =? d')
      then Ok (mkTensor [b; h; n; m]
                 (fun idx =>
                    match idx with
                    | [ib; ih; i; j] =>
                        sum_n d (fun c => elem q [ib; ih; i; c] * elem k [ib; ih; j; c])%R
                    | _ => 0%R
                    end))
      else Raise RuntimeError
  | _, _ => Raise RuntimeError
  end.

(** [torch.einsum('b h n m, b h m d -> b h n d', prod, v)] *)
Definition einsum_av (p v : Tensor) : result Tensor :=
  match shape p, shape v with
  | [b; h; n; m], [b'; h'; m'; d] =>
      if (b =? b') && (h =? h') && (m =? m')
      then Ok (mkTensor [b; h; n; d]
                 (fun idx =>
                    match idx with
                    | [ib; ih; i; c] =>
                        sum_n m (fun j => elem p [ib; ih; i; j] * elem v [ib; ih; j; c])%R
                    | _ => 0%R
                    end))
      else Raise RuntimeError
  | _, _ => Raise RuntimeError
  end.

(** Addition of two tensors with the framework's broadcasting: shapes are
    aligned at the last axis; two lengths agree when equal or when one of
    them is 1. *)
Fixpoint broadcast_rev (r1 r2 : list nat) : option (list nat) :=
  match r1, r2 with
  | [], r => Some r
  | r, [] => Some r
  | a :: r1', b :: r2' =>
      match broadcast_rev r1' r2' with
      | None => None
      | Some r =>
          if a =? b then Some (a :: r)
          else if a =? 1 then Some (b :: r)
          else if b =? 1 then Some (a :: r)
          else None
      end
  end.

Definition broadcast_shapes (s1 s2 : list nat) : option (list nat) :=
  option_map (@rev nat) (broadcast_rev (rev s1) (rev s2)).

(** The index of the operand of shape [s] behind output index [idx]. *)
Fixpoint bidx_rev (rs ridx : list nat) : list nat :=
  match rs, ridx with
  | d :: rs', i :: ridx' => (if d =? 1 then 0 else i) :: bidx_rev rs' ridx'
  | _, _ => []
  end.

Definition bidx (s idx : list nat) : list nat :=
  rev (bidx_rev (rev s) (rev idx)).

(** [x + y] *)
Definition tensor_add (x y : Tensor) : result Tensor :=
  match broadcast_shapes (shape x) (shape y) with
  | Some s =>
      Ok (mkTensor s (fun idx => (elem x (bidx (shape x) idx)
                                  + elem y (bidx (shape y) idx))%R))
  | None => Raise RuntimeError
  end.

(** [x += y]: the broadcast shape has to be the shape of [x]. *)
Definition tensor_iadd (x y : Tensor) : result Tensor :=
  match broadcast_shapes (shape x) (shape y) with
  | Some s =>
      if shape_eqb s (shape x)
      then Ok (mkTensor s (fun idx => (elem x (bidx (shape x) idx)
                                       + elem y (bidx (shape y) idx))%R))
      else Raise RuntimeError
  | None => Raise RuntimeError
  end.

(** ** Attention *)

Record Attention : Type := mkAttention {
  att_heads : nat;
  att_scale : R;
  att_dropout : Dropout;
  to_qkv : Linear;
  to_out_linear : Linear;
  to_out_dropout : Dropout
}.

Section Forward.
Variable E : Engine.
Variable rs : RandomState.

(** Lines 63-66 of [Attention.forward]: the attention weights, that is
    [prod] after the softmax. *)
Definition Attention_weights (self : Attention) (x : Tensor)
  : result (Tensor * Tensor) :=
  y <- Linear_forward (to_qkv self) x ;;
  qkv <- chunk3 y ;;
  '(q, k, v) <- unpack3_map (split_heads (att_heads self)) qkv ;;
  prod <- einsum_qk q k ;;
  let prod := tensor_map (fun s => s * att_scale self)%R prod in
  let prod := Softmax_forward prod in
  Ok (prod, v).

Definition Attention_forward (self : Attention) (x : Tensor) : result Tensor :=
  '(prod, v) <- Attention_weights self x ;;
  let prod := Dropout_forward rs (att_dropout self) prod in
  out <- einsum_av prod v ;;
  out <- merge_heads (att_heads self) out ;;
  out <- Linear_forward (to_out_linear self) out ;;
  Ok (Dropout_forward rs (to_out_dropout self) out).

(** ** Transformer block *)

(** [nn.Sequential(Linear, Dropout, GELU, Linear, Dropout)] *)
Record MLP : Type := mkMLP {
  mlp_fc1 : Linear;
  mlp_drop1 : Dropout;
  mlp_fc2 : Linear;
  mlp_drop2 : Dropout
}.

Definition MLP_forward (m : MLP) (x : Tensor) : result Tensor :=
  x <- Linear_forward (mlp_fc1 m) x ;;
  let x := Dropout_forward rs (mlp_drop1 m) x in
  let x := GELU_forward E x in
  x <- Linear_forward (mlp_fc2 m) x ;;
  Ok (Dropout_forward rs (mlp_drop2 m) x).

(** [norm_layer] is at its default, [nn.LayerNorm]. *)
Record TransformerBlock : Type := mkTransformerBlock {
  norm1 : LayerNorm;
  attention : Attention;
  mlp : MLP;
  norm2 : LayerNorm
}.

Definition TransformerBlock_forward (self : TransformerBlock) (x : Tensor)
  : result Tensor :=
  x <- LayerNorm_forward (norm1 self) x ;;
  a <- Attention_forward (attention self) x ;;
  x <- tensor_add x a ;;
  x <- LayerNorm_forward (norm2 self) x ;;
  m <- MLP_forward (mlp self) x ;;
  x <- tensor_add x m ;;
  Ok x.

End Forward.

(** ** Shape-changing operations of the framework *)

(** Row-major position of a multi-index, and back. *)
Fixpoint ravel (s idx : list nat) : nat :=
  match s, idx with
  | d :: s', i :: idx' => i * numel s' + ravel s' idx'
  | _, _ => 0
  end.

Fixpoint unravel (s : list nat) (f : nat) : list nat :=
  match s with
  | [] => []
  | d :: s' => (f / numel s') mod d :: unravel s' (f mod numel s')
  end.

(** [t.reshape(s)] and [t.view(s)] for a fully given shape [s]. *)
Definition reshape (t : Tensor) (s : list nat) : result Tensor :=
  if numel (shape t) =? numel s
  then Ok (mkTensor s (fun idx => elem t (unravel (shape t) (ravel s idx))))
  else Raise RuntimeError.

(** [t.permute(0, 3, 1, 2)] and [t.permute(0, 2, 3, 1)] *)
Definition permute_0312 (t : Tensor) : result Tensor :=
  match shape t with
  | [a; b; c; d] =>
      Ok (mkTensor [a; d; b; c]
            (fun idx => match idx with
                        | [i; l; j; k] => elem t [i; j; k; l]
                        | _ => 0%R
                        end))
  | _ => Raise RuntimeError
  end.

Definition permute_0231 (t : Tensor) : result Tensor :=
  match shape t with
  | [a; b; c; d] =>
      Ok (mkTensor [a; c; d; b]
            (fun idx => match idx with
                        | [i; j; k; l] => elem t [i; l; j; k]
                        | _ => 0%R
                        end))
  | _ => Raise RuntimeError
  end.

(** [torch.cat((a, b), dim=1)] on tensors of rank 3 *)
Definition cat_dim1 (a b : Tensor) : result Tensor :=
  match shape a, shape b with
  | [a0; a1; a2], [b0; b1; b2] =>
      if (a0 =? b0) && (a2 =? b2)
      then Ok (mkTensor [a0; a1 + b1; a2]
                 (fun idx => match idx with
                             | [i; j; k] =>
                                 if j <? a1 then elem a [i; j; k]
                                 else elem b [i; j - a1; k]
                             | _ => 0%R
                             end))
      else Raise RuntimeError
  | _, _ => Raise RuntimeError
  end.

(** [t.expand(b, -1, -1)] *)
Definition expand_batch (t : Tensor) (b : nat) : result Tensor :=
  match shape t with
  | [t0; t1; t2] =>
      if (t0 =? b) || (t0 =? 1)
      then Ok (mkTensor [b; t1; t2]
                 (fun idx => match idx with
                             | [i; j; k] => elem t [if t0 =? 1 then 0 else i; j; k]
                             | _ => 0%R
                             end))
      else Raise RuntimeError
  | _ => Raise RuntimeError
  end.

(** [x.mean(dim=1)] on a tensor of rank 3 *)
Definition mean_dim1 (x : Tensor) : result Tensor :=
  match shape x with
  | [b; n; d] =>
      Ok (mkTensor [b; d]
            (fun idx => match idx with
                        | [i; k] => (sum_n n (fun j => elem x [i; j; k]) / INR n)%R
                        | _ => 0%R
                        end))
  | _ => Raise IndexError
  end.

(** [x[:, 0]] on a tensor of rank 3 *)
Definition select_dim1_first (x : Tensor) : result Tensor :=
  match shape x with
  | [b; S _; d] =>
      Ok (mkTensor [b; d]
            (fun idx => match idx with
                        | [i; k] => elem x [i; 0; k]
                        | _ => 0%R
                        end))
  | _ => Raise IndexError
  end.

(** ** Patch embedding *)

(** [nn.Conv2d(channels, dim, kernel_size, stride)]: the weight has shape
    (dim, channels, kernel height, kernel width); no padding. *)
Record Conv2d : Type := mkConv2d {
  conv_weight : Tensor;
  conv_bias : Tensor;
  conv_stride : nat * nat
}.

Definition Conv2d_forward (m : Conv2d) (x : Tensor) : result Tensor :=
  match shape (conv_weight m), shape x with
  | [D; C; kh; kw], [b; c; H; W] =>
      let '(sh, sw) := conv_stride m in
      if negb (c =? C) || (sh =? 0) || (sw =? 0) || (kh =? 0) || (kw =? 0)
         || (H <? kh) || (W <? kw)
      then Raise RuntimeError
      else Ok (mkTensor [b; D; (H - kh) / sh + 1; (W - kw) / sw + 1]
                 (fun idx =>
                    match idx with
                    | [ib; d; i; j] =>
                        (sum_n C (fun ic =>
                           sum_n kh (fun p =>
                             sum_n kw (fun q =>
                               elem (conv_weight m) [d; ic; p; q]
                               * elem x [ib; ic; (i * sh + p)%nat; (j * sw + q)%nat])))
                         + elem (conv_bias m) [d])%R
                    | _ => 0%R
                    end))
  | _, _ => Raise RuntimeError
  end.

(** [x.flatten(2).transpose(1, 2)] on a tensor of rank 4 *)
Definition flatten2_transpose12 (x : Tensor) : result Tensor :=
  match shape x with
  | [b; d; h; w] =>
      Ok (mkTensor [b; h * w; d]
            (fun idx => match idx with
                        | [ib; k; c] => elem x [ib; c; k / w; k mod w]
                        | _ => 0%R
                        end))
  | _ => Raise IndexError
  end.

Record ConvProjection : Type := mkConvProjection {
  projection : Conv2d
}.

Definition ConvProjection_forward (self : ConvProjection) (x : Tensor)
  : result Tensor :=
  x <- Conv2d_forward (projection self) x ;;
  flatten2_transpose12 x.

(** [Rearrange('b c (h ph) (w pw) -> b (h w) (ph pw c)', ph=.., pw=..)] *)
Definition Rearrange_patches (ph pw : Z) (x : Tensor) : result Tensor :=
  match shape x with
  | [b; c; H; W] =>
      if (ph <=? 0)%Z || (pw <=? 0)%Z then Raise EinopsError
      else
        let p := Z.to_nat ph in
        let q := Z.to_nat pw in
        if negb (H mod p =? 0) || negb (W mod q =? 0) then Raise EinopsError
        else
          let gw := W / q in
          Ok (mkTensor [b; (H / p) * gw; p * q * c]
                (fun idx =>
                   match idx with
                   | [ib; k; e] =>
                       elem x [ib; e mod c;
                               (k / gw) * p + (e / c) / q;
                               (k mod gw) * q + (e / c) mod q]
                   | _ => 0%R
                   end))
  | _ => Raise EinopsError
  end.

(** The two values [self.patch_to_embedding] can take. *)
Inductive PatchEmbedding : Type :=
| LinearPatches (ph pw : Z) (proj : Linear)
| ConvPatches (proj : ConvProjection).

Definition PatchEmbedding_forward (m : PatchEmbedding) (x : Tensor)
  : result Tensor :=
  match m with
  | LinearPatches ph pw proj =>
      x <- Rearrange_patches ph pw x ;;
      Linear_forward proj x
  | ConvPatches proj => ConvProjection_forward proj x
  end.

(** ** The ViT module *)

Record ViT : Type := mkViT {
  patch_height : Z;
  patch_width : Z;
  patch_to_embedding : PatchEmbedding;
  pos_embedding : Tensor;
  cls_token : Tensor;
  dropout : Dropout;
  layers : list TransformerBlock;
  pool : bool;
  norm : LayerNorm
}.

(** The arguments of [ViT.__init__]; [norm_layer] is at its default,
    [nn.LayerNorm]. *)
Record ViTArgs : Type := mkViTArgs {
  arg_image_size : PyVal;
  arg_patch_size : PyVal;
  arg_channels : nat;
  arg_dim : nat;
  arg_depth : nat;
  arg_heads : nat;
  arg_mlp_dim : nat;
  arg_dim_head : nat;
  arg_pool : bool;
  arg_projection : string;
  arg_dropout : R;
  arg_emb_dropout : R;
  arg_qkv_bias : bool
}.

Section Init.
Variable rs : RandomState.

(** A freshly created parameter: its values are the generator's. *)
Definition new_param (id : nat) (s : list nat) : Tensor :=
  mkTensor s (param_init rs id).

(** A tensor with a possibly negative length raises. *)
Definition new_param_z (id : nat) (s : list Z) : result Tensor :=
  if forallb (fun z => (0 <=? z)%Z) s
  then Ok (new_param id (map Z.to_nat s))
  else Raise RuntimeError.

Definition Linear_init (id : nat) (inf outf : nat) (with_bias : bool) : Linear :=
  mkLinear (new_param id [outf; inf])
           (if with_bias then Some (new_param (id + 1) [outf]) else None).

Definition LayerNorm_init (d : nat) : LayerNorm :=
  mkLayerNorm (full [d] 1) (full [d] 0) (1 / 100000).

(** [nn.Dropout(p)] checks its probability. *)
Definition Dropout_init (id : nat) (p : R) : result Dropout :=
  if Rlt_dec p 0 then Raise ValueError
  else if Rgt_dec p 1 then Raise ValueError
  else Ok (mkDropout p id).

(** [Attention.__init__]; [dim_head ** -0.5] raises on 0. *)
Definition Attention_init (pid did : nat) (dim heads dim_head : nat)
           (p : R) (qkv_bias : bool) : result Attention :=
  let inner_dim := dim_head * heads in
  scale <- (if dim_head =? 0 then Raise ZeroDivisionError
            else Ok (/ sqrt (INR dim_head))%R) ;;
  d1 <- Dropout_init did p ;;
  let qkv := Linear_init pid dim (inner_dim * 3) qkv_bias in
  let out := Linear_init (pid + 2) inner_dim dim true in
  d2 <- Dropout_init (did + 1) p ;;
  Ok (mkAttention heads scale d1 qkv out d2).

(** [TransformerBlock.__init__] of the block at position [i]. *)
Definition TransformerBlock_init (i : nat) (dim heads dim_head mlp_dim : nat)
           (p : R) (qkv_bias : bool) : result TransformerBlock :=
  let pid := 4 + 8 * i in
  let did := 1 + 4 * i in
  let n1 := LayerNorm_init dim in
  att <- Attention_init pid did dim heads dim_head p qkv_bias ;;
  let fc1 := Linear_init (pid + 4) dim mlp_dim true in
  d1 <- Dropout_init (did + 2) p ;;
  let fc2 := Linear_init (pid + 6) mlp_dim dim true in
  d2 <- Dropout_init (did + 3) p ;;
  let n2 := LayerNorm_init dim in
  Ok (mkTransformerBlock n1 att (mkMLP fc1 d1 fc2 d2) n2).

(** [[TransformerBlock(...) for _ in range(depth)]] *)
Fixpoint blocks_init (i depth : nat) (dim heads dim_head mlp_dim : nat)
         (p : R) (qkv_bias : bool) : result (list TransformerBlock) :=
  match depth with
  | O => Ok []
  | S depth' =>
      blk <- TransformerBlock_init i dim heads dim_head mlp_dim p qkv_bias ;;
      rest <- blocks_init (S i) depth' dim heads dim_head mlp_dim p qkv_bias ;;
      Ok (blk :: rest)
  end.

(** [ConvProjection.__init__]: the kernel size and the stride are the
    patch size, which the framework reads as [pair] does. *)
Definition ConvProjection_init (channels dim : nat) (ph pw : Z)
  : result ConvProjection :=
  w <- new_param_z 0 [Z.of_nat dim; Z.of_nat channels; ph; pw] ;;
  Ok (mkConvProjection
        (mkConv2d w (new_param 1 [dim]) (Z.to_nat ph, Z.to_nat pw))).

Definition ViT_init (a : ViTArgs) : result ViT :=
  '(image_height, image_width) <- unpack2 (pair (arg_image_size a)) ;;
  '(patch_height, patch_width) <- unpack2 (pair (arg_patch_size a)) ;;
  gh <- py_floordiv image_height patch_height ;;
  gw <- py_floordiv image_width patch_width ;;
  let num_patches := (gh * gw)%Z in
  ph <- py_int patch_height ;;
  pw <- py_int patch_width ;;
  let patch_dim := (ph * pw * Z.of_nat (arg_channels a))%Z in
  emb <- (if String.eqb (arg_projection a) "linear"
          then
            w <- new_param_z 0 [Z.of_nat (arg_dim a); patch_dim] ;;
            Ok (LinearPatches ph pw
                  (mkLinear w (Some (new_param 1 [arg_dim a]))))
          else
            c <- ConvProjection_init (arg_channels a) (arg_dim a) ph pw ;;
            Ok (ConvPatches c)) ;;
  pos <- new_param_z 2 [1%Z; (num_patches + 1)%Z; Z.of_nat (arg_dim a)] ;;
  let cls := new_param 3 [1; 1; arg_dim a] in
  drop <- Dropout_init 0 (arg_emb_dropout a) ;;
  blocks <- blocks_init 0 (arg_depth a) (arg_dim a) (arg_heads a)
              (arg_dim_head a) (arg_mlp_dim a) (arg_dropout a)
              (arg_qkv_bias a) ;;
  Ok (mkViT ph pw emb pos cls drop blocks (arg_pool a)
            (LayerNorm_init (arg_dim a))).

End Init.

(** ** Weight initialization hook *)

(** The kinds of module [model.apply] can hand to [_init_weights]. *)
#[warnings="-register-all"]
Inductive Module : Type :=
| ModLinear (m : Linear)
| ModLayerNorm (m : LayerNorm)
| ModConv2d (m : Conv2d)
| ModDropout (m : Dropout)
| ModGELU
| ModSoftmax
| ModRearrange (ph pw : Z)
| ModSequential (children : list Module)
| ModAttention (m : Attention)
| ModTransformerBlock (m : TransformerBlock)
| ModConvProjection (m : ConvProjection)
| ModViT (m : ViT).

Section InitWeights.
Variable E : Engine.
Variable rs : RandomState.

(** [nn.init.constant_(t, v)] *)
Definition constant_ (t : Tensor) (v : R) : Tensor := full (shape t) v.

Definition _init_weights (m : Module) : result Module :=
  match m with
  | ModLinear l =>
      '(w, _) <- trunc_normal_ E rs (lin_weight l) 0 (2 / 100) (-2) 2 ;;
      Ok (ModLinear
            (mkLinear w (match lin_bias l with
                         | Some b => Some (constant_ b 0)
                         | None => None
                         end)))
  | ModLayerNorm l =>
      let b := constant_ (ln_bias l) 0 in
      let w := constant_ (ln_weight l) 1 in
      Ok (ModLayerNorm (mkLayerNorm w b (ln_eps l)))
  | _ => Ok m
  end.

End InitWeights.

(** ** Positional encoding and the forward pass *)

Section ViTForward.
Variable E : Engine.
Variable rs : RandomState.

(** [int(z + 0.1)] for an integer [z]: truncation towards zero. *)
Definition int_plus_tenth (z : Z) : Z :=
  if (z <? 0)%Z then (z + 1)%Z else z.

(** [h // p] for a length [h] and a stored patch length [p]. *)
Definition floordiv_len (h : nat) (p : Z) : result Z :=
  if (p =? 0)%Z then Raise ZeroDivisionError else Ok (Z.of_nat h / p)%Z.

(** [nn.functional.interpolate(t, scale_factor=(sh, sw), mode='bicubic')]:
    batch and channel axes are kept, the two spatial axes are resized. *)
Definition interpolate_bicubic (t : Tensor) (sh sw : R) : result Tensor :=
  match shape t with
  | [n; c; hin; win] =>
      oh <- interp_size E hin sh ;;
      ow <- interp_size E win sw ;;
      Ok (mkTensor [n; c; oh; ow] (interp_value E t oh ow))
  | _ => Raise RuntimeError
  end.

(** [t.view(1, -1, dim)] *)
Definition view_1_m1 (t : Tensor) (dim : nat) : result Tensor :=
  if (dim =? 0) || negb (numel (shape t) mod dim =? 0) then Raise RuntimeError
  else reshape t [1; numel (shape t) / dim; dim].

(** [self.pos_embedding[:, 0].unsqueeze(0)] and [self.pos_embedding[:, 1:]]
    for a positional parameter of shape (p0, n + 1, d). *)
Definition class_pos_embed_row (pos : Tensor) (p0 d : nat) : Tensor :=
  mkTensor [1; p0; d]
    (fun idx => match idx with
                | [_; i; k] => elem pos [i; 0; k]
                | _ => 0%R
                end).

Definition patch_pos_embed_rows (pos : Tensor) (p0 n d : nat) : Tensor :=
  mkTensor [p0; n; d]
    (fun idx => match idx with
                | [i; j; k] => elem pos [i; S j; k]
                | _ => 0%R
                end).

(** The method reads of [x] only its shape; the stored parameter has
    rank 3 in every instance the constructor builds.  [int(math.sqrt(N))]
    is the integer square root [Nat.sqrt N] (for every N below 2^52, where
    the float square root is exact on squares and cannot round up to the
    next integer). *)
Definition interpolate_pos_encoding (self : ViT) (x : Tensor) (w h : nat)
  : result Tensor :=
  match shape x, shape (pos_embedding self) with
  | _ :: x1 :: _, [p0; p1; d] =>
      let num_patches := (Z.of_nat x1 - 1)%Z in
      let N := (Z.of_nat p1 - 1)%Z in
      if (num_patches =? N)%Z && (w =? h)
      then Ok (pos_embedding self)
      else
        match p1 with
        | O => Raise IndexError
        | S n =>
            let class_pos_embed := class_pos_embed_row (pos_embedding self) p0 d in
            let patch_pos_embed := patch_pos_embed_rows (pos_embedding self) p0 n d in
            let dim := last (shape x) 0 in
            h0 <- floordiv_len h (patch_height self) ;;
            w0 <- floordiv_len w (patch_width self) ;;
            g <- reshape patch_pos_embed [1; Nat.sqrt n; Nat.sqrt n; dim] ;;
            g <- permute_0312 g ;;
            sh <- py_div (IZR h0 + 1 / 10) (sqrt (INR n)) ;;
            sw <- py_div (IZR w0 + 1 / 10) (sqrt (INR n)) ;;
            g <- interpolate_bicubic g sh sw ;;
            match shape g with
            | [_; _; oh; ow] =>
                if (int_plus_tenth h0 =? Z.of_nat oh)%Z
                   && (int_plus_tenth w0 =? Z.of_nat ow)%Z
                then
                  g <- permute_0231 g ;;
                  g <- view_1_m1 g dim ;;
                  cat_dim1 class_pos_embed g
                else Raise AssertionError
            | _ => Raise IndexError
            end
        end
  | _, _ => Raise IndexError
  end.

(** [for layer in self.layers: x = layer(x)] *)
Fixpoint apply_layers (ls : list TransformerBlock) (x : Tensor) : result Tensor :=
  match ls with
  | [] => Ok x
  | layer :: ls' =>
      x <- TransformerBlock_forward E rs layer x ;;
      apply_layers ls' x
  end.

Definition ViT_forward (self : ViT) (x : Tensor) (norm_flag : bool)
           (mixup lbda perm : PyVal) : result Tensor :=
  match shape x with
  | [b; _; w; h] =>
      x <- PatchEmbedding_forward (patch_to_embedding self) x ;;
      cls_tokens <- expand_batch (cls_token self) b ;;
      x <- cat_dim1 cls_tokens x ;;
      pos <- interpolate_pos_encoding self x w h ;;
      x <- tensor_iadd x pos ;;
      let x := Dropout_forward rs (dropout self) x in
      x <- apply_layers (layers self) x ;;
      x <- (if norm_flag then LayerNorm_forward (norm self) x else Ok x) ;;
      if pool self then mean_dim1 x else select_dim1_first x
  | _ => Raise ValueError
  end.

End ViTForward.

(** A size argument read as (height, width): a scalar gives a square. *)
Definition size_arg (v : PyVal) (h w : Z) : Prop :=
  (v = PyInt h /\ w = h) \/ v = PyTuple [PyInt h; PyInt w].

(** ** Well-formed modules: the parameter shapes the constructors create *)

Definition wf_Linear (l : Linear) (i o : nat) : Prop :=
  shape (lin_weight l) = [o; i].

Definition wf_LayerNorm (l : LayerNorm) (d : nat) : Prop :=
  shape (ln_weight l) = [d].

Definition wf_Attention (a : Attention) (dim : nat) : Prop :=
  exists dh,
    0 < att_heads a /\ 0 < dh /\
    wf_Linear (to_qkv a) dim (dh * att_heads a * 3) /\
    wf_Linear (to_out_linear a) (dh * att_heads a) dim.

Definition wf_MLP (m : MLP) (dim : nat) : Prop :=
  exists hid, wf_Linear (mlp_fc1 m) dim hid /\ wf_Linear (mlp_fc2 m) hid dim.

Definition wf_Block (dim : nat) (blk : TransformerBlock) : Prop :=
  wf_LayerNorm (norm1 blk) dim /\ wf_Attention (attention blk) dim /\
  wf_MLP (mlp blk) dim /\ wf_LayerNorm (norm2 blk) dim.

Definition wf_PatchEmbedding (m : PatchEmbedding) (channels dim ph pw : nat) : Prop :=
  match m with
  | LinearPatches ph' pw' proj =>
      ph' = Z.of_nat ph /\ pw' = Z.of_nat pw /\
      wf_Linear proj (ph * pw * channels) dim
  | ConvPatches c =>
      shape (conv_weight (projection c)) = [dim; channels; ph; pw] /\
      conv_stride (projection c) = (ph, pw)
  end.

(** A ViT instance for [channels] input channels, width [dim], patches
    of [ph] x [pw] pixels and [N] stored patch positions. *)
Record wf_ViT (self : ViT) (channels dim ph pw N : nat) : Prop := mk_wf_ViT {
  wf_patch_height : patch_height self = Z.of_nat ph;
  wf_patch_width : patch_width self = Z.of_nat pw;
  wf_ph_pos : 0 < ph;
  wf_pw_pos : 0 < pw;
  wf_embedding : wf_PatchEmbedding (patch_to_embedding self) channels dim ph pw;
  wf_pos : shape (pos_embedding self) = [1; N + 1; dim];
  wf_cls : shape (cls_token self) = [1; 1; dim];
  wf_layers : Forall (wf_Block dim) (layers self);
  wf_norm : wf_LayerNorm (norm self) dim
}.

(** The arguments under which the constructor is used: sizes as a scalar
    or a (height, width) tuple of integers, positive patch lengths,
    at least one head of positive width, probabilities in [0, 1]. *)
Definition valid_args (a : ViTArgs) (ih iw ph pw : Z) : Prop :=
  size_arg (arg_image_size a) ih iw /\
  size_arg (arg_patch_size a) ph pw /\
  (0 <= ih)%Z /\ (0 <= iw)%Z /\ (0 < ph)%Z /\ (0 < pw)%Z /\
  0 < arg_heads a /\ 0 < arg_dim_head a /\
  (0 <= arg_dropout a <= 1)%R /\ (0 <= arg_emb_dropout a <= 1)%R.

(** ** Concrete instances used to exercise the statements *)

(** An engine whose [erf] is monotone and whose resize gives each axis
    the requested length [r]. *)
Definition engine_of (r : nat) : Engine :=
  mkEngine (fun x => x) (fun x => x) (fun _ _ => Ok r) (fun _ _ _ _ => 0%R).

(** A generator in evaluation mode: dropout is the identity. *)
Definition quiet_rs : RandomState :=
  mkRandomState (fun _ => 0%R) (fun _ _ => 1%R) (fun _ _ => 0%R).

(** [ViT(image_size=32, patch_size=(16, 8), channels=3, dim=4, depth=1,
         heads=2, mlp_dim=8, dim_head=2)] *)
Definition args_32_16x8 : ViTArgs :=
  mkViTArgs (PyInt 32) (PyTuple [PyInt 16; PyInt 8]) 3 4 1 2 8 2
            false "linear" 0 0 false.

(** [isinstance(m, nn.Linear)] and [isinstance(m, nn.LayerNorm)] *)
Definition is_Linear (m : Module) : bool :=
  match m with ModLinear _ => true | _ => false end.

Definition is_LayerNorm (m : Module) : bool :=
  match m with ModLayerNorm _ => true | _ => false end.

(** A convolutional projection for 3 channels, width 4, 2 x 2 patches. *)
Definition conv_3_4_2x2 : Conv2d :=
  mkConv2d (mkTensor [4; 3; 2; 2] (fun _ => 1%R)) (full [4] 1) (2, 2).

(** The composition as the specification words it: the second residual
    adds the MLP output to the intermediate [t] itself. *)
Definition TransformerBlock_as_specified (E : Engine) (rs : RandomState)
           (self : TransformerBlock) (x : Tensor) : result Tensor :=
  x1 <- LayerNorm_forward (norm1 self) x ;;
  a <- Attention_forward rs (attention self) x1 ;;
  t <- tensor_add x1 a ;;
  u <- LayerNorm_forward (norm2 self) t ;;
  m <- MLP_forward E rs (mlp self) u ;;
  tensor_add t m.

(** A linear layer with zero weight and constant bias [b]. *)
Definition zero_linear (i o : nat) (b : R) : Linear :=
  mkLinear (full [o; i] 0) (Some (full [o] b)).

(** A block of width 1 (one head of width 1, hidden width 1, dropout 0)
    whose parameters are: both normalizations at weight 1 and bias 0, all
    linear weights 0, the bias of the attention output projection 1, all
    other biases 0. *)
Definition unit_block : TransformerBlock :=
  mkTransformerBlock
    (mkLayerNorm (full [1] 1) (full [1] 0) (1 / 100000))
    (mkAttention 1 1 (mkDropout 0 1)
       (mkLinear (full [3; 1] 0) None) (zero_linear 1 1 1) (mkDropout 0 2))
    (mkMLP (zero_linear 1 1 0) (mkDropout 0 3) (zero_linear 1 1 0) (mkDropout 0 4))
    (mkLayerNorm (full [1] 1) (full [1] 0) (1 / 100000)).

(** One sequence of one position holding the value 5. *)
Definition unit_input : Tensor := full [1; 1; 1] 5.

(** The value of channel [ic] at row [p], column [q] inside the patch at
    row [i], column [j] of the patch grid of image [ib]. *)
Definition patch_pixel (x : Tensor) (ph pw ib i j ic p q : nat) : R :=
  elem x [ib; ic; i * ph + p; j * pw + q].

(** An image batch of two 3-channel 4 x 6 images, and the two projections
    for 2 x 3 patches and width 4. *)
Definition image_2x3x4x6 : Tensor := full [2; 3; 4; 6] 1.

Definition linear_2x3 : PatchEmbedding :=
  LinearPatches 2 3 (mkLinear (full [4; 18] 1) (Some (full [4] 0))).

Definition conv_2x3 : PatchEmbedding :=
  ConvPatches (mkConvProjection
                 (mkConv2d (full [4; 3; 2; 3] 1) (full [4] 0) (2, 3))).

(** The sequence [x] as it stands in [ViT.forward] when the pooling
    statement on line 185 is reached (lines 175-184). *)
Definition ViT_final_sequence (E : Engine) (rs : RandomState) (self : ViT)
           (x : Tensor) (norm_flag : bool) : result Tensor :=
  match shape x with
  | [b; _; w; h] =>
      x <- PatchEmbedding_forward (patch_to_embedding self) x ;;
      cls_tokens <- expand_batch (cls_token self) b ;;
      x <- cat_dim1 cls_tokens x ;;
      pos <- interpolate_pos_encoding E self x w h ;;
      x <- tensor_iadd x pos ;;
      let x := Dropout_forward rs (dropout self) x in
      x <- apply_layers E rs (layers self) x ;;
      if norm_flag then LayerNorm_forward (norm self) x else Ok x
  | _ => Raise ValueError
  end.

(** The scale factor [(q + 0.1) / math.sqrt(N)] handed to the resize. *)
Definition resize_scale (q : Z) (N : nat) : R :=
  ((IZR q + 1 / 10) / sqrt (INR N))%R.

(** [ViT(image_size=(32, 16), patch_size=16, channels=3, dim=4, depth=1,
         heads=2, mlp_dim=8, dim_head=2)]: a 2 x 1 patch grid. *)
Definition args_32x16_16 : ViTArgs :=
  mkViTArgs (PyTuple [PyInt 32; PyInt 16]) (PyInt 16) 3 4 1 2 8 2
            false "linear" 0 0 false.

(** [ViT(image_size=32, patch_size=16, channels=3, dim=4, depth=1,
         heads=2, mlp_dim=8, dim_head=2, pool=...)]: a 2 x 2 patch grid. *)
Definition args_32_16 (pool_flag : bool) : ViTArgs :=
  mkViTArgs (PyInt 32) (PyInt 16) 3 4 1 2 8 2
            pool_flag "linear" 0 0 false.

(** The positional encoding computed for a sequence of [n] positions has
    [n] positions. *)
Definition pos_encoding_fits (E : Engine) (self : ViT) (b n dim w h : nat) : Prop :=
  exists pos,
    interpolate_pos_encoding E self (full [b; n; dim] 0) w h = Ok pos
    /\ shape pos = [1; n; dim].

Definition is_linear_projection (m : PatchEmbedding) : bool :=
  match m with
  | LinearPatches _ _ _ => true
  | ConvPatches _ => false
  end.

(** A block of width 2 (one head of width 2, hidden width 3) whose
    attention output projection and last MLP layer have zero weight and
    zero bias: both sublayers return zero. *)
Definition silent_block : TransformerBlock :=
  mkTransformerBlock
    (mkLayerNorm (full [2] 1) (full [2] 0) (1 / 100000))
    (mkAttention 1 (/ sqrt 2) (mkDropout 0 1)
       (mkLinear (full [6; 2] 1) None) (zero_linear 2 2 0) (mkDropout 0 2))
    (mkMLP (mkLinear (full [3; 2] 1) (Some (full [3] 0))) (mkDropout 0 3)
           (zero_linear 3 2 0) (mkDropout 0 4))
    (mkLayerNorm (full [2] 1) (full [2] 0) (1 / 100000)).

(** What [TransformerBlock.__init__] fixes in a block, given the
    constructor arguments. *)
Definition block_as_configured (dim heads dim_head mlp_dim : nat) (qkv_bias : bool)
           (blk : TransformerBlock) : Prop :=
  att_heads (attention blk) = heads
  /\ att_scale (attention blk) = (/ sqrt (INR dim_head))%R
  /\ shape (lin_weight (to_qkv (attention blk))) = [dim_head * heads * 3; dim]
  /\ (lin_bias (to_qkv (attention blk)) = None <-> qkv_bias = false)
  /\ shape (lin_weight (to_out_linear (attention blk))) = [dim; dim_head * heads]
  /\ shape (lin_weight (mlp_fc1 (mlp blk))) = [mlp_dim; dim]
  /\ shape (lin_weight (mlp_fc2 (mlp blk))) = [dim; mlp_dim].

(** Two results of the same kind: the same exception, or two values
    related by [R]. *)
Definition result_rel {A : Type} (R : A -> A -> Prop) (r r' : result A) : Prop :=
  match r, r' with
  | Ok y, Ok y' => R y y'
  | Raise e, Raise e' => e = e'
  | _, _ => False
  end.

(** Two tensors of one shape, of rank 2, 3 or 4, that hold the same
    values at batch index [ib]. *)
Definition same2 (ib : nat) (x y : Tensor) : Prop :=
  shape x = shape y
  /\ (exists b d, shape x = [b; d] /\ ib < b)
  /\ forall k, elem x [ib; k] = elem y [ib; k].

Definition same3 (ib : nat) (x y : Tensor) : Prop :=
  shape x = shape y
  /\ (exists b n d, shape x = [b; n; d] /\ ib < b)
  /\ forall i k, elem x [ib; i; k] = elem y [ib; i; k].

Definition same4 (ib : nat) (x y : Tensor) : Prop :=
  shape x = shape y
  /\ (exists b c h w, shape x = [b; c; h; w] /\ ib < b)
  /\ forall c i k, elem x [ib; c; i; k] = elem y [ib; c; i; k].

(** Three tensors related componentwise. *)
Definition same_qkv (S : Tensor -> Tensor -> Prop)
           (p p' : Tensor * Tensor * Tensor) : Prop :=
  S (fst (fst p)) (fst (fst p')) /\ S (snd (fst p)) (snd (fst p'))
  /\ S (snd p) (snd p').

(** A batch of two images that differs from the zero batch in its second
    image only. *)
Definition second_image_ones : Tensor :=
  mkTensor [2; 3; 32; 32]
    (fun idx => match idx with
                | 1 :: _ => 1%R
                | _ => 0%R
                end).

(** A resize that gives a grid axis the length 1 under a scale factor
    below 1 and the length 8 otherwise. *)
Definition engine_1_or_8 : Engine :=
  mkEngine (fun x => x) (fun x => x)
           (fun _ s => if Rlt_dec s 1 then Ok 1 else Ok 8)
           (fun _ _ _ _ => 0%R).

(** [ViT(image_size=(32, 8), patch_size=(16, 4), channels=3, dim=4,
         depth=1, heads=2, mlp_dim=8, dim_head=2)]: a 2 x 2 grid of
    16 x 4 patches. *)
Definition args_32x8_16x4 : ViTArgs :=
  mkViTArgs (PyTuple [PyInt 32; PyInt 8]) (PyTuple [PyInt 16; PyInt 4])
            3 4 1 2 8 2 false "linear" 0 0 false.

(** * Properties *)

(** ** Generic facts about the error monad and sums *)

Lemma shape_eqb_refl (s : list nat) : shape_eqb s s = true.
Proof. unfold shape_eqb. destruct (list_eq_dec Nat.eq_dec s s); congruence. Qed.

Lemma shape_eqb_eq (s1 s2 : list nat) : shape_eqb s1 s2 = true -> s1 = s2.
Proof. unfold shape_eqb. destruct (list_eq_dec Nat.eq_dec s1 s2); congruence. Qed.

Lemma bind_Ok_inv {A B : Type} (m : result A) (k : A -> result B) (b : B) :
  bind m k = Ok b -> exists a, m = Ok a /\ k a = Ok b.
Proof. destruct m as [a|e]; simpl; intros H; [eauto | discriminate]. Qed.

Lemma sum_n_ext (n : nat) (f g : nat -> R) :
  (forall j, j < n -> f j = g j) -> sum_n n f = sum_n n g.
Proof.
  induction n as [|n IH]; intros H; simpl; [reflexivity|].
  rewrite IH by (intros; apply H; lia). rewrite H by lia. reflexivity.
Qed.

Lemma sum_n_scale (n : nat) (f : nat -> R) (c : R) :
  sum_n n (fun j => f j * c)%R = (sum_n n f * c)%R.
Proof. induction n as [|n IH]; simpl; [lra | rewrite IH; lra]. Qed.

Lemma sum_n_pos (n : nat) (f : nat -> R) :
  0 < n -> (forall j, j < n -> (0 < f j)%R) -> (0 < sum_n n f)%R.
Proof.
  induction n as [|n IH]; intros Hn Hf; [lia|]. simpl.
  destruct n as [|n'].
  - simpl. specialize (Hf 0 ltac:(lia)). lra.
  - assert (0 < sum_n (S n') f)%R by (apply IH; [lia | intros; apply Hf; lia]).
    specialize (Hf (S n') ltac:(lia)). lra.
Qed.

(** ** C10: [pair] and the sizes the constructor accepts *)

Lemma pair_non_tuple (t : PyVal) : is_tuple t = false -> pair t = PyTuple [t; t].
Proof. unfold pair. intros ->. reflexivity. Qed.

Lemma pair_tuple (t : PyVal) : is_tuple t = true -> pair t = t.
Proof. unfold pair. intros ->. reflexivity. Qed.

Lemma unpack2_pair_size (v : PyVal) (h w : Z) :
  size_arg v h w -> unpack2 (pair v) = Ok (PyInt h, PyInt w).
Proof. intros [[-> ->] | ->]; reflexivity. Qed.

Lemma Dropout_init_ok (id : nat) (p : R) :
  (0 <= p <= 1)%R -> Dropout_init id p = Ok (mkDropout p id).
Proof.
  intros [H0 H1]. unfold Dropout_init.
  destruct (Rlt_dec p 0) as [Hlt|_]; [lra|].
  destruct (Rgt_dec p 1) as [Hgt|_]; [lra | reflexivity].
Qed.

Lemma TransformerBlock_init_ok (rs : RandomState) (i dim heads dim_head mlp_dim : nat)
      (p : R) (qkv_bias : bool) :
  0 < heads -> 0 < dim_head -> (0 <= p <= 1)%R ->
  exists blk,
    TransformerBlock_init rs i dim heads dim_head mlp_dim p qkv_bias = Ok blk
    /\ wf_Block dim blk.
Proof.
  intros Hh Hd Hp.
  unfold TransformerBlock_init, Attention_init.
  destruct (Nat.eqb_spec dim_head 0) as [->|_]; [lia|].
  cbn [bind]. rewrite !Dropout_init_ok by assumption. cbn [bind].
  eexists; split; [reflexivity|].
  repeat split; cbn; try reflexivity.
  - exists dim_head. repeat split; cbn; try assumption; reflexivity.
  - exists mlp_dim. split; reflexivity.
Qed.

Lemma blocks_init_ok (rs : RandomState) (depth i dim heads dim_head mlp_dim : nat)
      (p : R) (qkv_bias : bool) :
  0 < heads -> 0 < dim_head -> (0 <= p <= 1)%R ->
  exists bl,
    blocks_init rs i depth dim heads dim_head mlp_dim p qkv_bias = Ok bl
    /\ Forall (wf_Block dim) bl /\ List.length bl = depth.
Proof.
  intros Hh Hd Hp. revert i.
  induction depth as [|depth IH]; intros i; simpl.
  - exists []. repeat split. constructor.
  - destruct (TransformerBlock_init_ok rs i dim heads dim_head mlp_dim p qkv_bias Hh Hd Hp)
      as (blk & -> & Hblk).
    destruct (IH (S i)) as (bl & -> & Hbl & Hlen).
    exists (blk :: bl). cbn. repeat split; [constructor; assumption | lia].
Qed.

Lemma ViT_init_ok (rs : RandomState) (a : ViTArgs) (ih iw ph pw : Z) :
  valid_args a ih iw ph pw ->
  exists self,
    ViT_init rs a = Ok self
    /\ wf_ViT self (arg_channels a) (arg_dim a) (Z.to_nat ph) (Z.to_nat pw)
         (Z.to_nat ((ih / ph) * (iw / pw)))
    /\ pool self = arg_pool a
    /\ List.length (layers self) = arg_depth a
    /\ is_linear_projection (patch_to_embedding self)
       = String.eqb (arg_projection a) "linear".
Proof.
  intros (Hi & Hp & Hih & Hiw & Hph & Hpw & Hh & Hd & Hdr & Hedr).
  unfold ViT_init.
  rewrite (unpack2_pair_size _ _ _ Hi), (unpack2_pair_size _ _ _ Hp). cbn [bind].
  unfold py_floordiv.
  destruct (Z.eqb_spec ph 0) as [->|_]; [lia|].
  destruct (Z.eqb_spec pw 0) as [->|_]; [lia|].
  cbn [bind py_int].
  assert (Hn : (0 <= ih / ph * (iw / pw))%Z).
  { apply Z.mul_nonneg_nonneg; apply Z.div_pos; lia. }
  assert (Hpos : new_param_z rs 2
                   [1%Z; (ih / ph * (iw / pw) + 1)%Z; Z.of_nat (arg_dim a)]
                 = Ok (new_param rs 2
                         [1; Z.to_nat (ih / ph * (iw / pw)) + 1; arg_dim a])).
  { unfold new_param_z. cbn [forallb map].
    replace (0 <=? 1)%Z with true by reflexivity.
    replace (0 <=? ih / ph * (iw / pw) + 1)%Z with true
      by (symmetry; apply Z.leb_le; lia).
    replace (0 <=? Z.of_nat (arg_dim a))%Z with true
      by (symmetry; apply Z.leb_le; lia).
    cbn. rewrite Nat2Z.id. rewrite Z2Nat.inj_add by lia.
    reflexivity. }
  destruct (blocks_init_ok rs (arg_depth a) 0 (arg_dim a) _ _ (arg_mlp_dim a)
              _ (arg_qkv_bias a) Hh Hd Hdr) as (bl & Hbl & Hwf & Hlen).
  destruct (String.eqb (arg_projection a) "linear").
  - assert (Hw : new_param_z rs 0
                   [Z.of_nat (arg_dim a); (ph * pw * Z.of_nat (arg_channels a))%Z]
                 = Ok (new_param rs 0
                         [arg_dim a; Z.to_nat ph * Z.to_nat pw * arg_channels a])).
    { unfold new_param_z. cbn [forallb map].
      replace (0 <=? Z.of_nat (arg_dim a))%Z with true
        by (symmetry; apply Z.leb_le; lia).
      replace (0 <=? ph * pw * Z.of_nat (arg_channels a))%Z with true
        by (symmetry; apply Z.leb_le; apply Z.mul_nonneg_nonneg; lia).
      cbn. rewrite Nat2Z.id.
      rewrite !Z2Nat.inj_mul by lia. rewrite Nat2Z.id. reflexivity. }
    rewrite Hw. cbn [bind]. rewrite Hpos. cbn [bind].
    rewrite (Dropout_init_ok 0 _ Hedr). cbn [bind]. rewrite Hbl. cbn [bind].
    eexists; split; [reflexivity|].
    split; [|split; [reflexivity | split; [assumption | reflexivity]]].
    constructor; cbn; try reflexivity; try assumption; try lia.
    repeat split; try reflexivity; symmetry; apply Z2Nat.id; lia.
    all: symmetry; apply Z2Nat.id; lia.
  - unfold ConvProjection_init.
    assert (Hw : new_param_z rs 0
                   [Z.of_nat (arg_dim a); Z.of_nat (arg_channels a); ph; pw]
                 = Ok (new_param rs 0
                         [arg_dim a; arg_channels a; Z.to_nat ph; Z.to_nat pw])).
    { unfold new_param_z. cbn [forallb map].
      replace (0 <=? Z.of_nat (arg_dim a))%Z with true
        by (symmetry; apply Z.leb_le; lia).
      replace (0 <=? Z.of_nat (arg_channels a))%Z with true
        by (symmetry; apply Z.leb_le; lia).
      replace (0 <=? ph)%Z with true by (symmetry; apply Z.leb_le; lia).
      replace (0 <=? pw)%Z with true by (symmetry; apply Z.leb_le; lia).
      cbn. rewrite !Nat2Z.id. reflexivity. }
    rewrite Hw. cbn [bind]. rewrite Hpos. cbn [bind].
    rewrite (Dropout_init_ok 0 _ Hedr). cbn [bind]. rewrite Hbl. cbn [bind].
    eexists; split; [reflexivity|].
    split; [|split; [reflexivity | split; [assumption | reflexivity]]].
    constructor; cbn; try reflexivity; try assumption; try lia.
    all: try (symmetry; apply Z2Nat.id; lia).
    split; reflexivity.
Qed.

(** C10.  [pair] sends every non-tuple [t] to [(t, t)] and gives every
    tuple back as it is; so the constructor takes [image_size] and
    [patch_size] as one integer (a square) or as a (height, width) tuple,
    and the positional parameter it stores has one row more than the
    patch count (height // patch_height) * (width // patch_width). *)
Theorem pair_and_constructor_sizes :
  (forall t, is_tuple t = false -> pair t = PyTuple [t; t]) /\
  (forall t, is_tuple t = true -> pair t = t) /\
  (forall rs a ih iw ph pw,
      valid_args a ih iw ph pw ->
      exists self,
        ViT_init rs a = Ok self
        /\ patch_height self = ph /\ patch_width self = pw
        /\ shape (pos_embedding self)
           = [1; Z.to_nat ((ih / ph) * (iw / pw)) + 1; arg_dim a]).
Proof.
  split; [exact pair_non_tuple | split; [exact pair_tuple |]].
  intros rs a ih iw ph pw Hv.
  destruct (ViT_init_ok rs _ _ _ _ _ Hv) as (self & Hinit & Hwf & _).
  exists self. split; [assumption|].
  destruct Hv as (_ & _ & _ & _ & Hph & Hpw & _).
  destruct Hwf as [Hh Hw _ _ _ Hpos _ _ _].
  rewrite Hh, Hw, !Z2Nat.id by lia. auto.
Qed.

Lemma pair_and_constructor_sizes_witness :
  pair (PyInt 32) = PyTuple [PyInt 32; PyInt 32]
  /\ pair (PyTuple [PyInt 16; PyInt 8]) = PyTuple [PyInt 16; PyInt 8]
  /\ exists self,
       ViT_init quiet_rs args_32_16x8 = Ok self
       /\ patch_height self = 16%Z /\ patch_width self = 8%Z
       /\ shape (pos_embedding self) = [1; 9; 4].
Proof.
  destruct pair_and_constructor_sizes as (Hs & Ht & Hc).
  split; [apply Hs; reflexivity | split; [apply Ht; reflexivity |]].
  apply (Hc quiet_rs args_32_16x8 32%Z 32%Z 16%Z 8%Z).
  unfold valid_args, size_arg; simpl.
  repeat split; try lia; try lra; auto.
Defined.

(** ** C8: the mixup arguments of [forward] *)

(** C8.  Two calls of [ViT.forward] on the same instance, input, [norm]
    flag and random state that differ only in [mixup], [lbda] and [perm]
    have the same outcome, for all values of these arguments: the same
    features, or the same exception. *)
Theorem forward_ignores_mixup_arguments :
  forall E rs self x norm_flag mixup lbda perm mixup' lbda' perm',
    ViT_forward E rs self x norm_flag mixup lbda perm
    = ViT_forward E rs self x norm_flag mixup' lbda' perm'.
Proof. intros. unfold ViT_forward. reflexivity. Qed.

(** ** C9: the modules [_init_weights] touches *)

(** C9.  [_init_weights] rewrites the weight of an [nn.Linear] with the
    truncated normal initializer (mean 0, std 0.02, bounds -2 and 2) and
    zeroes its bias when it has one; it sets an [nn.LayerNorm] to unit
    weight and zero bias; every module that is neither, the [nn.Conv2d]
    of the convolutional projection and that projection itself among
    them, comes back unchanged. *)
Theorem init_weights_only_linear_and_layernorm :
  forall E rs,
    (forall l,
        _init_weights E rs (ModLinear l)
        = ('(w, _) <- trunc_normal_ E rs (lin_weight l) 0 (2 / 100) (-2) 2 ;;
           Ok (ModLinear (mkLinear w (option_map (fun b => full (shape b) 0)
                                                 (lin_bias l))))))
    /\ (forall l,
           _init_weights E rs (ModLayerNorm l)
           = Ok (ModLayerNorm (mkLayerNorm (full (shape (ln_weight l)) 1)
                                           (full (shape (ln_bias l)) 0)
                                           (ln_eps l))))
    /\ (forall m,
           is_Linear m = false -> is_LayerNorm m = false ->
           _init_weights E rs m = Ok m)
    /\ (forall c,
           _init_weights E rs (ModConv2d c) = Ok (ModConv2d c)
           /\ _init_weights E rs (ModConvProjection (mkConvProjection c))
              = Ok (ModConvProjection (mkConvProjection c))).
Proof.
  intros E rs. split; [|split; [|split]].
  - intros l. unfold _init_weights. destruct (lin_bias l); reflexivity.
  - intros l. reflexivity.
  - intros m Hl Hn. destruct m; try reflexivity; discriminate.
  - intros c. split; reflexivity.
Qed.

Lemma init_weights_only_linear_and_layernorm_witness :
  _init_weights (engine_of 0) quiet_rs (ModConv2d conv_3_4_2x2)
  = Ok (ModConv2d conv_3_4_2x2).
Proof.
  destruct (init_weights_only_linear_and_layernorm (engine_of 0) quiet_rs)
    as (_ & _ & Hframe & _).
  apply Hframe; reflexivity.
Defined.

(** ** C6: the truncated normal initializer *)

Lemma clamp_value_in_range (v a b : R) :
  (a <= b)%R -> (a <= Rmin (Rmax v a) b <= b)%R.
Proof.
  intros Hab. split.
  - apply Rmin_glb; [apply Rmax_r | assumption].
  - apply Rmin_r.
Qed.

Lemma norm_cdf_monotone (E : Engine) (x y : R) :
  (forall u v, (u <= v)%R -> (erf E u <= erf E v)%R) ->
  (x <= y)%R -> (norm_cdf E x <= norm_cdf E y)%R.
Proof.
  intros Hmono Hxy. unfold norm_cdf.
  assert (Hs : (0 < sqrt 2)%R) by (apply sqrt_lt_R0; lra).
  assert (Hq : (x / sqrt 2 <= y / sqrt 2)%R).
  { unfold Rdiv. apply Rmult_le_compat_r; [|assumption].
    left. apply Rinv_0_lt_compat. assumption. }
  specialize (Hmono _ _ Hq). lra.
Qed.




(** ** Shapes and values of the framework operations *)

Lemma in_bounds_app (s1 s2 i1 i2 : list nat) :
  in_bounds s1 i1 -> in_bounds s2 i2 -> in_bounds (s1 ++ s2) (i1 ++ i2).
Proof.
  revert i1. induction s1 as [|d s1 IH]; intros [|i i1]; simpl; try tauto.
  intros [Hi H1] H2. split; [assumption | apply IH; assumption].
Qed.

Lemma in_bounds_rev (s idx : list nat) :
  in_bounds s idx -> in_bounds (rev s) (rev idx).
Proof.
  revert idx. induction s as [|d s IH]; intros [|i idx]; simpl; try tauto.
  intros [Hi H]. apply in_bounds_app; [apply IH; assumption | simpl; tauto].
Qed.

Lemma bidx_rev_in_bounds (r ridx : list nat) :
  in_bounds r ridx -> bidx_rev r ridx = ridx.
Proof.
  revert ridx. induction r as [|d r IH]; intros [|i ridx]; simpl; try tauto.
  intros [Hi H]. rewrite IH by assumption.
  destruct (Nat.eqb_spec d 1) as [->|_]; [|reflexivity].
  replace i with 0 by lia. reflexivity.
Qed.

Lemma bidx_in_bounds (s idx : list nat) :
  in_bounds s idx -> bidx s idx = idx.
Proof.
  intros H. unfold bidx.
  rewrite bidx_rev_in_bounds by (apply in_bounds_rev; assumption).
  apply rev_involutive.
Qed.

Lemma broadcast_rev_same (r : list nat) : broadcast_rev r r = Some r.
Proof.
  induction r as [|a r IH]; simpl; [reflexivity|].
  rewrite IH, Nat.eqb_refl. reflexivity.
Qed.

Lemma broadcast_shapes_same (s : list nat) : broadcast_shapes s s = Some s.
Proof.
  unfold broadcast_shapes. rewrite broadcast_rev_same. simpl.
  rewrite rev_involutive. reflexivity.
Qed.

(** [x + y] on equal shapes: the elementwise sum. *)
Lemma tensor_add_same_shape (x y : Tensor) (s : list nat) :
  shape x = s -> shape y = s ->
  exists z,
    tensor_add x y = Ok z /\ shape z = s
    /\ forall idx, in_bounds s idx -> elem z idx = (elem x idx + elem y idx)%R.
Proof.
  intros Hx Hy. unfold tensor_add. rewrite Hx, Hy, broadcast_shapes_same.
  eexists; split; [reflexivity|]. split; [reflexivity|].
  intros idx Hidx. cbn. rewrite bidx_in_bounds by assumption. reflexivity.
Qed.

Lemma Linear_forward_shape (l : Linear) (x : Tensor) (i o b n : nat) :
  wf_Linear l i o -> shape x = [b; n; i] ->
  exists y, Linear_forward l x = Ok y /\ shape y = [b; n; o].
Proof.
  unfold wf_Linear, Linear_forward. intros -> ->. cbn.
  rewrite Nat.eqb_refl. eexists; split; reflexivity.
Qed.

Lemma LayerNorm_forward_shape (l : LayerNorm) (x : Tensor) (d b n : nat) :
  wf_LayerNorm l d -> shape x = [b; n; d] ->
  exists y, LayerNorm_forward l x = Ok y /\ shape y = [b; n; d].
Proof.
  unfold wf_LayerNorm, LayerNorm_forward. intros -> ->. cbn.
  rewrite Nat.eqb_refl. eexists; split; reflexivity.
Qed.

Lemma chunk3_thirds (t : Tensor) (b n c : nat) :
  0 < c -> shape t = [b; n; c * 3] ->
  chunk3 t = Ok [slice_last t 0 c; slice_last t c c; slice_last t (2 * c) c].
Proof.
  intros Hc Hs. unfold chunk3. rewrite Hs.
  cbn [last].
  destruct (Nat.eqb_spec (c * 3) 0) as [H0|_]; [lia|].
  assert (Hsplit : (c * 3 + 2) / 3 = c).
  { symmetry. apply (Nat.div_unique _ 3 c 2); lia. }
  rewrite Hsplit.
  assert (Hnum : (c * 3 + c - 1) / c = 3).
  { symmetry. apply (Nat.div_unique _ c 3 (c - 1)); lia. }
  rewrite Hnum. cbn [seq map].
  replace (Nat.min c (c * 3 - 0 * c)) with c by lia.
  replace (Nat.min c (c * 3 - 1 * c)) with c by lia.
  replace (Nat.min c (c * 3 - 2 * c)) with c by lia.
  replace (0 * c) with 0 by lia. replace (1 * c) with c by lia.
  reflexivity.
Qed.

Lemma split_heads_shape (heads : nat) (t : Tensor) (b n dh : nat) :
  0 < heads -> shape t = [b; n; dh * heads] ->
  exists y, split_heads heads t = Ok y /\ shape y = [b; heads; n; dh].
Proof.
  intros Hh Hs. unfold split_heads. rewrite Hs.
  destruct (Nat.eqb_spec heads 0) as [H0|_]; [lia|].
  rewrite Nat.Div0.mod_mul. cbn [Nat.eqb negb orb].
  rewrite Nat.div_mul by lia. eexists; split; reflexivity.
Qed.

Lemma Attention_weights_shape (a : Attention) (x : Tensor) (dim b n : nat) :
  wf_Attention a dim -> shape x = [b; n; dim] ->
  exists p v dh,
    Attention_weights a x = Ok (p, v)
    /\ shape p = [b; att_heads a; n; n]
    /\ shape v = [b; att_heads a; n; dh]
    /\ wf_Linear (to_out_linear a) (dh * att_heads a) dim.
Proof.
  intros (dh & Hh & Hdh & Hqkv & Hout) Hx.
  unfold Attention_weights.
  destruct (Linear_forward_shape _ _ _ _ _ _ Hqkv Hx) as (y & -> & Hy). cbn [bind].
  rewrite (chunk3_thirds y b n (dh * att_heads a)) by (try lia; assumption).
  cbn [bind unpack3_map].
  assert (Hsl : forall off, shape (slice_last y off (dh * att_heads a))
                            = [b; n; dh * att_heads a]).
  { intros off. unfold slice_last. cbn. rewrite Hy. reflexivity. }
  destruct (split_heads_shape _ (slice_last y 0 (dh * att_heads a)) _ _ _ Hh (Hsl 0))
    as (q & -> & Hq).
  destruct (split_heads_shape _ (slice_last y (dh * att_heads a) (dh * att_heads a))
              _ _ _ Hh (Hsl _)) as (k & -> & Hk).
  destruct (split_heads_shape _ (slice_last y (2 * (dh * att_heads a)) (dh * att_heads a))
              _ _ _ Hh (Hsl _)) as (v & -> & Hv).
  cbn [bind]. unfold einsum_qk. rewrite Hq, Hk, !Nat.eqb_refl. cbn [andb bind].
  eexists; exists v, dh. split; [reflexivity|]. repeat split; assumption.
Qed.

Lemma Attention_forward_shape (rs : RandomState)
      (a : Attention) (x : Tensor) (dim b n : nat) :
  wf_Attention a dim -> shape x = [b; n; dim] ->
  exists y, Attention_forward rs a x = Ok y /\ shape y = [b; n; dim].
Proof.
  intros Ha Hx. unfold Attention_forward.
  destruct (Attention_weights_shape _ _ _ _ _ Ha Hx) as (p & v & dh & -> & Hp & Hv & Hout).
  cbn [bind]. unfold einsum_av. cbn [Dropout_forward shape].
  rewrite Hp, Hv, !Nat.eqb_refl. cbn [andb bind].
  unfold merge_heads. cbn [shape]. rewrite Nat.eqb_refl. cbn [bind].
  match goal with
  | |- context [Linear_forward _ ?t] =>
      destruct (Linear_forward_shape (to_out_linear a) t
                  (dh * att_heads a) dim b n Hout) as (y & -> & Hy)
  end.
  { cbn. f_equal. f_equal. f_equal. lia. }
  cbn [bind]. eexists; split; [reflexivity | exact Hy].
Qed.

Lemma MLP_forward_shape (E : Engine) (rs : RandomState)
      (m : MLP) (x : Tensor) (dim b n : nat) :
  wf_MLP m dim -> shape x = [b; n; dim] ->
  exists y, MLP_forward E rs m x = Ok y /\ shape y = [b; n; dim].
Proof.
  intros (hid & H1 & H2) Hx. unfold MLP_forward.
  destruct (Linear_forward_shape _ _ _ _ _ _ H1 Hx) as (y1 & -> & Hy1). cbn [bind].
  match goal with
  | |- context [Linear_forward (mlp_fc2 m) ?t] =>
      destruct (Linear_forward_shape (mlp_fc2 m) t hid dim b n H2)
        as (y2 & -> & Hy2)
  end.
  { cbn. exact Hy1. }
  cbn [bind]. eexists; split; [reflexivity | exact Hy2].
Qed.

(** ** C1: the residual composition of the transformer block *)

(** C1 (amended).  On a well-formed block and a (batch, sequence, dim)
    input, [TransformerBlock.forward] returns [u + mlp(u)], where
    [u = norm2(t)] and [t = norm1(x) + attention(norm1(x))]: the second
    residual adds the MLP output to the normalized intermediate [u]. *)
Theorem transformer_block_residuals :
  forall E rs blk x dim b n,
    wf_Block dim blk -> shape x = [b; n; dim] ->
    exists x1 a t u m y,
      LayerNorm_forward (norm1 blk) x = Ok x1
      /\ Attention_forward rs (attention blk) x1 = Ok a
      /\ tensor_add x1 a = Ok t
      /\ (forall idx, in_bounds [b; n; dim] idx ->
                      elem t idx = (elem x1 idx + elem a idx)%R)
      /\ LayerNorm_forward (norm2 blk) t = Ok u
      /\ MLP_forward E rs (mlp blk) u = Ok m
      /\ TransformerBlock_forward E rs blk x = Ok y
      /\ shape y = [b; n; dim]
      /\ (forall idx, in_bounds [b; n; dim] idx ->
                      elem y idx = (elem u idx + elem m idx)%R).
Proof.
  intros E rs blk x dim b n (Hn1 & Hatt & Hmlp & Hn2) Hx.
  unfold TransformerBlock_forward.
  destruct (LayerNorm_forward_shape _ _ _ _ _ Hn1 Hx) as (x1 & Ex1 & Hx1).
  destruct (Attention_forward_shape rs _ _ _ _ _ Hatt Hx1) as (a & Ea & Ha).
  destruct (tensor_add_same_shape x1 a _ Hx1 Ha) as (t & Et & Ht & Vt).
  destruct (LayerNorm_forward_shape _ _ _ _ _ Hn2 Ht) as (u & Eu & Hu).
  destruct (MLP_forward_shape E rs _ _ _ _ _ Hmlp Hu) as (m & Em & Hm).
  destruct (tensor_add_same_shape u m _ Hu Hm) as (y & Ey & Hy & Vy).
  exists x1, a, t, u, m, y.
  rewrite Ex1. cbn [bind]. rewrite Ea. cbn [bind]. rewrite Et. cbn [bind].
  rewrite Eu. cbn [bind]. rewrite Em. cbn [bind]. rewrite Ey. cbn [bind].
  repeat split; auto.
Qed.

(** Normalizing a single feature leaves the bias: the feature equals
    its own mean. *)
Lemma LayerNorm_single_feature (l : LayerNorm) (x : Tensor) (b n : nat) :
  wf_LayerNorm l 1 -> shape x = [b; n; 1] ->
  exists y,
    LayerNorm_forward l x = Ok y /\ shape y = [b; n; 1]
    /\ forall i j, elem y [i; j; 0] = elem (ln_bias l) [0].
Proof.
  unfold wf_LayerNorm, LayerNorm_forward. intros -> ->. cbn.
  eexists; split; [reflexivity|]. split; [reflexivity|].
  intros i j. cbn. unfold row_mean at 1. cbn.
  set (v := elem x [i; j; 0]).
  replace (v - (0 + v) / 1)%R with 0%R by field.
  unfold Rdiv. rewrite !Rmult_0_l. apply Rplus_0_l.
Qed.

Lemma sum_n_zero (n : nat) (f : nat -> R) :
  (forall j, f j = 0%R) -> sum_n n f = 0%R.
Proof.
  intros H. induction n as [|n IH]; simpl; [reflexivity|].
  rewrite IH, H. lra.
Qed.

(** A linear layer with zero weight returns its bias. *)
Lemma Linear_zero_weight (x : Tensor) (i o b n : nat) (c : R) :
  shape x = [b; n; i] ->
  exists y,
    Linear_forward (zero_linear i o c) x = Ok y /\ shape y = [b; n; o]
    /\ forall idx, elem y idx = c.
Proof.
  intros Hx. unfold Linear_forward, zero_linear. cbn. rewrite Hx. cbn.
  rewrite Nat.eqb_refl. eexists; split; [reflexivity|]. split; [reflexivity|].
  intros idx. cbn. rewrite sum_n_zero by (intros; lra). lra.
Qed.

Lemma Attention_zero_projection (rs : RandomState) (a : Attention) (x : Tensor)
      (dim inner b n : nat) (c : R) :
  wf_Attention a dim -> to_out_linear a = zero_linear inner dim c ->
  shape x = [b; n; dim] ->
  exists y,
    Attention_forward rs a x = Ok y /\ shape y = [b; n; dim]
    /\ forall idx,
         elem y idx = (c * dropout_mask rs (drop_id (to_out_dropout a)) idx)%R.
Proof.
  intros Ha Hz Hx. unfold Attention_forward.
  destruct (Attention_weights_shape _ _ _ _ _ Ha Hx) as (p & v & dh & -> & Hp & Hv & Hout).
  cbn [bind]. unfold einsum_av. cbn [Dropout_forward shape].
  rewrite Hp, Hv, !Nat.eqb_refl. cbn [andb bind].
  unfold merge_heads. cbn [shape]. rewrite Nat.eqb_refl. cbn [bind].
  rewrite Hz in Hout |- *. unfold wf_Linear in Hout. cbn in Hout.
  injection Hout as Hinner.
  match goal with
  | |- context [Linear_forward _ ?t] =>
      destruct (Linear_zero_weight t inner dim b n c) as (y & -> & Hy & Vy)
  end.
  { cbn. f_equal. f_equal. f_equal. lia. }
  cbn [bind]. eexists; split; [reflexivity|]. split; [exact Hy|].
  intros idx. cbn. rewrite Vy. reflexivity.
Qed.

Lemma MLP_zero_projection (E : Engine) (rs : RandomState) (m : MLP) (x : Tensor)
      (dim hid b n : nat) (c : R) :
  wf_Linear (mlp_fc1 m) dim hid -> mlp_fc2 m = zero_linear hid dim c ->
  shape x = [b; n; dim] ->
  exists y,
    MLP_forward E rs m x = Ok y /\ shape y = [b; n; dim]
    /\ forall idx, elem y idx = (c * dropout_mask rs (drop_id (mlp_drop2 m)) idx)%R.
Proof.
  intros H1 Hz Hx. unfold MLP_forward.
  destruct (Linear_forward_shape _ _ _ _ _ _ H1 Hx) as (y1 & -> & Hy1). cbn [bind].
  rewrite Hz.
  match goal with
  | |- context [Linear_forward _ ?t] =>
      destruct (Linear_zero_weight t hid dim b n c) as (y & -> & Hy & Vy)
  end.
  { cbn. exact Hy1. }
  cbn [bind]. eexists; split; [reflexivity|]. split; [exact Hy|].
  intros idx. cbn. rewrite Vy. reflexivity.
Qed.

Lemma unit_block_wf : wf_Block 1 unit_block.
Proof.
  repeat split.
  - exists 1. repeat split; cbn; lia.
  - exists 1. split; reflexivity.
Qed.

Lemma unit_block_steps (E : Engine) :
  exists x1 a t u m y y',
    LayerNorm_forward (norm1 unit_block) unit_input = Ok x1
    /\ Attention_forward quiet_rs (attention unit_block) x1 = Ok a
    /\ tensor_add x1 a = Ok t
    /\ LayerNorm_forward (norm2 unit_block) t = Ok u
    /\ MLP_forward E quiet_rs (mlp unit_block) u = Ok m
    /\ tensor_add u m = Ok y
    /\ tensor_add t m = Ok y'
    /\ elem y [0; 0; 0] = 0%R /\ elem y' [0; 0; 0] = 1%R.
Proof.
  destruct unit_block_wf as (Hn1 & Hatt & Hmlp & Hn2).
  destruct (LayerNorm_single_feature _ unit_input 1 1 Hn1 eq_refl)
    as (x1 & Ex1 & Hx1 & Vx1).
  destruct (Attention_zero_projection quiet_rs _ x1 1 1 1 1 1%R Hatt eq_refl Hx1)
    as (a & Ea & Ha & Va).
  destruct (tensor_add_same_shape x1 a _ Hx1 Ha) as (t & Et & Ht & Vt).
  destruct (LayerNorm_single_feature _ t 1 1 Hn2 Ht) as (u & Eu & Hu & Vu).
  destruct (MLP_zero_projection E quiet_rs (mlp unit_block) u 1 1 1 1 0%R
              eq_refl eq_refl Hu) as (m & Em & Hm & Vm).
  destruct (tensor_add_same_shape u m _ Hu Hm) as (y & Ey & Hy & Vy).
  destruct (tensor_add_same_shape t m _ Ht Hm) as (y' & Ey' & Hy' & Vy').
  exists x1, a, t, u, m, y, y'. repeat (split; [assumption|]).
  assert (Hin : in_bounds [1; 1; 1] [0; 0; 0]) by (simpl; lia).
  rewrite (Vy _ Hin), (Vy' _ Hin), (Vt _ Hin), Vu, Vx1, Va, Vm. cbn.
  split; lra.
Qed.

(** C1, as stated, fails: on the unit block the code returns 0 where
    [t + mlp(norm2(t))] is 1. *)
Lemma transformer_block_second_residual_counterexample :
  exists y y',
    TransformerBlock_forward (engine_of 0) quiet_rs unit_block unit_input = Ok y
    /\ TransformerBlock_as_specified (engine_of 0) quiet_rs unit_block unit_input
       = Ok y'
    /\ elem y [0; 0; 0] = 0%R /\ elem y' [0; 0; 0] = 1%R.
Proof.
  destruct (unit_block_steps (engine_of 0))
    as (x1 & a & t & u & m & y & y' & Ex1 & Ea & Et & Eu & Em & Ey & Ey' & V & V').
  exists y, y'.
  unfold TransformerBlock_forward, TransformerBlock_as_specified.
  rewrite Ex1. cbn [bind]. rewrite Ea. cbn [bind]. rewrite Et. cbn [bind].
  rewrite Eu. cbn [bind]. rewrite Em. cbn [bind]. rewrite Ey, Ey'.
  repeat split; assumption.
Qed.

Lemma transformer_block_residuals_witness :
  exists x1 a t u m y,
    LayerNorm_forward (norm1 unit_block) unit_input = Ok x1
    /\ Attention_forward quiet_rs (attention unit_block) x1 = Ok a
    /\ tensor_add x1 a = Ok t
    /\ (forall idx, in_bounds [1; 1; 1] idx ->
                    elem t idx = (elem x1 idx + elem a idx)%R)
    /\ LayerNorm_forward (norm2 unit_block) t = Ok u
    /\ MLP_forward (engine_of 0) quiet_rs (mlp unit_block) u = Ok m
    /\ TransformerBlock_forward (engine_of 0) quiet_rs unit_block unit_input = Ok y
    /\ shape y = [1; 1; 1]
    /\ (forall idx, in_bounds [1; 1; 1] idx ->
                    elem y idx = (elem u idx + elem m idx)%R).
Proof.
  apply (transformer_block_residuals (engine_of 0) quiet_rs unit_block
           unit_input 1 1 1).
  - repeat split.
    + exists 1. repeat split; cbn; lia.
    + exists 1. split; reflexivity.
  - reflexivity.
Defined.

(** ** C5: the attention weights *)

Lemma softmax_row_sums_to_one (s : Tensor) (pre : list nat) (m : nat) :
  0 < m -> last (shape s) 1 = m ->
  sum_n m (fun j => elem (Softmax_forward s) (pre ++ [j])) = 1%R.
Proof.
  intros Hm Hlast. unfold Softmax_forward. cbn [elem]. rewrite Hlast.
  set (S := sum_n m (fun j => exp (elem s (pre ++ [j])))).
  assert (HS : (0 < S)%R).
  { apply sum_n_pos; [assumption | intros; apply exp_pos]. }
  rewrite (sum_n_ext m _ (fun j => exp (elem s (pre ++ [j])) * / S)%R).
  - rewrite sum_n_scale. fold S. field. lra.
  - intros j _. rewrite removelast_last. reflexivity.
Qed.

Lemma chunk3_pieces (t : Tensor) (l : list Tensor) :
  chunk3 t = Ok l ->
  Forall (fun c => removelast (shape c) = removelast (shape t)) l.
Proof.
  unfold chunk3. destruct (shape t) as [|d s] eqn:Hs; [discriminate|].
  rewrite <- Hs.
  assert (Hsl : forall off len,
             removelast (shape (slice_last t off len)) = removelast (shape t)).
  { intros. unfold slice_last. cbn. apply removelast_last. }
  destruct (last (shape t) 0 =? 0).
  - intros [= <-]. repeat constructor; apply Hsl.
  - intros [= <-]. apply Forall_forall. intros c Hc.
    apply in_map_iff in Hc. destruct Hc as (i & <- & _). apply Hsl.
Qed.

Lemma unpack3_map_inv (f : Tensor -> result Tensor) (l : list Tensor)
      (q k v : Tensor) :
  unpack3_map f l = Ok (q, k, v) ->
  exists a b c, l = [a; b; c] /\ f a = Ok q /\ f b = Ok k /\ f c = Ok v.
Proof.
  destruct l as [|a [|b [|c [|d l]]]]; cbn.
  - discriminate.
  - destruct (f a); cbn; discriminate.
  - destruct (f a); cbn; [destruct (f b); cbn|]; discriminate.
  - destruct (f a) as [qa|] eqn:Ea; cbn; [|discriminate].
    destruct (f b) as [qb|] eqn:Eb; cbn; [|discriminate].
    destruct (f c) as [qc|] eqn:Ec; cbn; [|discriminate].
    intros [= <- <- <-]. exists a, b, c. auto.
  - destruct (f a); cbn; [|discriminate].
    destruct (f b); cbn; [|discriminate].
    destruct (f c); cbn; [|discriminate].
    destruct (f d); discriminate.
Qed.

Lemma split_heads_inv (heads : nat) (t y : Tensor) :
  split_heads heads t = Ok y ->
  exists b n e, shape t = [b; n; e] /\ shape y = [b; heads; n; e / heads].
Proof.
  unfold split_heads.
  destruct (shape t) as [|b [|n [|e [|? ?]]]]; try discriminate.
  destruct (_ || _); [discriminate|].
  intros [= <-]. exists b, n, e. split; reflexivity.
Qed.

Lemma einsum_qk_inv (q k p : Tensor) (b h n d b' h' n' d' : nat) :
  shape q = [b; h; n; d] -> shape k = [b'; h'; n'; d'] ->
  einsum_qk q k = Ok p -> shape p = [b; h; n; n'].
Proof.
  intros Hq Hk. unfold einsum_qk. rewrite Hq, Hk.
  destruct (_ && _); [|discriminate]. intros [= <-]. reflexivity.
Qed.

(** The weights [Attention.forward] computes: square in the two sequence
    axes, produced by the softmax over the last one. *)
Lemma Attention_weights_inv (a : Attention) (x p v : Tensor) :
  Attention_weights a x = Ok (p, v) ->
  exists s b n,
    p = Softmax_forward s /\ shape s = [b; att_heads a; n; n].
Proof.
  unfold Attention_weights. intros H.
  apply bind_Ok_inv in H. destruct H as (y & Hy & H).
  apply bind_Ok_inv in H. destruct H as (qkv & Hqkv & H).
  apply bind_Ok_inv in H. destruct H as ([[q k] v'] & Hun & H).
  apply bind_Ok_inv in H. destruct H as (prod & Hprod & H).
  injection H as <- <-.
  apply unpack3_map_inv in Hun.
  destruct Hun as (c1 & c2 & c3 & -> & Hq & Hk & Hv).
  apply chunk3_pieces in Hqkv.
  inversion Hqkv as [|? ? H1 Hrest]; subst.
  inversion Hrest as [|? ? H2 _]; subst.
  apply split_heads_inv in Hq. destruct Hq as (b & n & e & Hc1 & Hq).
  apply split_heads_inv in Hk. destruct Hk as (b' & n' & e' & Hc2 & Hk).
  rewrite Hc1 in H1. rewrite Hc2 in H2. rewrite <- H1 in H2.
  cbn in H2. injection H2 as -> ->.
  pose proof (einsum_qk_inv _ _ _ _ _ _ _ _ _ _ _ Hq Hk Hprod) as Hp.
  eexists; exists b, n. split; [reflexivity|]. cbn. exact Hp.
Qed.

(** C5.  [Attention.forward] on a well-formed module and a (batch,
    sequence, dim) input computes its attention weights; and whenever the
    weights are computed, for every batch element, head and query
    position they sum to 1 over the key axis. *)
Theorem attention_weights_sum_to_one :
  (forall a x dim b n,
      wf_Attention a dim -> shape x = [b; n; dim] ->
      exists p v, Attention_weights a x = Ok (p, v)
                  /\ shape p = [b; att_heads a; n; n])
  /\ (forall a x p v,
         Attention_weights a x = Ok (p, v) ->
         exists b n,
           shape p = [b; att_heads a; n; n]
           /\ forall ib ih i,
               ib < b -> ih < att_heads a -> i < n ->
               sum_n n (fun j => elem p [ib; ih; i; j]) = 1%R).
Proof.
  split.
  - intros a x dim b n Ha Hx.
    destruct (Attention_weights_shape _ _ _ _ _ Ha Hx) as (p & v & dh & E & Hp & _).
    exists p, v. split; assumption.
  - intros a x p v H.
    destruct (Attention_weights_inv _ _ _ _ H) as (s & b & n & -> & Hs).
    exists b, n. split; [exact Hs|].
    intros ib ih i _ _ Hi.
    apply (softmax_row_sums_to_one s [ib; ih; i] n); [lia|].
    rewrite Hs. reflexivity.
Qed.

Lemma attention_weights_sum_to_one_witness :
  exists p v,
    Attention_weights (attention unit_block) (full [2; 3; 1] 5) = Ok (p, v)
    /\ shape p = [2; 1; 3; 3]
    /\ sum_n 3 (fun j => elem p [1; 0; 2; j]) = 1%R.
Proof.
  destruct attention_weights_sum_to_one as (Hex & Hsum).
  destruct (Hex (attention unit_block) (full [2; 3; 1] 5) 1 2 3)
    as (p & v & Ew & Hp).
  - exists 1. repeat split; cbn; lia.
  - reflexivity.
  - exists p, v. split; [exact Ew|]. split; [exact Hp|].
    destruct (Hsum _ _ _ _ Ew) as (b & n & Hs & Hrow).
    rewrite Hp in Hs. injection Hs as <- <-.
    apply Hrow; cbn; lia.
Defined.

(** ** C7: the two patch embeddings *)

Lemma div_mod_row_major (i j w : nat) :
  j < w -> (i * w + j) / w = i /\ (i * w + j) mod w = j.
Proof.
  intros Hj. split.
  - symmetry. apply (Nat.div_unique _ w i j); lia.
  - symmetry. apply (Nat.mod_unique _ w i j); lia.
Qed.

Lemma Rearrange_patches_value (x : Tensor) (b c H W ph pw : nat) :
  0 < ph -> 0 < pw -> H mod ph = 0 -> W mod pw = 0 ->
  shape x = [b; c; H; W] ->
  exists y,
    Rearrange_patches (Z.of_nat ph) (Z.of_nat pw) x = Ok y
    /\ shape y = [b; (H / ph) * (W / pw); ph * pw * c]
    /\ forall ib i j e,
         j < W / pw ->
         elem y [ib; i * (W / pw) + j; e]
         = patch_pixel x ph pw ib i j (e mod c) ((e / c) / pw) ((e / c) mod pw).
Proof.
  intros Hph Hpw HH HW Hx. unfold Rearrange_patches. rewrite Hx.
  destruct (Z.leb_spec (Z.of_nat ph) 0) as [Hn|_]; [lia|].
  destruct (Z.leb_spec (Z.of_nat pw) 0) as [Hn|_]; [lia|].
  cbn [orb]. rewrite !Nat2Z.id, HH, HW. cbn [Nat.eqb negb orb].
  eexists; split; [reflexivity|]. split; [reflexivity|].
  intros ib i j e Hj. cbn [elem]. unfold patch_pixel.
  destruct (div_mod_row_major i j (W / pw) Hj) as [-> ->]. reflexivity.
Qed.

Lemma conv_grid_length (H p : nat) :
  0 < p -> 0 < H -> H mod p = 0 -> (H - p) / p + 1 = H / p /\ p <= H.
Proof.
  intros Hp HH Hm.
  pose proof (Nat.div_mod_eq H p) as E. rewrite Hm in E.
  assert (Hq : 0 < H / p) by (destruct (H / p); [lia | lia]).
  split.
  - replace (H - p) with ((H / p - 1) * p) by nia.
    rewrite Nat.div_mul by lia. lia.
  - nia.
Qed.

Lemma ConvProjection_forward_value (m : ConvProjection) (x : Tensor)
      (b c H W ph pw dim : nat) :
  0 < ph -> 0 < pw -> 0 < H -> 0 < W -> H mod ph = 0 -> W mod pw = 0 ->
  shape (conv_weight (projection m)) = [dim; c; ph; pw] ->
  conv_stride (projection m) = (ph, pw) ->
  shape x = [b; c; H; W] ->
  exists y,
    ConvProjection_forward m x = Ok y
    /\ shape y = [b; (H / ph) * (W / pw); dim]
    /\ forall ib i j d,
         j < W / pw ->
         elem y [ib; i * (W / pw) + j; d]
         = (sum_n c (fun ic =>
              sum_n ph (fun p =>
                sum_n pw (fun q =>
                  elem (conv_weight (projection m)) [d; ic; p; q]
                  * patch_pixel x ph pw ib i j ic p q)))
            + elem (conv_bias (projection m)) [d])%R.
Proof.
  intros Hph Hpw HH HW HmH HmW Hw Hs Hx.
  unfold ConvProjection_forward, Conv2d_forward. rewrite Hw, Hx, Hs.
  destruct (conv_grid_length H ph Hph HH HmH) as [EH LH].
  destruct (conv_grid_length W pw Hpw HW HmW) as [EW LW].
  rewrite Nat.eqb_refl.
  destruct (Nat.eqb_spec ph 0) as [?|_]; [lia|].
  destruct (Nat.eqb_spec pw 0) as [?|_]; [lia|].
  destruct (Nat.ltb_spec H ph) as [?|_]; [lia|].
  destruct (Nat.ltb_spec W pw) as [?|_]; [lia|].
  cbn [negb orb bind]. unfold flatten2_transpose12. cbn [shape].
  rewrite EH, EW.
  eexists; split; [reflexivity|]. split; [reflexivity|].
  intros ib i j d Hj. cbn [elem].
  destruct (div_mod_row_major i j (W / pw) Hj) as [-> ->]. reflexivity.
Qed.

Lemma sum_n_plus (n : nat) (f g : nat -> R) :
  sum_n n (fun j => f j + g j)%R = (sum_n n f + sum_n n g)%R.
Proof. induction n as [|n IH]; simpl; [lra | rewrite IH; lra]. Qed.

Lemma sum_n_app (m n : nat) (f : nat -> R) :
  sum_n (m + n) f = (sum_n m f + sum_n n (fun j => f (m + j)%nat))%R.
Proof.
  induction n as [|n IH]; simpl.
  - rewrite Nat.add_0_r. lra.
  - rewrite Nat.add_succ_r. simpl. rewrite IH. lra.
Qed.

Lemma sum_n_swap (a b : nat) (g : nat -> nat -> R) :
  sum_n a (fun i => sum_n b (fun j => g i j))
  = sum_n b (fun j => sum_n a (fun i => g i j)).
Proof.
  induction a as [|a IH]; simpl.
  - symmetry. apply sum_n_zero. reflexivity.
  - rewrite IH. symmetry. apply sum_n_plus.
Qed.

Lemma sum_n_product (a b : nat) (f : nat -> R) :
  sum_n (a * b) f = sum_n a (fun i => sum_n b (fun j => f (i * b + j))).
Proof.
  induction a as [|a IH]; simpl; [reflexivity|].
  replace (b + a * b) with (a * b + b) by lia.
  rewrite sum_n_app, IH. reflexivity.
Qed.

(** The flattened patch of the linear variant, read by rows, then
    columns, then channels. *)
Lemma sum_n_patch_order (c ph pw : nat) (f : nat -> nat -> nat -> nat -> R) :
  sum_n (ph * pw * c) (fun e => f (e mod c) ((e / c) / pw) ((e / c) mod pw) e)
  = sum_n ph (fun p => sum_n pw (fun q => sum_n c (fun ic =>
      f ic p q ((p * pw + q) * c + ic)))).
Proof.
  rewrite sum_n_product. rewrite sum_n_product.
  apply sum_n_ext. intros p _. apply sum_n_ext. intros q Hq.
  apply sum_n_ext. intros ic Hic.
  destruct (div_mod_row_major (p * pw + q) ic c Hic) as [-> ->].
  destruct (div_mod_row_major p q pw Hq) as [-> ->]. reflexivity.
Qed.

Lemma LinearPatches_forward_value (lin : Linear) (x : Tensor)
      (b c H W ph pw dim : nat) :
  0 < ph -> 0 < pw -> H mod ph = 0 -> W mod pw = 0 ->
  wf_Linear lin (ph * pw * c) dim ->
  shape x = [b; c; H; W] ->
  exists y,
    PatchEmbedding_forward (LinearPatches (Z.of_nat ph) (Z.of_nat pw) lin) x = Ok y
    /\ shape y = [b; (H / ph) * (W / pw); dim]
    /\ forall ib i j d,
         j < W / pw ->
         elem y [ib; i * (W / pw) + j; d]
         = (sum_n ph (fun p =>
              sum_n pw (fun q =>
                sum_n c (fun ic =>
                  patch_pixel x ph pw ib i j ic p q
                  * elem (lin_weight lin) [d; ((p * pw + q) * c + ic)%nat])))
            + bias_at (lin_bias lin) d)%R.
Proof.
  intros Hph Hpw HmH HmW Hl Hx. unfold PatchEmbedding_forward.
  destruct (Rearrange_patches_value x b c H W ph pw Hph Hpw HmH HmW Hx)
    as (r & -> & Hr & Vr).
  cbn [bind]. unfold Linear_forward. unfold wf_Linear in Hl. rewrite Hl, Hr.
  cbn [last removelast app]. rewrite Nat.eqb_refl.
  eexists; split; [reflexivity|]. split; [reflexivity|].
  intros ib i j d Hj. cbn [elem last removelast app].
  f_equal.
  rewrite <- (sum_n_patch_order c ph pw
                (fun ic p q e => patch_pixel x ph pw ib i j ic p q
                                 * elem (lin_weight lin) [d; e])%R).
  apply sum_n_ext. intros e _. rewrite Vr by assumption. reflexivity.
Qed.

Lemma matched_weights_same_sum (c ph pw : nat) (pix wl wc : nat -> nat -> nat -> R) :
  (forall ic p q, ic < c -> p < ph -> q < pw -> wl ic p q = wc ic p q) ->
  sum_n ph (fun p => sum_n pw (fun q => sum_n c (fun ic =>
    pix ic p q * wl ic p q)))%R
  = sum_n c (fun ic => sum_n ph (fun p => sum_n pw (fun q =>
      wc ic p q * pix ic p q)))%R.
Proof.
  intros Hm.
  rewrite (sum_n_swap c ph).
  apply sum_n_ext. intros p Hp.
  rewrite (sum_n_swap c pw).
  apply sum_n_ext. intros q Hq.
  apply sum_n_ext. intros ic Hic.
  rewrite Hm by assumption. apply Rmult_comm.
Qed.

(** C7.  On an image batch whose height and width are positive multiples
    of the patch height and width, the linear and the convolutional patch
    embedding both return a tensor of shape (batch, patch_count, dim);
    in both, sequence position [i * columns + j] holds the embedding of
    the patch at row [i], column [j] of the patch grid (row-major order);
    and with matched weights and biases the two outputs are equal. *)
Theorem patch_embeddings_same_shape_and_order :
  forall lin conv x b c H W ph pw dim,
    0 < ph -> 0 < pw -> 0 < H -> 0 < W -> H mod ph = 0 -> W mod pw = 0 ->
    wf_PatchEmbedding (LinearPatches (Z.of_nat ph) (Z.of_nat pw) lin) c dim ph pw ->
    wf_PatchEmbedding (ConvPatches conv) c dim ph pw ->
    shape x = [b; c; H; W] ->
    exists yl yc,
      PatchEmbedding_forward (LinearPatches (Z.of_nat ph) (Z.of_nat pw) lin) x = Ok yl
      /\ PatchEmbedding_forward (ConvPatches conv) x = Ok yc
      /\ shape yl = [b; (H / ph) * (W / pw); dim]
      /\ shape yc = [b; (H / ph) * (W / pw); dim]
      /\ (forall ib i j d,
             j < W / pw ->
             elem yl [ib; i * (W / pw) + j; d]
             = (sum_n ph (fun p => sum_n pw (fun q => sum_n c (fun ic =>
                  patch_pixel x ph pw ib i j ic p q
                  * elem (lin_weight lin) [d; ((p * pw + q) * c + ic)%nat])))
                + bias_at (lin_bias lin) d)%R
             /\ elem yc [ib; i * (W / pw) + j; d]
                = (sum_n c (fun ic => sum_n ph (fun p => sum_n pw (fun q =>
                     elem (conv_weight (projection conv)) [d; ic; p; q]
                     * patch_pixel x ph pw ib i j ic p q)))
                   + elem (conv_bias (projection conv)) [d])%R)
      /\ ((forall d ic p q,
              ic < c -> p < ph -> q < pw ->
              elem (lin_weight lin) [d; (p * pw + q) * c + ic]
              = elem (conv_weight (projection conv)) [d; ic; p; q]) ->
          (forall d, bias_at (lin_bias lin) d
                     = elem (conv_bias (projection conv)) [d]) ->
          forall ib k d,
            k < (H / ph) * (W / pw) ->
            elem yl [ib; k; d] = elem yc [ib; k; d]).
Proof.
  intros lin conv x b c H W ph pw dim Hph Hpw HH HW HmH HmW
         (_ & _ & Hl) (Hw & Hs) Hx.
  destruct (LinearPatches_forward_value lin x b c H W ph pw dim
              Hph Hpw HmH HmW Hl Hx) as (yl & El & Sl & Vl).
  destruct (ConvProjection_forward_value conv x b c H W ph pw dim
              Hph Hpw HH HW HmH HmW Hw Hs Hx) as (yc & Ec & Sc & Vc).
  exists yl, yc. repeat (split; [assumption|]). split.
  - intros ib i j d Hj. split; [apply Vl | apply Vc]; assumption.
  - intros Hwm Hbm ib k d Hk.
    assert (Hg : 0 < W / pw) by (destruct (W / pw); lia).
    pose proof (Nat.div_mod_eq k (W / pw)) as Ek.
    pose proof (Nat.mod_upper_bound k (W / pw) ltac:(lia)) as Hj.
    replace k with (k / (W / pw) * (W / pw) + k mod (W / pw)) at 1 2 by lia.
    rewrite Vl, Vc by assumption. rewrite Hbm. f_equal.
    apply (matched_weights_same_sum c ph pw
             (fun ic p q => patch_pixel x ph pw ib (k / (W / pw)) (k mod (W / pw)) ic p q)
             (fun ic p q => elem (lin_weight lin) [d; (p * pw + q) * c + ic])
             (fun ic p q => elem (conv_weight (projection conv)) [d; ic; p; q])).
    intros ic p q Hic Hp Hq. apply Hwm; assumption.
Qed.

Lemma patch_embeddings_same_shape_and_order_witness :
  exists yl yc,
    PatchEmbedding_forward linear_2x3 image_2x3x4x6 = Ok yl
    /\ PatchEmbedding_forward conv_2x3 image_2x3x4x6 = Ok yc
    /\ shape yl = [2; 4; 4] /\ shape yc = [2; 4; 4]
    /\ forall ib k d, k < 4 -> elem yl [ib; k; d] = elem yc [ib; k; d].
Proof.
  destruct (patch_embeddings_same_shape_and_order
              (mkLinear (full [4; 18] 1) (Some (full [4] 0)))
              (mkConvProjection
                 (mkConv2d (full [4; 3; 2; 3] 1) (full [4] 0) (2, 3)))
              image_2x3x4x6 2 3 4 6 2 3 4)
    as (yl & yc & El & Ec & Sl & Sc & _ & Heq);
    try (cbn; lia); try reflexivity.
  - repeat split.
  - split; reflexivity.
  - exists yl, yc. repeat (split; [assumption|]).
    intros ib k d Hk. apply Heq; [reflexivity | reflexivity | exact Hk].
Defined.

(** ** The forward pass up to the positional encoding *)

Lemma PatchEmbedding_forward_shape (m : PatchEmbedding) (x : Tensor)
      (b c H W ph pw dim : nat) :
  0 < ph -> 0 < pw -> 0 < H -> 0 < W -> H mod ph = 0 -> W mod pw = 0 ->
  wf_PatchEmbedding m c dim ph pw ->
  shape x = [b; c; H; W] ->
  exists y,
    PatchEmbedding_forward m x = Ok y
    /\ shape y = [b; (H / ph) * (W / pw); dim].
Proof.
  intros Hph Hpw HH HW HmH HmW Hwf Hx. destruct m as [ph' pw' lin | conv].
  - destruct Hwf as (-> & -> & Hl).
    destruct (LinearPatches_forward_value lin x b c H W ph pw dim
                Hph Hpw HmH HmW Hl Hx) as (y & Ey & Sy & _).
    exists y. split; assumption.
  - destruct Hwf as (Hw & Hs).
    destruct (ConvProjection_forward_value conv x b c H W ph pw dim
                Hph Hpw HH HW HmH HmW Hw Hs Hx) as (y & Ey & Sy & _).
    exists y. split; assumption.
Qed.

Lemma embed_with_cls_shape (self : ViT) (x : Tensor)
      (b c H W ph pw dim N : nat) :
  wf_ViT self c dim ph pw N ->
  0 < H -> 0 < W -> H mod ph = 0 -> W mod pw = 0 ->
  shape x = [b; c; H; W] ->
  exists x1 cls x2,
    PatchEmbedding_forward (patch_to_embedding self) x = Ok x1
    /\ expand_batch (cls_token self) b = Ok cls
    /\ cat_dim1 cls x1 = Ok x2
    /\ shape x2 = [b; 1 + (H / ph) * (W / pw); dim].
Proof.
  intros Hwf HH HW HmH HmW Hx.
  destruct Hwf as [_ _ Hph Hpw Hemb _ Hcls _ _].
  destruct (PatchEmbedding_forward_shape _ x b c H W ph pw dim
              Hph Hpw HH HW HmH HmW Hemb Hx) as (x1 & E1 & S1).
  exists x1. unfold expand_batch, cat_dim1. rewrite Hcls.
  replace ((1 =? b) || (1 =? 1)) with true
    by (symmetry; apply orb_true_iff; right; reflexivity).
  eexists; eexists. split; [exact E1|]. split; [reflexivity|].
  cbn [shape]. rewrite S1, !Nat.eqb_refl. cbn [andb].
  split; reflexivity.
Qed.

Lemma interpolate_pos_encoding_shape_only (E : Engine) (self : ViT)
      (x x' : Tensor) (w h : nat) :
  shape x = shape x' ->
  interpolate_pos_encoding E self x w h = interpolate_pos_encoding E self x' w h.
Proof. intros Hs. unfold interpolate_pos_encoding. rewrite Hs. reflexivity. Qed.

(** The fast path: the stored parameter itself. *)
Lemma interpolate_pos_encoding_fast_path (E : Engine) (self : ViT) (x : Tensor)
      (b n d p0 s w : nat) :
  shape (pos_embedding self) = [p0; n; d] -> shape x = [b; n; s] ->
  interpolate_pos_encoding E self x w w = Ok (pos_embedding self).
Proof.
  intros Hp Hx. unfold interpolate_pos_encoding. rewrite Hp, Hx.
  rewrite Z.eqb_refl, Nat.eqb_refl. reflexivity.
Qed.

(** The general path of a well-formed instance, step by step. *)
Lemma interpolate_pos_encoding_general (E : Engine) (self : ViT) (x : Tensor)
      (b n1 c dim ph pw N w h : nat) :
  wf_ViT self c dim ph pw N -> shape x = [b; n1; dim] ->
  ~ (n1 = N + 1 /\ w = h) ->
  interpolate_pos_encoding E self x w h
  = (g <- reshape (patch_pos_embed_rows (pos_embedding self) 1 N dim)
                  [1; Nat.sqrt N; Nat.sqrt N; dim] ;;
     g <- permute_0312 g ;;
     sh <- py_div (IZR (Z.of_nat (h / ph)) + 1 / 10) (sqrt (INR N)) ;;
     sw <- py_div (IZR (Z.of_nat (w / pw)) + 1 / 10) (sqrt (INR N)) ;;
     g <- interpolate_bicubic E g sh sw ;;
     match shape g with
     | [_; _; oh; ow] =>
         if (h / ph =? oh) && (w / pw =? ow)
         then
           g <- permute_0231 g ;;
           g <- view_1_m1 g dim ;;
           cat_dim1 (class_pos_embed_row (pos_embedding self) 1 dim) g
         else Raise AssertionError
     | _ => Raise IndexError
     end).
Proof.
  intros [Hh Hw Hph Hpw _ Hpos _ _ _] Hx Hgen.
  unfold interpolate_pos_encoding. rewrite Hx, Hpos.
  replace (((Z.of_nat n1 - 1 =? Z.of_nat (N + 1) - 1)%Z) && (w =? h)) with false.
  2:{ symmetry. apply andb_false_iff.
      destruct (Z.eqb_spec (Z.of_nat n1 - 1) (Z.of_nat (N + 1) - 1)) as [Hz|Hz];
        [|left; reflexivity].
      destruct (Nat.eqb_spec w h) as [Hwh|Hwh]; [|right; reflexivity].
      exfalso. apply Hgen. split; [lia | assumption]. }
  replace (N + 1) with (S N) by lia.
  cbn [last]. unfold floordiv_len. rewrite Hh, Hw.
  destruct (Z.eqb_spec (Z.of_nat ph) 0) as [?|_]; [lia|].
  destruct (Z.eqb_spec (Z.of_nat pw) 0) as [?|_]; [lia|].
  cbn [bind]. rewrite <- !Nat2Z.inj_div.
  unfold int_plus_tenth.
  destruct (Z.ltb_spec (Z.of_nat (h / ph)) 0) as [?|_]; [lia|].
  destruct (Z.ltb_spec (Z.of_nat (w / pw)) 0) as [?|_]; [lia|].
  destruct (reshape _ _) as [g|e]; [|reflexivity]. cbn [bind].
  destruct (permute_0312 g) as [g1|e]; [|reflexivity]. cbn [bind].
  destruct (py_div _ _) as [sh|e]; [|reflexivity]. cbn [bind].
  destruct (py_div _ _) as [sw|e]; [|reflexivity]. cbn [bind].
  destruct (interpolate_bicubic E g1 sh sw) as [g2|e]; [|reflexivity]. cbn [bind].
  destruct (shape g2) as [|? [|? [|oh [|ow [|? ?]]]]]; try reflexivity.
  replace (Z.of_nat (h / ph) =? Z.of_nat oh)%Z with (h / ph =? oh).
  2:{ destruct (Nat.eqb_spec (h / ph) oh), (Z.eqb_spec (Z.of_nat (h / ph)) (Z.of_nat oh));
      try reflexivity; lia. }
  replace (Z.of_nat (w / pw) =? Z.of_nat ow)%Z with (w / pw =? ow).
  2:{ destruct (Nat.eqb_spec (w / pw) ow), (Z.eqb_spec (Z.of_nat (w / pw)) (Z.of_nat ow));
      try reflexivity; lia. }
  reflexivity.
Qed.

Lemma sqrt_INR_nonzero (N : nat) : 0 < N -> sqrt (INR N) <> 0%R.
Proof.
  intros HN. apply Rgt_not_eq. apply sqrt_lt_R0.
  apply lt_0_INR. assumption.
Qed.

Lemma py_div_ok (x y : R) : y <> 0%R -> py_div x y = Ok (x / y)%R.
Proof.
  intros Hy. unfold py_div. destruct (Req_dec_T y 0); [contradiction | reflexivity].
Qed.

(** ** C3: the general path of [interpolate_pos_encoding] *)

(** C3 (amended).  On the general path of a well-formed instance whose
    stored patch count [N] is a positive perfect square: an exception of
    the resize propagates; when the resize returns a grid, the method
    returns a tensor of sequence length
    [(h // patch_height) * (w // patch_width) + 1] if the grid has exactly
    the truncated target lengths, and raises [AssertionError] if not. *)
Theorem interpolate_pos_encoding_general_path :
  forall E self x b n1 c dim ph pw N w h,
    wf_ViT self c dim ph pw N -> 0 < dim ->
    0 < N -> Nat.sqrt N * Nat.sqrt N = N ->
    shape x = [b; n1; dim] ->
    ~ (n1 = N + 1 /\ w = h) ->
    match interp_size E (Nat.sqrt N) (resize_scale (Z.of_nat (h / ph)) N),
          interp_size E (Nat.sqrt N) (resize_scale (Z.of_nat (w / pw)) N) with
    | Ok oh, Ok ow =>
        if (h / ph =? oh) && (w / pw =? ow)
        then exists pos,
            interpolate_pos_encoding E self x w h = Ok pos
            /\ shape pos = [1; (h / ph) * (w / pw) + 1; dim]
        else interpolate_pos_encoding E self x w h = Raise AssertionError
    | Ok _, Raise e => interpolate_pos_encoding E self x w h = Raise e
    | Raise e, _ => interpolate_pos_encoding E self x w h = Raise e
    end.
Proof.
  intros E self x b n1 c dim ph pw N w h Hwf Hdim HN Hsq Hx Hgen.
  rewrite (interpolate_pos_encoding_general E self x b n1 c dim ph pw N w h
             Hwf Hx Hgen).
  unfold reshape. cbn [shape patch_pos_embed_rows numel].
  replace (1 * (N * (dim * 1)) =? 1 * (Nat.sqrt N * (Nat.sqrt N * (dim * 1))))
    with true by (symmetry; apply Nat.eqb_eq; nia).
  cbn [bind permute_0312 shape].
  rewrite !py_div_ok by (apply sqrt_INR_nonzero; assumption).
  cbn [bind]. unfold interpolate_bicubic. cbn [shape]. unfold resize_scale.
  destruct (interp_size E (Nat.sqrt N) _) as [oh|e]; [|reflexivity].
  cbn [bind].
  destruct (interp_size E (Nat.sqrt N) _) as [ow|e]; [|reflexivity].
  cbn [bind shape].
  destruct ((h / ph =? oh) && (w / pw =? ow)) eqn:Hm; [|reflexivity].
  apply andb_true_iff in Hm. destruct Hm as [Hoh How].
  apply Nat.eqb_eq in Hoh, How. subst oh ow.
  cbn [permute_0231 shape bind]. unfold view_1_m1. cbn [shape numel].
  destruct (Nat.eqb_spec dim 0) as [?|_]; [lia|].
  replace (1 * (h / ph * (w / pw * (dim * 1)))) with ((h / ph) * (w / pw) * dim)
    by lia.
  rewrite Nat.Div0.mod_mul, Nat.div_mul by lia.
  cbn [Nat.eqb negb orb]. unfold reshape. cbn [shape numel].
  replace (1 * (h / ph * (w / pw * (dim * 1)))
           =? 1 * (h / ph * (w / pw) * (dim * 1)))
    with true by (symmetry; apply Nat.eqb_eq; lia).
  unfold cat_dim1. cbn [bind shape class_pos_embed_row].
  rewrite (Nat.eqb_refl dim). cbn [Nat.eqb andb].
  eexists; split; [reflexivity|]. cbn [shape]. f_equal. f_equal. lia.
Qed.

Lemma args_32_16_valid (pool_flag : bool) :
  valid_args (args_32_16 pool_flag) 32 32 16 16.
Proof.
  unfold valid_args, size_arg; simpl.
  repeat split; try lia; try lra; auto.
Qed.

Lemma args_32x16_16_valid : valid_args args_32x16_16 32 16 16 16.
Proof.
  unfold valid_args, size_arg; simpl.
  repeat split; try lia; try lra; auto.
Qed.

Lemma interpolate_pos_encoding_general_path_witness :
  exists self,
    ViT_init quiet_rs (args_32_16 false) = Ok self
    /\ exists pos,
         interpolate_pos_encoding (engine_of 3) self (full [1; 10; 4] 0) 48 48
         = Ok pos
         /\ shape pos = [1; 10; 4].
Proof.
  destruct (ViT_init_ok quiet_rs _ _ _ _ _ (args_32_16_valid false))
    as (self & Einit & Hwf & _).
  exists self. split; [exact Einit|].
  apply (interpolate_pos_encoding_general_path (engine_of 3) self
           (full [1; 10; 4] 0) 1 10 3 4 16 16 4 48 48).
  - exact Hwf.
  - lia.
  - lia.
  - reflexivity.
  - reflexivity.
  - intros [H _]. discriminate H.
Defined.

(** A stored patch count that is not a perfect square: the reshape to a
    square grid raises. *)
Lemma interpolate_pos_encoding_nonsquare_count (E : Engine) (self : ViT)
      (x : Tensor) (b n1 c dim ph pw N w h : nat) :
  wf_ViT self c dim ph pw N -> 0 < dim ->
  Nat.sqrt N * Nat.sqrt N <> N ->
  shape x = [b; n1; dim] ->
  ~ (n1 = N + 1 /\ w = h) ->
  interpolate_pos_encoding E self x w h = Raise RuntimeError.
Proof.
  intros Hwf Hdim Hsq Hx Hgen.
  rewrite (interpolate_pos_encoding_general E self x b n1 c dim ph pw N w h
             Hwf Hx Hgen).
  unfold reshape. cbn [shape patch_pos_embed_rows numel].
  replace (1 * (N * (dim * 1)) =? 1 * (Nat.sqrt N * (Nat.sqrt N * (dim * 1))))
    with false; [reflexivity|].
  symmetry. apply Nat.eqb_neq. nia.
Qed.

(** No stored patch position at all: the scale factor divides by
    [math.sqrt(0)]. *)
Lemma interpolate_pos_encoding_zero_count (E : Engine) (self : ViT)
      (x : Tensor) (b n1 c dim ph pw w h : nat) :
  wf_ViT self c dim ph pw 0 ->
  shape x = [b; n1; dim] ->
  ~ (n1 = 1 /\ w = h) ->
  interpolate_pos_encoding E self x w h = Raise ZeroDivisionError.
Proof.
  intros Hwf Hx Hgen.
  rewrite (interpolate_pos_encoding_general E self x b n1 c dim ph pw 0 w h
             Hwf Hx Hgen).
  unfold reshape. cbn [shape patch_pos_embed_rows numel Nat.sqrt].
  replace (Nat.sqrt 0) with 0 by reflexivity.
  cbn [numel Nat.mul Nat.eqb bind permute_0312 shape INR].
  rewrite sqrt_0. unfold py_div.
  destruct (Req_dec_T 0 0) as [_|Hn]; [reflexivity | contradiction].
Qed.

(** C3, as stated, fails: for the 2 x 1 patch grid of
    [ViT(image_size=(32, 16), patch_size=16, ...)] and a 48 x 48 input the
    general path neither returns nor fails its assertion; the reshape of
    the two stored patch positions raises [RuntimeError]. *)
Lemma interpolate_pos_encoding_reshape_counterexample :
  exists self,
    ViT_init quiet_rs args_32x16_16 = Ok self
    /\ interpolate_pos_encoding (engine_of 3) self (full [1; 10; 4] 0) 48 48
       = Raise RuntimeError.
Proof.
  destruct (ViT_init_ok quiet_rs _ _ _ _ _ args_32x16_16_valid)
    as (self & Einit & Hwf & _).
  exists self. split; [exact Einit|].
  apply (interpolate_pos_encoding_nonsquare_count (engine_of 3) self
           (full [1; 10; 4] 0) 1 10 3 4 16 16 2 48 48).
  - exact Hwf.
  - lia.
  - cbn. lia.
  - reflexivity.
  - intros [H _]. discriminate H.
Qed.

(** ** C2: the fast path at the training resolution *)

(** When the configured image is square, an input at the training
    resolution takes the fast path. *)
Lemma interpolate_pos_encoding_square_training_size (E : Engine) (self : ViT)
      (x : Tensor) (b c dim ph pw N s : nat) :
  wf_ViT self c dim ph pw N -> shape x = [b; N + 1; dim] ->
  interpolate_pos_encoding E self x s s = Ok (pos_embedding self).
Proof.
  intros Hwf Hx.
  apply (interpolate_pos_encoding_fast_path E self x b (N + 1) dim 1 dim s);
    [apply (wf_pos _ _ _ _ _ _ Hwf) | exact Hx].
Qed.

(** C2, at the failing input.  [ViT(image_size=(32, 16), patch_size=16,
    channels=3, dim=4, ...)] stores 2 patch positions.  On a batch at its
    own training resolution, of shape (1, 3, 32, 16), the embedded
    sequence has the stored length 3, yet [interpolate_pos_encoding] does
    not return the stored parameter: the widths 32 and 16 differ, the
    general path is taken, and the reshape of the 2 stored positions to a
    1 x 1 grid raises [RuntimeError], which ends [forward]. *)
Theorem training_resolution_nonsquare_raises :
  forall E rs,
    exists self,
      ViT_init rs args_32x16_16 = Ok self
      /\ shape (pos_embedding self) = [1; 3; 4]
      /\ interpolate_pos_encoding E self (full [1; 3; 4] 0) 32 16
         = Raise RuntimeError
      /\ ViT_forward E rs self (full [1; 3; 32; 16] 0) true PyNone PyNone PyNone
         = Raise RuntimeError.
Proof.
  intros E rs.
  destruct (ViT_init_ok rs _ _ _ _ _ args_32x16_16_valid)
    as (self & Einit & Hwf & _).
  cbn in Hwf.
  assert (Hraise : forall x, shape x = [1; 3; 4] ->
                     interpolate_pos_encoding E self x 32 16 = Raise RuntimeError).
  { intros x Hx.
    apply (interpolate_pos_encoding_nonsquare_count E self x 1 3 3 4 16 16 2 32 16).
    - exact Hwf.
    - lia.
    - cbn. lia.
    - exact Hx.
    - intros [_ H]. discriminate H. }
  exists self. split; [exact Einit|].
  split; [apply (wf_pos _ _ _ _ _ _ Hwf)|].
  split; [apply Hraise; reflexivity|].
  unfold ViT_forward. cbn [shape full].
  destruct (embed_with_cls_shape self (full [1; 3; 32; 16] 0) 1 3 32 16 16 16 4 2
              Hwf ltac:(lia) ltac:(lia) eq_refl eq_refl eq_refl)
    as (x1 & cls & x2 & E1 & E2 & E3 & S2).
  rewrite E1. cbn [bind]. rewrite E2. cbn [bind]. rewrite E3. cbn [bind].
  rewrite (Hraise x2 S2). reflexivity.
Qed.

(** ** C4: the shape of the features and the pooling *)

Lemma TransformerBlock_forward_shape (E : Engine) (rs : RandomState)
      (blk : TransformerBlock) (x : Tensor) (dim b n : nat) :
  wf_Block dim blk -> shape x = [b; n; dim] ->
  exists y, TransformerBlock_forward E rs blk x = Ok y /\ shape y = [b; n; dim].
Proof.
  intros (Hn1 & Hatt & Hmlp & Hn2) Hx. unfold TransformerBlock_forward.
  destruct (LayerNorm_forward_shape _ _ _ _ _ Hn1 Hx) as (x1 & -> & Hx1).
  cbn [bind].
  destruct (Attention_forward_shape rs _ _ _ _ _ Hatt Hx1) as (a & -> & Ha).
  cbn [bind].
  destruct (tensor_add_same_shape x1 a _ Hx1 Ha) as (t & -> & Ht & _).
  cbn [bind].
  destruct (LayerNorm_forward_shape _ _ _ _ _ Hn2 Ht) as (u & -> & Hu).
  cbn [bind].
  destruct (MLP_forward_shape E rs _ _ _ _ _ Hmlp Hu) as (m & -> & Hm).
  cbn [bind].
  destruct (tensor_add_same_shape u m _ Hu Hm) as (y & -> & Hy & _).
  cbn [bind]. exists y. split; [reflexivity | exact Hy].
Qed.

Lemma apply_layers_shape (E : Engine) (rs : RandomState)
      (ls : list TransformerBlock) (x : Tensor) (dim b n : nat) :
  Forall (wf_Block dim) ls -> shape x = [b; n; dim] ->
  exists y, apply_layers E rs ls x = Ok y /\ shape y = [b; n; dim].
Proof.
  intros Hls. revert x. induction Hls as [|blk ls Hblk _ IH]; intros x Hx.
  - exists x. split; [reflexivity | exact Hx].
  - cbn [apply_layers].
    destruct (TransformerBlock_forward_shape E rs blk x dim b n Hblk Hx)
      as (y & -> & Hy).
    cbn [bind]. apply IH. exact Hy.
Qed.

(** [x += pos] for a positional tensor with one batch row. *)
Lemma tensor_iadd_positions (x pos : Tensor) (b n d : nat) :
  shape x = [b; n; d] -> shape pos = [1; n; d] ->
  exists y, tensor_iadd x pos = Ok y /\ shape y = [b; n; d].
Proof.
  intros Hx Hp. unfold tensor_iadd, broadcast_shapes. rewrite Hx, Hp.
  cbn [rev app broadcast_rev]. rewrite !Nat.eqb_refl.
  destruct (Nat.eqb_spec b 1) as [->|Hb].
  - cbn [option_map rev app]. rewrite shape_eqb_refl.
    eexists; split; reflexivity.
  - cbn [Nat.eqb option_map rev app]. rewrite shape_eqb_refl.
    eexists; split; reflexivity.
Qed.

Lemma ViT_forward_pools_final_sequence (E : Engine) (rs : RandomState)
      (self : ViT) (x : Tensor) (norm_flag : bool) (mixup lbda perm : PyVal) :
  ViT_forward E rs self x norm_flag mixup lbda perm
  = (seq <- ViT_final_sequence E rs self x norm_flag ;;
     if pool self then mean_dim1 seq else select_dim1_first seq).
Proof.
  unfold ViT_forward, ViT_final_sequence.
  destruct (shape x) as [|b [|c [|w [|h [|? ?]]]]]; try reflexivity.
  destruct (PatchEmbedding_forward _ _) as [x1|]; [|reflexivity]. cbn [bind].
  destruct (expand_batch _ _) as [cls|]; [|reflexivity]. cbn [bind].
  destruct (cat_dim1 _ _) as [x2|]; [|reflexivity]. cbn [bind].
  destruct (interpolate_pos_encoding _ _ _ _ _) as [pos|]; [|reflexivity].
  cbn [bind].
  destruct (tensor_iadd _ _) as [x3|]; [|reflexivity]. cbn [bind].
  destruct (apply_layers _ _ _ _) as [x4|]; [|reflexivity]. cbn [bind].
  reflexivity.
Qed.

Lemma ViT_final_sequence_shape (E : Engine) (rs : RandomState) (self : ViT)
      (x : Tensor) (norm_flag : bool) (b c H W ph pw dim N : nat) :
  wf_ViT self c dim ph pw N ->
  shape x = [b; c; H; W] ->
  0 < H -> 0 < W -> H mod ph = 0 -> W mod pw = 0 ->
  pos_encoding_fits E self b (1 + (H / ph) * (W / pw)) dim H W ->
  exists seq,
    ViT_final_sequence E rs self x norm_flag = Ok seq
    /\ shape seq = [b; 1 + (H / ph) * (W / pw); dim].
Proof.
  intros Hwf Hx HH HW HmH HmW (pos & Epos & Spos).
  unfold ViT_final_sequence. rewrite Hx.
  destruct (embed_with_cls_shape self x b c H W ph pw dim N
              Hwf HH HW HmH HmW Hx) as (x1 & cls & x2 & E1 & E2 & E3 & S2).
  rewrite E1. cbn [bind]. rewrite E2. cbn [bind]. rewrite E3. cbn [bind].
  rewrite (interpolate_pos_encoding_shape_only E self x2
             (full [b; 1 + H / ph * (W / pw); dim] 0) H W S2), Epos.
  cbn [bind].
  destruct (tensor_iadd_positions x2 pos _ _ _ S2 Spos) as (x3 & -> & S3).
  cbn [bind].
  destruct (apply_layers_shape E rs (layers self)
              (Dropout_forward rs (dropout self) x3) dim b _
              (wf_layers _ _ _ _ _ _ Hwf) S3) as (x4 & -> & S4).
  cbn [bind]. destruct norm_flag.
  - destruct (LayerNorm_forward_shape _ _ _ _ _ (wf_norm _ _ _ _ _ _ Hwf) S4)
      as (x5 & -> & S5).
    exists x5. split; [reflexivity | exact S5].
  - exists x4. split; [reflexivity | exact S4].
Qed.

(** C4 (amended).  For a well-formed instance and an image batch of shape
    (batch, channels, H, W) with H and W positive multiples of the patch
    height and width, for which the positional encoding has as many
    positions as the embedded sequence, [ViT.forward] returns a tensor of
    shape (batch, dim) in both pooling modes: the mean over all sequence
    positions when [pool] is set, the vector at position 0 otherwise. *)
Theorem forward_features_shape_and_pooling :
  forall E rs self x norm_flag mixup lbda perm b c H W ph pw dim N,
    wf_ViT self c dim ph pw N ->
    shape x = [b; c; H; W] ->
    0 < H -> 0 < W -> H mod ph = 0 -> W mod pw = 0 ->
    pos_encoding_fits E self b (1 + (H / ph) * (W / pw)) dim H W ->
    exists seq feat,
      ViT_final_sequence E rs self x norm_flag = Ok seq
      /\ shape seq = [b; 1 + (H / ph) * (W / pw); dim]
      /\ ViT_forward E rs self x norm_flag mixup lbda perm = Ok feat
      /\ shape feat = [b; dim]
      /\ forall i k,
           elem feat [i; k]
           = if pool self
             then (sum_n (1 + (H / ph) * (W / pw)) (fun j => elem seq [i; j; k])
                   / INR (1 + (H / ph) * (W / pw)))%R
             else elem seq [i; 0; k].
Proof.
  intros E rs self x norm_flag mixup lbda perm b c H W ph pw dim N
         Hwf Hx HH HW HmH HmW Hfit.
  destruct (ViT_final_sequence_shape E rs self x norm_flag b c H W ph pw dim N
              Hwf Hx HH HW HmH HmW Hfit) as (seq & Eseq & Sseq).
  rewrite ViT_forward_pools_final_sequence, Eseq. cbn [bind].
  exists seq. unfold mean_dim1, select_dim1_first. rewrite Sseq.
  destruct (pool self); cbn [Nat.add];
    (eexists; split; [reflexivity|]; split; [reflexivity|];
     split; [reflexivity|]; split; [reflexivity|]; intros i k; reflexivity).
Qed.

Lemma forward_features_shape_and_pooling_witness :
  exists self,
    ViT_init quiet_rs (args_32_16 true) = Ok self
    /\ exists seq feat,
         ViT_final_sequence (engine_of 0) quiet_rs self (full [2; 3; 32; 32] 0) true
         = Ok seq
         /\ shape seq = [2; 5; 4]
         /\ ViT_forward (engine_of 0) quiet_rs self (full [2; 3; 32; 32] 0) true
                        PyNone PyNone PyNone = Ok feat
         /\ shape feat = [2; 4]
         /\ forall i k,
              elem feat [i; k]
              = if pool self
                then (sum_n 5 (fun j => elem seq [i; j; k]) / INR 5)%R
                else elem seq [i; 0; k].
Proof.
  destruct (ViT_init_ok quiet_rs _ _ _ _ _ (args_32_16_valid true))
    as (self & Einit & Hwf & _).
  exists self. split; [exact Einit|].
  apply (forward_features_shape_and_pooling (engine_of 0) quiet_rs self
           (full [2; 3; 32; 32] 0) true PyNone PyNone PyNone
           2 3 32 32 16 16 4 4).
  - exact Hwf.
  - reflexivity.
  - lia.
  - lia.
  - reflexivity.
  - reflexivity.
  - exists (pos_embedding self). split.
    + apply (interpolate_pos_encoding_square_training_size (engine_of 0) self
               _ 2 3 4 16 16 4 32); [exact Hwf | reflexivity].
    + apply (wf_pos _ _ _ _ _ _ Hwf).
Defined.

(** C4, as stated, fails: a batch whose height is not a multiple of the
    patch height makes the linear patch embedding raise. *)
Lemma forward_indivisible_input_counterexample :
  exists self,
    ViT_init quiet_rs (args_32_16 false) = Ok self
    /\ ViT_forward (engine_of 0) quiet_rs self (full [1; 3; 40; 40] 0) true
                   PyNone PyNone PyNone
       = Raise EinopsError.
Proof.
  destruct (ViT_init_ok quiet_rs _ _ _ _ _ (args_32_16_valid false))
    as (self & Einit & Hwf & _ & _ & Hlin).
  exists self. split; [exact Einit|].
  pose proof (wf_embedding _ _ _ _ _ _ Hwf) as Hemb.
  unfold ViT_forward. cbn [shape full].
  destruct (patch_to_embedding self) as [ph' pw' lin | conv];
    [|discriminate Hlin].
  destruct Hemb as (-> & -> & _). reflexivity.
Qed.

(** ** The forward pass at another resolution *)

(** When the resize returns the target grid, the interpolated encoding
    has one position per patch of the new grid, plus one. *)
Lemma interpolate_pos_encoding_resized (E : Engine) (self : ViT) (x : Tensor)
      (b n1 c dim ph pw N w h : nat) :
  wf_ViT self c dim ph pw N -> 0 < dim ->
  0 < N -> Nat.sqrt N * Nat.sqrt N = N ->
  shape x = [b; n1; dim] ->
  ~ (n1 = N + 1 /\ w = h) ->
  interp_size E (Nat.sqrt N) (resize_scale (Z.of_nat (h / ph)) N) = Ok (h / ph) ->
  interp_size E (Nat.sqrt N) (resize_scale (Z.of_nat (w / pw)) N) = Ok (w / pw) ->
  exists pos,
    interpolate_pos_encoding E self x w h = Ok pos
    /\ shape pos = [1; 1 + (h / ph) * (w / pw); dim].
Proof.
  intros Hwf Hdim HN Hsq Hx Hgen Hrh Hrw.
  rewrite (interpolate_pos_encoding_general E self x b n1 c dim ph pw N w h
             Hwf Hx Hgen).
  unfold reshape. cbn [shape patch_pos_embed_rows numel].
  replace (1 * (N * (dim * 1)) =? 1 * (Nat.sqrt N * (Nat.sqrt N * (dim * 1))))
    with true by (symmetry; apply Nat.eqb_eq; nia).
  cbn [bind permute_0312 shape].
  rewrite !py_div_ok by (apply sqrt_INR_nonzero; assumption).
  cbn [bind]. unfold interpolate_bicubic. cbn [shape].
  unfold resize_scale in Hrh, Hrw. rewrite Hrh. cbn [bind]. rewrite Hrw.
  cbn [bind shape]. rewrite !Nat.eqb_refl. cbn [andb].
  cbn [permute_0231 shape bind]. unfold view_1_m1. cbn [shape numel].
  destruct (Nat.eqb_spec dim 0) as [?|_]; [lia|].
  replace (1 * (h / ph * (w / pw * (dim * 1)))) with ((h / ph) * (w / pw) * dim)
    by lia.
  rewrite Nat.Div0.mod_mul, Nat.div_mul by lia.
  cbn [Nat.eqb negb orb]. unfold reshape. cbn [shape numel].
  replace (1 * (h / ph * (w / pw * (dim * 1)))
           =? 1 * (h / ph * (w / pw) * (dim * 1)))
    with true by (symmetry; apply Nat.eqb_eq; lia).
  unfold cat_dim1. cbn [bind shape class_pos_embed_row].
  rewrite (Nat.eqb_refl dim). cbn [Nat.eqb andb].
  eexists; split; reflexivity.
Qed.

(** With square patches the interpolated encoding fits the embedded
    sequence of an input at another resolution. *)
Lemma pos_encoding_fits_resized (E : Engine) (self : ViT)
      (b c dim p N H W : nat) :
  wf_ViT self c dim p p N -> 0 < dim ->
  0 < N -> Nat.sqrt N * Nat.sqrt N = N ->
  ~ ((H / p) * (W / p) = N /\ H = W) ->
  interp_size E (Nat.sqrt N) (resize_scale (Z.of_nat (W / p)) N) = Ok (W / p) ->
  interp_size E (Nat.sqrt N) (resize_scale (Z.of_nat (H / p)) N) = Ok (H / p) ->
  pos_encoding_fits E self b (1 + (H / p) * (W / p)) dim H W.
Proof.
  intros Hwf Hdim HN Hsq Hgen Hrh Hrw. unfold pos_encoding_fits.
  destruct (interpolate_pos_encoding_resized E self
              (full [b; 1 + H / p * (W / p); dim] 0)
              b (1 + H / p * (W / p)) c dim p p N H W
              Hwf Hdim HN Hsq eq_refl) as (pos & Epos & Spos);
    try assumption.
  - intros [Hn Hwh]. apply Hgen. split; [lia | assumption].
  - exists pos. split; [exact Epos|]. rewrite Spos.
    f_equal. f_equal. lia.
Qed.

(** * Further properties of the code *)

(** ** Attention: weights, head layout, shapes *)

Lemma sum_n_ge_term (n k : nat) (f : nat -> R) :
  (forall j, j < n -> (0 <= f j)%R) -> k < n -> (f k <= sum_n n f)%R.
Proof.
  induction n as [|n IH]; intros Hf Hk; [lia|]. simpl.
  assert (Hs : (0 <= sum_n n f)%R).
  { clear IH Hk. induction n as [|m IHm]; simpl; [lra|].
    assert (0 <= sum_n m f)%R by (apply IHm; intros; apply Hf; lia).
    specialize (Hf m ltac:(lia)). lra. }
  destruct (Nat.eq_dec k n) as [->|Hne].
  - lra.
  - assert (f k <= sum_n n f)%R by (apply IH; [intros; apply Hf; lia | lia]).
    specialize (Hf n ltac:(lia)). lra.
Qed.

(** X1.  Every attention weight [Attention.forward] computes lies in
    (0, 1]: each output position is a convex combination of the values. *)
Theorem attention_weights_in_unit_interval :
  forall a x p v,
    Attention_weights a x = Ok (p, v) ->
    exists b n,
      shape p = [b; att_heads a; n; n]
      /\ forall ib ih i j,
          j < n -> (0 < elem p [ib; ih; i; j] <= 1)%R.
Proof.
  intros a x p v H.
  destruct (Attention_weights_inv _ _ _ _ H) as (s & b & n & -> & Hs).
  exists b, n. split; [exact Hs|].
  intros ib ih i j Hj. unfold Softmax_forward. cbn [elem shape].
  rewrite Hs. cbn [last removelast app].
  set (f := fun j0 => exp (elem s [ib; ih; i; j0])).
  change (exp (elem s [ib; ih; i; j])) with (f j).
  assert (Hpos : forall k, (0 < f k)%R) by (intros; apply exp_pos).
  assert (Hle : (f j <= sum_n n f)%R).
  { apply sum_n_ge_term; [intros; left; apply Hpos | exact Hj]. }
  specialize (Hpos j). split.
  - apply Rdiv_lt_0_compat; lra.
  - apply Rmult_le_reg_r with (sum_n n f); [lra|].
    unfold Rdiv. rewrite Rmult_assoc, Rinv_l by lra. lra.
Qed.

Lemma attention_weights_in_unit_interval_witness :
  exists p v b n,
    Attention_weights (attention unit_block) (full [2; 3; 1] 5) = Ok (p, v)
    /\ shape p = [b; 1; n; n]
    /\ (0 < elem p [1; 0; 2; 0]%nat <= 1)%R.
Proof.
  destruct (Attention_weights_shape (attention unit_block) (full [2; 3; 1] 5) 1 2 3)
    as (p & v & dh & Ew & Hp & _).
  - exists 1. repeat split; cbn; lia.
  - reflexivity.
  - destruct (attention_weights_in_unit_interval _ _ _ _ Ew) as (b & n & Hs & Hr).
    exists p, v, b, n. split; [exact Ew|]. split; [exact Hs|].
    apply Hr. rewrite Hp in Hs. injection Hs as _ <-. lia.
Defined.

(** X2.  The two rearrangements of [Attention.forward] are inverse to each
    other: splitting the last axis into heads and merging the heads back
    returns every element to its place, and so does merging followed by
    splitting. *)
Theorem split_and_merge_heads_round_trip :
  forall heads dh b n,
    0 < heads ->
    (forall t, shape t = [b; n; dh * heads] ->
       exists y z,
         split_heads heads t = Ok y /\ merge_heads heads y = Ok z
         /\ shape z = [b; n; heads * dh]
         /\ forall ib i j, elem z [ib; i; j] = elem t [ib; i; j])
    /\ (forall t, shape t = [b; heads; n; dh] ->
          exists y z,
            merge_heads heads t = Ok y /\ split_heads heads y = Ok z
            /\ shape z = [b; heads; n; dh]
            /\ forall ib ih i c, c < dh ->
                 elem z [ib; ih; i; c] = elem t [ib; ih; i; c]).
Proof.
  intros heads dh b n Hh. split.
  - intros t Ht.
    destruct (split_heads_shape heads t b n dh Hh Ht) as (y & Ey & Sy).
    exists y. unfold merge_heads. rewrite Sy, Nat.eqb_refl.
    eexists. split; [exact Ey|]. split; [reflexivity|]. split; [reflexivity|].
    intros ib i j. cbn [elem].
    unfold split_heads in Ey. rewrite Ht in Ey.
    destruct (Nat.eqb_spec heads 0) as [?|_]; [lia|].
    rewrite Nat.Div0.mod_mul in Ey. cbn [Nat.eqb negb orb] in Ey.
    rewrite Nat.div_mul in Ey by lia. injection Ey as <-. cbn [elem].
    f_equal. f_equal. f_equal. f_equal.
    pose proof (Nat.div_mod_eq j dh). lia.
  - intros t Ht. unfold merge_heads. rewrite Ht, Nat.eqb_refl.
    eexists. eexists. split; [reflexivity|].
    unfold split_heads. cbn [shape].
    destruct (Nat.eqb_spec heads 0) as [?|_]; [lia|].
    replace (heads * dh) with (dh * heads) by lia.
    rewrite Nat.Div0.mod_mul. cbn [Nat.eqb negb orb].
    rewrite Nat.div_mul by lia.
    split; [reflexivity|]. split; [reflexivity|].
    intros ib ih i c Hc. cbn [elem].
    destruct (div_mod_row_major ih c dh Hc) as [-> ->]. reflexivity.
Qed.

Lemma split_and_merge_heads_round_trip_witness :
  exists y z,
    split_heads 2 (full [1; 3; 4] 7) = Ok y /\ merge_heads 2 y = Ok z
    /\ shape z = [1; 3; 4]
    /\ forall ib i j, elem z [ib; i; j] = elem (full [1; 3; 4] 7) [ib; i; j].
Proof.
  destruct (split_and_merge_heads_round_trip 2 2 1 3) as [Hsm _]; [lia|].
  apply (Hsm (full [1; 3; 4] 7)). reflexivity.
Defined.

Lemma Linear_forward_wrong_width (l : Linear) (x : Tensor) (i o b n d : nat) :
  wf_Linear l i o -> shape x = [b; n; d] -> d <> i ->
  Linear_forward l x = Raise RuntimeError.
Proof.
  unfold wf_Linear, Linear_forward. intros -> -> Hd. cbn [last].
  destruct (Nat.eqb_spec d i); [contradiction | reflexivity].
Qed.

Lemma LayerNorm_forward_wrong_width (l : LayerNorm) (x : Tensor) (w b n d : nat) :
  wf_LayerNorm l w -> shape x = [b; n; d] -> d <> w ->
  LayerNorm_forward l x = Raise RuntimeError.
Proof.
  unfold wf_LayerNorm, LayerNorm_forward. intros -> -> Hd. cbn [last].
  destruct (Nat.eqb_spec d w); [contradiction | reflexivity].
Qed.

(** X3.  [Attention.forward] and [TransformerBlock.forward] keep the
    shape of a (batch, sequence, dim) input, for every batch size and
    sequence length (zero included); on an input whose last axis is not
    [dim] both raise [RuntimeError]. *)
Theorem attention_and_block_shape_contract :
  forall E rs blk x dim b n d,
    wf_Block dim blk -> shape x = [b; n; d] ->
    (d = dim ->
     (exists y, Attention_forward rs (attention blk) x = Ok y
                /\ shape y = [b; n; dim])
     /\ (exists y, TransformerBlock_forward E rs blk x = Ok y
                   /\ shape y = [b; n; dim]))
    /\ (d <> dim ->
        Attention_forward rs (attention blk) x = Raise RuntimeError
        /\ TransformerBlock_forward E rs blk x = Raise RuntimeError).
Proof.
  intros E rs blk x dim b n d Hwf Hx. split.
  - intros ->. split.
    + destruct Hwf as (_ & Hatt & _).
      apply (Attention_forward_shape rs _ _ _ _ _ Hatt Hx).
    + apply (TransformerBlock_forward_shape E rs blk x dim b n Hwf Hx).
  - intros Hd. destruct Hwf as (Hn1 & (dh & _ & _ & Hqkv & _) & _). split.
    + unfold Attention_forward, Attention_weights.
      rewrite (Linear_forward_wrong_width _ _ _ _ _ _ _ Hqkv Hx Hd). reflexivity.
    + unfold TransformerBlock_forward.
      rewrite (LayerNorm_forward_wrong_width _ _ _ _ _ _ Hn1 Hx Hd). reflexivity.
Qed.

Lemma attention_and_block_shape_contract_witness :
  (exists y, TransformerBlock_forward (engine_of 0) quiet_rs unit_block
               (full [4; 0; 1] 0) = Ok y /\ shape y = [4; 0; 1])
  /\ TransformerBlock_forward (engine_of 0) quiet_rs unit_block
       (full [4; 3; 2] 0) = Raise RuntimeError.
Proof.
  split.
  - destruct (attention_and_block_shape_contract (engine_of 0) quiet_rs
                unit_block (full [4; 0; 1] 0) 1 4 0 1 unit_block_wf eq_refl)
      as [Hok _].
    destruct (Hok eq_refl) as [_ Hblk]. exact Hblk.
  - destruct (attention_and_block_shape_contract (engine_of 0) quiet_rs
                unit_block (full [4; 3; 2] 0) 1 4 3 2 unit_block_wf eq_refl)
      as [_ Herr].
    destruct Herr as [_ Hblk]; [lia | exact Hblk].
Defined.

(** ** Transformer block: silent sublayers *)

Lemma LayerNorm_forward_agree (l : LayerNorm) (t t' u u' : Tensor) (b n d : nat) :
  shape t = [b; n; d] -> shape t' = [b; n; d] ->
  (forall idx, in_bounds [b; n; d] idx -> elem t idx = elem t' idx) ->
  LayerNorm_forward l t = Ok u -> LayerNorm_forward l t' = Ok u' ->
  forall idx, in_bounds [b; n; d] idx -> elem u idx = elem u' idx.
Proof.
  intros Ht Ht' Hag. unfold LayerNorm_forward. rewrite Ht, Ht'. cbn [last].
  destruct (shape (ln_weight l)) as [|w [|? ?]]; try discriminate.
  destruct (Nat.eqb_spec d w) as [->|_]; [|discriminate].
  intros [= <-] [= <-] idx Hidx. cbn [elem].
  destruct idx as [|ib [|i [|k [|? ?]]]]; cbn in Hidx; try tauto.
  destruct Hidx as (Hib & Hi & Hk & _).
  cbn [removelast last].
  assert (Hrow : forall j, j < w -> elem t ([ib; i] ++ [j]) = elem t' ([ib; i] ++ [j])).
  { intros j Hj. apply Hag. cbn. tauto. }
  assert (Hm : row_mean t w [ib; i] = row_mean t' w [ib; i]).
  { unfold row_mean. f_equal. apply sum_n_ext. exact Hrow. }
  assert (Hv : row_var t w [ib; i] = row_var t' w [ib; i]).
  { unfold row_var. f_equal. apply sum_n_ext. intros j Hj.
    rewrite Hm, (Hrow j Hj). reflexivity. }
  rewrite Hm, Hv, (Hag [ib; i; k]) by (cbn; tauto). reflexivity.
Qed.

(** X4.  When the attention output projection and the last MLP layer of a
    block have zero weight and zero bias (both sublayers return zero, for
    every dropout draw), [TransformerBlock.forward] returns the twice
    normalized input [norm2(norm1(x))]. *)
Theorem block_with_silent_sublayers :
  forall E rs blk x dim inner hid b n,
    wf_Block dim blk ->
    to_out_linear (attention blk) = zero_linear inner dim 0 ->
    mlp_fc2 (mlp blk) = zero_linear hid dim 0 ->
    shape x = [b; n; dim] ->
    exists x1 u y,
      LayerNorm_forward (norm1 blk) x = Ok x1
      /\ LayerNorm_forward (norm2 blk) x1 = Ok u
      /\ TransformerBlock_forward E rs blk x = Ok y
      /\ shape y = [b; n; dim]
      /\ forall idx, in_bounds [b; n; dim] idx -> elem y idx = elem u idx.
Proof.
  intros E rs blk x dim inner hid b n Hwf Hout Hfc2 Hx.
  pose proof Hwf as (Hn1 & Hatt & (hid' & Hfc1 & Hfc2') & Hn2).
  assert (hid' = hid) as ->.
  { unfold wf_Linear in Hfc2'. rewrite Hfc2 in Hfc2'. cbn in Hfc2'. congruence. }
  destruct (LayerNorm_forward_shape _ _ _ _ _ Hn1 Hx) as (x1 & Ex1 & Hx1).
  destruct (Attention_zero_projection rs _ x1 dim inner b n 0%R Hatt Hout Hx1)
    as (a & Ea & Ha & Va).
  destruct (tensor_add_same_shape x1 a _ Hx1 Ha) as (t & Et & Ht & Vt).
  destruct (LayerNorm_forward_shape _ _ _ _ _ Hn2 Ht) as (ut & Eut & Hut).
  destruct (LayerNorm_forward_shape _ _ _ _ _ Hn2 Hx1) as (u & Eu & Hu).
  destruct (MLP_zero_projection E rs (mlp blk) ut dim hid b n 0%R Hfc1 Hfc2 Hut)
    as (m & Em & Hm & Vm).
  destruct (tensor_add_same_shape ut m _ Hut Hm) as (y & Ey & Hy & Vy).
  exists x1, u, y. split; [exact Ex1|]. split; [exact Eu|].
  unfold TransformerBlock_forward.
  rewrite Ex1. cbn [bind]. rewrite Ea. cbn [bind]. rewrite Et. cbn [bind].
  rewrite Eut. cbn [bind]. rewrite Em. cbn [bind]. rewrite Ey. cbn [bind].
  split; [reflexivity|]. split; [exact Hy|].
  intros idx Hidx. rewrite (Vy idx Hidx), Vm.
  rewrite (LayerNorm_forward_agree (norm2 blk) t x1 ut u b n dim Ht Hx1)
    with (idx := idx); try assumption.
  - lra.
  - intros idx' Hidx'. rewrite (Vt idx' Hidx'), Va. lra.
Qed.

Lemma block_with_silent_sublayers_witness :
  exists x1 u y,
    LayerNorm_forward (norm1 silent_block) (full [1; 3; 2] 5) = Ok x1
    /\ LayerNorm_forward (norm2 silent_block) x1 = Ok u
    /\ TransformerBlock_forward (engine_of 0) quiet_rs silent_block
         (full [1; 3; 2] 5) = Ok y
    /\ shape y = [1; 3; 2]
    /\ forall idx, in_bounds [1; 3; 2] idx -> elem y idx = elem u idx.
Proof.
  apply (block_with_silent_sublayers (engine_of 0) quiet_rs silent_block
           (full [1; 3; 2] 5) 2 2 3 1 3).
  - repeat split.
    + exists 2. repeat split; cbn; lia.
    + exists 3. split; reflexivity.
  - reflexivity.
  - reflexivity.
  - reflexivity.
Defined.

(** ** Patch embedding: indivisible sizes and wrong channel counts *)

Lemma conv_grid_floor (H p : nat) :
  0 < p -> p <= H -> (H - p) / p + 1 = H / p.
Proof.
  intros Hp Hle.
  replace H with ((H - p) + 1 * p) at 2 by lia.
  rewrite Nat.div_add by lia. reflexivity.
Qed.

(** X5.  On an image at least as large as a patch whose height or width
    is not a multiple of the patch size, the two variants part ways: the
    linear embedding raises in its rearrangement, the convolutional one
    drops the incomplete last row or column of patches and returns
    (H // ph) * (W // pw) positions. *)
Theorem patch_embeddings_on_indivisible_size :
  forall lin conv x b c H W ph pw dim,
    0 < ph -> 0 < pw -> ph <= H -> pw <= W ->
    H mod ph <> 0 \/ W mod pw <> 0 ->
    wf_PatchEmbedding (ConvPatches conv) c dim ph pw ->
    shape x = [b; c; H; W] ->
    PatchEmbedding_forward (LinearPatches (Z.of_nat ph) (Z.of_nat pw) lin) x
    = Raise EinopsError
    /\ exists y,
         PatchEmbedding_forward (ConvPatches conv) x = Ok y
         /\ shape y = [b; (H / ph) * (W / pw); dim].
Proof.
  intros lin conv x b c H W ph pw dim Hph Hpw HH HW Hnd (Hw & Hs) Hx. split.
  - unfold PatchEmbedding_forward, Rearrange_patches. rewrite Hx.
    destruct (Z.leb_spec (Z.of_nat ph) 0) as [?|_]; [lia|].
    destruct (Z.leb_spec (Z.of_nat pw) 0) as [?|_]; [lia|].
    cbn [orb]. rewrite !Nat2Z.id.
    destruct (Nat.eqb_spec (H mod ph) 0) as [E1|_];
      destruct (Nat.eqb_spec (W mod pw) 0) as [E2|_];
      try reflexivity.
    destruct Hnd; contradiction.
  - unfold PatchEmbedding_forward, ConvProjection_forward, Conv2d_forward.
    rewrite Hw, Hx, Hs, Nat.eqb_refl.
    destruct (Nat.eqb_spec ph 0) as [?|_]; [lia|].
    destruct (Nat.eqb_spec pw 0) as [?|_]; [lia|].
    destruct (Nat.ltb_spec H ph) as [?|_]; [lia|].
    destruct (Nat.ltb_spec W pw) as [?|_]; [lia|].
    cbn [negb orb bind]. unfold flatten2_transpose12. cbn [shape].
    rewrite !conv_grid_floor by assumption.
    eexists; split; reflexivity.
Qed.

Lemma patch_embeddings_on_indivisible_size_witness :
  PatchEmbedding_forward linear_2x3 (full [2; 3; 5; 6] 1) = Raise EinopsError
  /\ exists y,
       PatchEmbedding_forward conv_2x3 (full [2; 3; 5; 6] 1) = Ok y
       /\ shape y = [2; 4; 4].
Proof.
  apply (patch_embeddings_on_indivisible_size
           (mkLinear (full [4; 18] 1) (Some (full [4] 0)))
           (mkConvProjection
              (mkConv2d (full [4; 3; 2; 3] 1) (full [4] 0) (2, 3)))
           (full [2; 3; 5; 6] 1) 2 3 5 6 2 3 4); try lia.
  - left. cbn. lia.
  - split; reflexivity.
  - reflexivity.
Defined.

(** X6.  [ViT.forward] on a batch with another channel count than the
    configured one raises [RuntimeError], with either projection: the
    convolution rejects the input, the linear layer rejects the flattened
    patches. *)
Theorem forward_wrong_channel_count :
  forall E rs self x norm_flag mixup lbda perm b c c' H W ph pw dim N,
    wf_ViT self c dim ph pw N ->
    shape x = [b; c'; H; W] -> c' <> c ->
    H mod ph = 0 -> W mod pw = 0 ->
    ViT_forward E rs self x norm_flag mixup lbda perm = Raise RuntimeError.
Proof.
  intros E rs self x norm_flag mixup lbda perm b c c' H W ph pw dim N
         Hwf Hx Hc HmH HmW.
  destruct Hwf as [_ _ Hph Hpw Hemb _ _ _ _].
  unfold ViT_forward. rewrite Hx.
  destruct (patch_to_embedding self) as [ph' pw' lin | conv]; cbn in Hemb.
  - destruct Hemb as (-> & -> & Hl). unfold PatchEmbedding_forward.
    destruct (Rearrange_patches_value x b c' H W ph pw Hph Hpw HmH HmW Hx)
      as (r & -> & Hr & _).
    cbn [bind].
    rewrite (Linear_forward_wrong_width lin r _ _ _ _ _ Hl Hr); [reflexivity|].
    intros Heq. apply Hc.
    apply Nat.mul_cancel_l in Heq; [exact Heq | nia].
  - destruct Hemb as (Hw & Hs).
    unfold PatchEmbedding_forward, ConvProjection_forward, Conv2d_forward.
    rewrite Hw, Hx, Hs.
    destruct (Nat.eqb_spec c' c) as [?|_]; [contradiction|]. reflexivity.
Qed.

Lemma forward_wrong_channel_count_witness :
  exists self,
    ViT_init quiet_rs (args_32_16 false) = Ok self
    /\ ViT_forward (engine_of 0) quiet_rs self (full [2; 1; 32; 32] 0) true
         PyNone PyNone PyNone = Raise RuntimeError.
Proof.
  destruct (ViT_init_ok quiet_rs _ _ _ _ _ (args_32_16_valid false))
    as (self & Einit & Hwf & _).
  exists self. split; [exact Einit|].
  apply (forward_wrong_channel_count (engine_of 0) quiet_rs self
           (full [2; 1; 32; 32] 0) true PyNone PyNone PyNone
           2 3 1 32 32 16 16 4 4 Hwf eq_refl); [lia | reflexivity | reflexivity].
Defined.

(** ** The constructor: rejected arguments and what it builds *)

(** X7.  [ViT.__init__] rejects malformed sizes where it first uses them:
    a tuple that does not have exactly two entries fails the unpacking
    with [ValueError]; a list is duplicated by [pair] and fails the floor
    division with [TypeError]; a patch length of 0 fails it with
    [ZeroDivisionError]. *)
Theorem constructor_rejects_malformed_sizes :
  forall rs a,
    (forall l, arg_image_size a = PyTuple l -> List.length l <> 2 ->
               ViT_init rs a = Raise ValueError)
    /\ (forall ih iw l,
           size_arg (arg_image_size a) ih iw ->
           arg_patch_size a = PyTuple l -> List.length l <> 2 ->
           ViT_init rs a = Raise ValueError)
    /\ (forall items ph pw,
           arg_image_size a = PyList items ->
           size_arg (arg_patch_size a) ph pw ->
           ViT_init rs a = Raise TypeError)
    /\ (forall ih iw ph pw,
           size_arg (arg_image_size a) ih iw ->
           size_arg (arg_patch_size a) ph pw ->
           ph = 0%Z \/ pw = 0%Z ->
           ViT_init rs a = Raise ZeroDivisionError).
Proof.
  intros rs a. split; [|split; [|split]].
  - intros l Hl Hlen. unfold ViT_init. rewrite Hl.
    destruct l as [|x [|y [|z l]]]; cbn in Hlen |- *; try reflexivity; lia.
  - intros ih iw l Hi Hl Hlen. unfold ViT_init.
    rewrite (unpack2_pair_size _ _ _ Hi). cbn [bind]. rewrite Hl.
    destruct l as [|x [|y [|z l]]]; cbn in Hlen |- *; try reflexivity; lia.
  - intros items ph pw Hi Hp. unfold ViT_init.
    rewrite Hi, (unpack2_pair_size _ _ _ Hp). reflexivity.
  - intros ih iw ph pw Hi Hp Hz. unfold ViT_init.
    rewrite (unpack2_pair_size _ _ _ Hi), (unpack2_pair_size _ _ _ Hp).
    cbn [bind py_floordiv].
    destruct (Z.eqb_spec ph 0) as [_|Hph]; [reflexivity|].
    destruct (Z.eqb_spec pw 0) as [_|Hpw]; [reflexivity|].
    destruct Hz; contradiction.
Qed.

Lemma constructor_rejects_malformed_sizes_witness :
  ViT_init quiet_rs
    (mkViTArgs (PyTuple [PyInt 32; PyInt 32; PyInt 3]) (PyInt 16) 3 4 1 2 8 2
               false "linear" 0 0 false) = Raise ValueError
  /\ ViT_init quiet_rs
       (mkViTArgs (PyList [PyInt 32; PyInt 32]) (PyInt 16) 3 4 1 2 8 2
                  false "linear" 0 0 false) = Raise TypeError
  /\ ViT_init quiet_rs
       (mkViTArgs (PyInt 32) (PyTuple [PyInt 16; PyInt 0]) 3 4 1 2 8 2
                  false "linear" 0 0 false) = Raise ZeroDivisionError.
Proof.
  split; [|split].
  - destruct (constructor_rejects_malformed_sizes quiet_rs
                (mkViTArgs (PyTuple [PyInt 32; PyInt 32; PyInt 3]) (PyInt 16)
                           3 4 1 2 8 2 false "linear" 0 0 false))
      as (H1 & _).
    apply (H1 [PyInt 32; PyInt 32; PyInt 3]); [reflexivity | cbn; lia].
  - destruct (constructor_rejects_malformed_sizes quiet_rs
                (mkViTArgs (PyList [PyInt 32; PyInt 32]) (PyInt 16)
                           3 4 1 2 8 2 false "linear" 0 0 false))
      as (_ & _ & H3 & _).
    apply (H3 [PyInt 32; PyInt 32] 16%Z 16%Z); [reflexivity|].
    left. split; reflexivity.
  - destruct (constructor_rejects_malformed_sizes quiet_rs
                (mkViTArgs (PyInt 32) (PyTuple [PyInt 16; PyInt 0])
                           3 4 1 2 8 2 false "linear" 0 0 false))
      as (_ & _ & _ & H4).
    apply (H4 32%Z 32%Z 16%Z 0%Z).
    + left. split; reflexivity.
    + right. reflexivity.
    + right. reflexivity.
Defined.

(** With well-formed sizes and a valid embedding dropout the constructor
    reaches the creation of the blocks. *)
Lemma ViT_init_reaches_blocks (rs : RandomState) (a : ViTArgs) (ih iw ph pw : Z) :
  size_arg (arg_image_size a) ih iw ->
  size_arg (arg_patch_size a) ph pw ->
  (0 <= ih)%Z -> (0 <= iw)%Z -> (0 < ph)%Z -> (0 < pw)%Z ->
  (0 <= arg_emb_dropout a <= 1)%R ->
  exists emb pos,
    ViT_init rs a
    = (blocks <- blocks_init rs 0 (arg_depth a) (arg_dim a) (arg_heads a)
                   (arg_dim_head a) (arg_mlp_dim a) (arg_dropout a)
                   (arg_qkv_bias a) ;;
       Ok (mkViT ph pw emb pos (new_param rs 3 [1; 1; arg_dim a])
                 (mkDropout (arg_emb_dropout a) 0) blocks (arg_pool a)
                 (LayerNorm_init (arg_dim a)))).
Proof.
  intros Hi Hp Hih Hiw Hph Hpw Hedr. unfold ViT_init.
  rewrite (unpack2_pair_size _ _ _ Hi), (unpack2_pair_size _ _ _ Hp).
  cbn [bind py_floordiv].
  destruct (Z.eqb_spec ph 0) as [?|_]; [lia|].
  destruct (Z.eqb_spec pw 0) as [?|_]; [lia|].
  cbn [bind py_int].
  assert (Hn : (0 <= ih / ph * (iw / pw))%Z).
  { apply Z.mul_nonneg_nonneg; apply Z.div_pos; lia. }
  assert (Hnn : forall l, Forall (fun z => (0 <= z)%Z) l ->
                          new_param_z rs 0 l = Ok (new_param rs 0 (map Z.to_nat l))
                          /\ new_param_z rs 2 l = Ok (new_param rs 2 (map Z.to_nat l))).
  { intros l Hl. unfold new_param_z.
    replace (forallb (fun z => (0 <=? z)%Z) l) with true; [split; reflexivity|].
    symmetry. apply forallb_forall. intros z Hz.
    rewrite Forall_forall in Hl. apply Z.leb_le. apply Hl. exact Hz. }
  destruct (Hnn [1%Z; (ih / ph * (iw / pw) + 1)%Z; Z.of_nat (arg_dim a)])
    as [_ Hpos].
  { repeat constructor; lia. }
  rewrite (Dropout_init_ok 0 _ Hedr).
  destruct (String.eqb (arg_projection a) "linear").
  - destruct (Hnn [Z.of_nat (arg_dim a); (ph * pw * Z.of_nat (arg_channels a))%Z])
      as [Hw _].
    { repeat constructor; try lia; try (apply Z.mul_nonneg_nonneg; lia). }
    rewrite Hw. cbn [bind]. rewrite Hpos. cbn [bind].
    eexists; eexists; reflexivity.
  - unfold ConvProjection_init.
    destruct (Hnn [Z.of_nat (arg_dim a); Z.of_nat (arg_channels a); ph; pw])
      as [Hw _].
    { repeat constructor; lia. }
    rewrite Hw. cbn [bind]. rewrite Hpos. cbn [bind].
    eexists; eexists; reflexivity.
Qed.

(** X8.  A head width of 0 is rejected only when a block is built: for
    otherwise well-formed arguments with [dim_head = 0] the constructor
    raises [ZeroDivisionError] (from [dim_head ** -0.5]) when [depth] is
    positive, and returns an instance without blocks when [depth] is 0. *)
Theorem constructor_zero_head_width :
  forall rs a ih iw ph pw,
    size_arg (arg_image_size a) ih iw ->
    size_arg (arg_patch_size a) ph pw ->
    (0 <= ih)%Z -> (0 <= iw)%Z -> (0 < ph)%Z -> (0 < pw)%Z ->
    (0 <= arg_emb_dropout a <= 1)%R ->
    arg_dim_head a = 0 ->
    (arg_depth a = 0 -> exists self, ViT_init rs a = Ok self /\ layers self = [])
    /\ (0 < arg_depth a -> ViT_init rs a = Raise ZeroDivisionError).
Proof.
  intros rs a ih iw ph pw Hi Hp Hih Hiw Hph Hpw Hedr Hdh.
  destruct (ViT_init_reaches_blocks rs a ih iw ph pw Hi Hp Hih Hiw Hph Hpw Hedr)
    as (emb & pos & ->).
  split.
  - intros ->. cbn [blocks_init bind]. eexists; split; reflexivity.
  - intros Hd. destruct (arg_depth a) as [|d]; [lia|].
    cbn [blocks_init]. unfold TransformerBlock_init, Attention_init.
    rewrite Hdh. reflexivity.
Qed.

Lemma constructor_zero_head_width_witness :
  (exists self,
      ViT_init quiet_rs
        (mkViTArgs (PyInt 32) (PyInt 16) 3 4 0 2 8 0 false "linear" 0 0 false)
      = Ok self /\ layers self = [])
  /\ ViT_init quiet_rs
       (mkViTArgs (PyInt 32) (PyInt 16) 3 4 2 2 8 0 false "linear" 0 0 false)
     = Raise ZeroDivisionError.
Proof.
  split.
  - destruct (constructor_zero_head_width quiet_rs
                (mkViTArgs (PyInt 32) (PyInt 16) 3 4 0 2 8 0
                           false "linear" 0 0 false) 32 32 16 16) as [H0 _];
      try (left; split; reflexivity); try lia; try (cbn; lra); try reflexivity.
    apply H0. reflexivity.
  - destruct (constructor_zero_head_width quiet_rs
                (mkViTArgs (PyInt 32) (PyInt 16) 3 4 2 2 8 0
                           false "linear" 0 0 false) 32 32 16 16) as [_ H1];
      try (left; split; reflexivity); try lia; try (cbn; lra); try reflexivity.
    apply H1. cbn. lia.
Defined.

Lemma Dropout_init_inv (id : nat) (p : R) (d : Dropout) :
  Dropout_init id p = Ok d -> d = mkDropout p id /\ (0 <= p <= 1)%R.
Proof.
  unfold Dropout_init.
  destruct (Rlt_dec p 0); [discriminate|].
  destruct (Rgt_dec p 1); [discriminate|].
  intros [= <-]. split; [reflexivity | lra].
Qed.

Lemma TransformerBlock_init_inv (rs : RandomState)
      (i dim heads dim_head mlp_dim : nat) (p : R) (qkv_bias : bool)
      (blk : TransformerBlock) :
  TransformerBlock_init rs i dim heads dim_head mlp_dim p qkv_bias = Ok blk ->
  block_as_configured dim heads dim_head mlp_dim qkv_bias blk
  /\ 0 < dim_head /\ (0 <= p <= 1)%R.
Proof.
  unfold TransformerBlock_init, Attention_init. intros H.
  destruct (Nat.eqb_spec dim_head 0) as [|Hdh]; [discriminate|].
  cbn [bind] in H.
  destruct (Dropout_init (1 + 4 * i) p) as [d1|] eqn:E1; [|discriminate].
  destruct (Dropout_init_inv _ _ _ E1) as [_ Hp].
  rewrite !(Dropout_init_ok _ _ Hp) in H. cbn [bind] in H.
  injection H as <-. unfold block_as_configured. cbn.
  repeat split; try lia; try lra.
  - destruct qkv_bias; [discriminate | reflexivity].
  - intros ->. reflexivity.
Qed.

Lemma blocks_init_inv (rs : RandomState) (depth i dim heads dim_head mlp_dim : nat)
      (p : R) (qkv_bias : bool) (bl : list TransformerBlock) :
  blocks_init rs i depth dim heads dim_head mlp_dim p qkv_bias = Ok bl ->
  List.length bl = depth
  /\ Forall (block_as_configured dim heads dim_head mlp_dim qkv_bias) bl.
Proof.
  revert i bl. induction depth as [|depth IH]; intros i bl; cbn [blocks_init].
  - intros [= <-]. split; [reflexivity | constructor].
  - intros H. apply bind_Ok_inv in H. destruct H as (blk & Eblk & H).
    apply bind_Ok_inv in H. destruct H as (rest & Erest & H).
    injection H as <-.
    destruct (IH _ _ Erest) as [Hlen Hall].
    destruct (TransformerBlock_init_inv _ _ _ _ _ _ _ _ _ Eblk) as [Hblk _].
    split; [cbn; lia | constructor; assumption].
Qed.

(** X9.  Whenever [ViT.__init__] returns, the instance holds exactly
    [depth] blocks, each with [heads] heads, scale 1/sqrt(dim_head), one
    query-key-value projection of 3 * heads * dim_head outputs that has a
    bias exactly when [qkv_bias] is set, and an MLP of hidden width
    [mlp_dim]; the patch embedding is the linear one exactly when
    [projection] is the string "linear" (any other string selects the
    convolution); and [pool] is stored as given. *)
Theorem constructor_builds_as_configured :
  forall rs a self,
    ViT_init rs a = Ok self ->
    List.length (layers self) = arg_depth a
    /\ Forall (block_as_configured (arg_dim a) (arg_heads a) (arg_dim_head a)
                 (arg_mlp_dim a) (arg_qkv_bias a)) (layers self)
    /\ (is_linear_projection (patch_to_embedding self) = true
        <-> arg_projection a = "linear"%string)
    /\ pool self = arg_pool a
    /\ shape (cls_token self) = [1; 1; arg_dim a].
Proof.
  intros rs a self H. unfold ViT_init in H.
  apply bind_Ok_inv in H. destruct H as ([imh imw] & _ & H).
  apply bind_Ok_inv in H. destruct H as ([pth ptw] & _ & H).
  apply bind_Ok_inv in H. destruct H as (gh & _ & H).
  apply bind_Ok_inv in H. destruct H as (gw & _ & H).
  apply bind_Ok_inv in H. destruct H as (ph & _ & H).
  apply bind_Ok_inv in H. destruct H as (pw & _ & H).
  apply bind_Ok_inv in H. destruct H as (emb & Eemb & H).
  apply bind_Ok_inv in H. destruct H as (pos & _ & H).
  apply bind_Ok_inv in H. destruct H as (drop & _ & H).
  apply bind_Ok_inv in H. destruct H as (blocks & Eblocks & H).
  injection H as <-. cbn.
  destruct (blocks_init_inv _ _ _ _ _ _ _ _ _ _ Eblocks) as [Hlen Hall].
  split; [exact Hlen|]. split; [exact Hall|]. split; [|split; reflexivity].
  rewrite <- String.eqb_eq.
  destruct (String.eqb (arg_projection a) "linear").
  - apply bind_Ok_inv in Eemb. destruct Eemb as (w & _ & Eemb).
    injection Eemb as <-. cbn. tauto.
  - apply bind_Ok_inv in Eemb. destruct Eemb as (c & _ & Eemb).
    injection Eemb as <-. cbn. split; discriminate.
Qed.

Lemma constructor_builds_as_configured_witness :
  exists self,
    ViT_init quiet_rs (args_32_16 true) = Ok self
    /\ List.length (layers self) = 1
    /\ Forall (block_as_configured 4 2 2 8 false) (layers self)
    /\ (is_linear_projection (patch_to_embedding self) = true
        <-> "linear"%string = "linear"%string)
    /\ pool self = true
    /\ shape (cls_token self) = [1; 1; 4].
Proof.
  destruct (ViT_init_ok quiet_rs _ _ _ _ _ (args_32_16_valid true))
    as (self & Einit & _).
  exists self. split; [exact Einit|].
  apply (constructor_builds_as_configured quiet_rs (args_32_16 true) self Einit).
Defined.

(** ** Positional encoding inside the forward pass *)

(** X10.  On the general path of a well-formed instance two failures come
    before the resize is called, whatever the resize would do: with no
    stored patch position the scale factor divides by [math.sqrt(0)]
    ([ZeroDivisionError]); with a stored patch count that is not a perfect
    square the reshape to a square grid raises [RuntimeError]. *)
Theorem interpolate_pos_encoding_fails_before_resize :
  forall E self x b n1 c dim ph pw N w h,
    wf_ViT self c dim ph pw N -> 0 < dim ->
    shape x = [b; n1; dim] ->
    ~ (n1 = N + 1 /\ w = h) ->
    (N = 0 -> interpolate_pos_encoding E self x w h = Raise ZeroDivisionError)
    /\ (Nat.sqrt N * Nat.sqrt N <> N ->
        interpolate_pos_encoding E self x w h = Raise RuntimeError).
Proof.
  intros E self x b n1 c dim ph pw N w h Hwf Hdim Hx Hgen. split.
  - intros ->.
    apply (interpolate_pos_encoding_zero_count E self x b n1 c dim ph pw w h
             Hwf Hx Hgen).
  - intros Hsq.
    apply (interpolate_pos_encoding_nonsquare_count E self x b n1 c dim ph pw N w h
             Hwf Hdim Hsq Hx Hgen).
Qed.

Lemma interpolate_pos_encoding_fails_before_resize_witness :
  exists self,
    ViT_init quiet_rs args_32x16_16 = Ok self
    /\ interpolate_pos_encoding (engine_of 5) self (full [1; 17; 4] 0) 64 64
       = Raise RuntimeError.
Proof.
  destruct (ViT_init_ok quiet_rs _ _ _ _ _ args_32x16_16_valid)
    as (self & Einit & Hwf & _).
  exists self. split; [exact Einit|].
  destruct (interpolate_pos_encoding_fails_before_resize (engine_of 5) self
              (full [1; 17; 4] 0) 1 17 3 4 16 16 2 64 64 Hwf)
    as [_ Hns]; [lia | reflexivity | lia |].
  apply Hns. cbn. lia.
Defined.

(** X11.  On a square input whose patch count equals the stored one,
    [ViT.forward] adds the stored positional parameter itself (the fast
    path of [interpolate_pos_encoding]) and returns features of shape
    (batch, dim). *)
Theorem forward_square_input_uses_stored_positions :
  forall E rs self x norm_flag mixup lbda perm b c S ph pw dim N,
    wf_ViT self c dim ph pw N ->
    shape x = [b; c; S; S] ->
    0 < S -> S mod ph = 0 -> S mod pw = 0 ->
    (S / ph) * (S / pw) = N ->
    exists x1 cls x2 feat,
      PatchEmbedding_forward (patch_to_embedding self) x = Ok x1
      /\ expand_batch (cls_token self) b = Ok cls
      /\ cat_dim1 cls x1 = Ok x2
      /\ interpolate_pos_encoding E self x2 S S = Ok (pos_embedding self)
      /\ ViT_forward E rs self x norm_flag mixup lbda perm = Ok feat
      /\ shape feat = [b; dim].
Proof.
  intros E rs self x norm_flag mixup lbda perm b c S ph pw dim N
         Hwf Hx HS Hmh Hmw HN.
  destruct (embed_with_cls_shape self x b c S S ph pw dim N Hwf HS HS Hmh Hmw Hx)
    as (x1 & cls & x2 & E1 & E2 & E3 & S2).
  pose proof (wf_pos _ _ _ _ _ _ Hwf) as Hpos.
  assert (Hfast : forall t, shape t = [b; 1 + S / ph * (S / pw); dim] ->
                    interpolate_pos_encoding E self t S S = Ok (pos_embedding self)).
  { intros t Ht.
    apply (interpolate_pos_encoding_fast_path E self t b (N + 1) dim 1 dim S Hpos).
    rewrite Ht, HN. f_equal. f_equal. lia. }
  assert (Hfit : pos_encoding_fits E self b (1 + S / ph * (S / pw)) dim S S).
  { exists (pos_embedding self). split; [apply Hfast; reflexivity|].
    rewrite Hpos, HN. f_equal. f_equal. lia. }
  destruct (ViT_final_sequence_shape E rs self x norm_flag b c S S ph pw dim N
              Hwf Hx HS HS Hmh Hmw Hfit) as (seq & Eseq & Sseq).
  exists x1, cls, x2.
  assert (Hfeat : exists feat,
             ViT_forward E rs self x norm_flag mixup lbda perm = Ok feat
             /\ shape feat = [b; dim]).
  { rewrite ViT_forward_pools_final_sequence, Eseq. cbn [bind].
    unfold mean_dim1, select_dim1_first. rewrite Sseq.
    destruct (pool self); cbn [Nat.add]; eexists; split; reflexivity. }
  destruct Hfeat as (feat & Efeat & Sfeat).
  exists feat. repeat (split; [assumption|]).
  split; [apply Hfast; exact S2|]. split; assumption.
Qed.

Lemma forward_square_input_uses_stored_positions_witness :
  exists self x1 cls x2 feat,
    ViT_init quiet_rs (args_32_16 false) = Ok self
    /\ PatchEmbedding_forward (patch_to_embedding self) (full [3; 3; 32; 32] 0) = Ok x1
    /\ expand_batch (cls_token self) 3 = Ok cls
    /\ cat_dim1 cls x1 = Ok x2
    /\ interpolate_pos_encoding (engine_of 0) self x2 32 32 = Ok (pos_embedding self)
    /\ ViT_forward (engine_of 0) quiet_rs self (full [3; 3; 32; 32] 0) false
         PyNone PyNone PyNone = Ok feat
    /\ shape feat = [3; 4].
Proof.
  destruct (ViT_init_ok quiet_rs _ _ _ _ _ (args_32_16_valid false))
    as (self & Einit & Hwf & _).
  destruct (forward_square_input_uses_stored_positions (engine_of 0) quiet_rs self
              (full [3; 3; 32; 32] 0) false PyNone PyNone PyNone
              3 3 32 16 16 4 4 Hwf eq_refl)
    as (x1 & cls & x2 & feat & H); try lia; try reflexivity.
  exists self, x1, cls, x2, feat. split; [exact Einit | exact H].
Defined.

(** X12.  With square patches, a stored grid of a positive perfect-square
    number of positions and a resize that returns the target grid,
    [ViT.forward] accepts a batch at another resolution (height and width
    positive multiples of the patch length) and returns features of shape
    (batch, dim). *)
Theorem forward_at_another_resolution :
  forall E rs self x norm_flag mixup lbda perm b c H W p dim N,
    wf_ViT self c dim p p N -> 0 < dim ->
    0 < N -> Nat.sqrt N * Nat.sqrt N = N ->
    shape x = [b; c; H; W] ->
    0 < H -> 0 < W -> H mod p = 0 -> W mod p = 0 ->
    ~ ((H / p) * (W / p) = N /\ H = W) ->
    interp_size E (Nat.sqrt N) (resize_scale (Z.of_nat (W / p)) N) = Ok (W / p) ->
    interp_size E (Nat.sqrt N) (resize_scale (Z.of_nat (H / p)) N) = Ok (H / p) ->
    exists feat,
      ViT_forward E rs self x norm_flag mixup lbda perm = Ok feat
      /\ shape feat = [b; dim].
Proof.
  intros E rs self x norm_flag mixup lbda perm b c H W p dim N
         Hwf Hdim HN Hsq Hx HH HW HmH HmW Hgen Hrh Hrw.
  pose proof (pos_encoding_fits_resized E self b c dim p N H W
                Hwf Hdim HN Hsq Hgen Hrh Hrw) as Hfit.
  destruct (ViT_final_sequence_shape E rs self x norm_flag b c H W p p dim N
              Hwf Hx HH HW HmH HmW Hfit) as (seq & Eseq & Sseq).
  rewrite ViT_forward_pools_final_sequence, Eseq. cbn [bind].
  unfold mean_dim1, select_dim1_first. rewrite Sseq.
  destruct (pool self); cbn [Nat.add]; eexists; split; reflexivity.
Qed.

Lemma forward_at_another_resolution_witness :
  exists self feat,
    ViT_init quiet_rs (args_32_16 true) = Ok self
    /\ ViT_forward (engine_of 3) quiet_rs self (full [2; 3; 48; 48] 0) true
         PyNone PyNone PyNone = Ok feat
    /\ shape feat = [2; 4].
Proof.
  destruct (ViT_init_ok quiet_rs _ _ _ _ _ (args_32_16_valid true))
    as (self & Einit & Hwf & _).
  destruct (forward_at_another_resolution (engine_of 3) quiet_rs self
              (full [2; 3; 48; 48] 0) true PyNone PyNone PyNone
              2 3 48 48 16 4 4 Hwf) as (feat & Efeat & Sfeat);
    try (cbn; lia); try reflexivity.
  exists self, feat. split; [exact Einit|]. split; assumption.
Defined.

(** ** Initialization *)

(** X13.  With a monotone [erf], [_init_weights] raises on no module; on
    an [nn.Linear] it leaves the shapes of weight and bias as they are,
    puts every weight entry inside [-2, 2] and every bias entry at 0, and
    the truncated normal initializer it calls emits no warning. *)
Theorem init_weights_total_and_bounded :
  forall E rs,
    (forall u v, (u <= v)%R -> (erf E u <= erf E v)%R) ->
    (forall m, exists m', _init_weights E rs m = Ok m')
    /\ (forall l,
           exists w,
             _init_weights E rs (ModLinear l)
             = Ok (ModLinear (mkLinear w (option_map (fun b => full (shape b) 0)
                                                     (lin_bias l))))
             /\ trunc_normal_ E rs (lin_weight l) 0 (2 / 100) (-2) 2 = Ok (w, false)
             /\ shape w = shape (lin_weight l)
             /\ forall idx, (-2 <= elem w idx <= 2)%R).
Proof.
  intros E rs Hmono.
  assert (Hlin : forall l,
             exists w,
               _init_weights E rs (ModLinear l)
               = Ok (ModLinear (mkLinear w (option_map (fun b => full (shape b) 0)
                                                       (lin_bias l))))
               /\ trunc_normal_ E rs (lin_weight l) 0 (2 / 100) (-2) 2 = Ok (w, false)
               /\ shape w = shape (lin_weight l)
               /\ forall idx, (-2 <= elem w idx <= 2)%R).
  { intros l. unfold _init_weights, trunc_normal_, _no_grad_trunc_normal_, py_div.
    destruct (Req_dec_T (2 / 100) 0) as [H0|_]; [lra|]. cbn [bind].
    unfold uniform_.
    assert (Hq : ((-2 - 0) / (2 / 100) <= (2 - 0) / (2 / 100))%R).
    { unfold Rdiv. apply Rmult_le_compat_r; [|lra].
      left. apply Rinv_0_lt_compat. lra. }
    pose proof (norm_cdf_monotone E _ _ Hmono Hq) as Hlu.
    destruct (Rle_dec _ _) as [_|Hn]; [|exfalso; apply Hn; lra].
    cbn [bind].
    assert (Hw : trunc_normal_warns 0 (2 / 100) (-2) 2 = false).
    { unfold trunc_normal_warns.
      destruct (Rlt_dec 0 (-2 - 2 * (2 / 100))); [lra|].
      destruct (Rgt_dec 0 (2 + 2 * (2 / 100))); [lra | reflexivity]. }
    rewrite Hw.
    eexists. split.
    - destruct (lin_bias l); reflexivity.
    - split; [reflexivity|]. split; [reflexivity|].
      intros idx. cbn. apply clamp_value_in_range. lra. }
  split; [|exact Hlin].
  intros m. destruct m; try (eexists; reflexivity).
  destruct (Hlin m) as (w & Ew & _). eexists. exact Ew.
Qed.

Lemma init_weights_total_and_bounded_witness :
  exists w,
    _init_weights (engine_of 0) quiet_rs (ModLinear (zero_linear 3 2 7))
    = Ok (ModLinear (mkLinear w (Some (full [2] 0))))
    /\ shape w = [2; 3]
    /\ forall idx, (-2 <= elem w idx <= 2)%R.
Proof.
  destruct (init_weights_total_and_bounded (engine_of 0) quiet_rs) as [_ Hlin].
  - intros u v Huv. exact Huv.
  - destruct (Hlin (zero_linear 3 2 7)) as (w & Ew & _ & Sw & Bw).
    exists w. split; [exact Ew|]. split; [exact Sw | exact Bw].
Defined.

(** X14.  Initialization overwrites: the result of [trunc_normal_]
    depends on the tensor only through its shape, and the result of
    [_init_weights] on a linear layer only through the shapes of its
    weight and bias; the values held before have no influence. *)
Theorem initialization_discards_previous_values :
  forall E rs,
    (forall t t' mean std a b,
        shape t = shape t' ->
        trunc_normal_ E rs t mean std a b = trunc_normal_ E rs t' mean std a b)
    /\ (forall l l',
           shape (lin_weight l) = shape (lin_weight l') ->
           option_map shape (lin_bias l) = option_map shape (lin_bias l') ->
           _init_weights E rs (ModLinear l) = _init_weights E rs (ModLinear l')).
Proof.
  intros E rs.
  assert (Htn : forall t t' mean std a b,
             shape t = shape t' ->
             trunc_normal_ E rs t mean std a b = trunc_normal_ E rs t' mean std a b).
  { intros t t' mean std a b Hs.
    unfold trunc_normal_, _no_grad_trunc_normal_, uniform_. rewrite Hs.
    reflexivity. }
  split; [exact Htn|].
  intros l l' Hw Hb. unfold _init_weights. rewrite (Htn _ _ _ _ _ _ Hw).
  destruct (lin_bias l) as [b|], (lin_bias l') as [b'|]; cbn in Hb;
    try discriminate; try reflexivity.
  injection Hb as Hb. unfold constant_. rewrite Hb. reflexivity.
Qed.

Lemma initialization_discards_previous_values_witness :
  _init_weights (engine_of 0) quiet_rs (ModLinear (zero_linear 3 2 7))
  = _init_weights (engine_of 0) quiet_rs (ModLinear (zero_linear 3 2 1)).
Proof.
  destruct (initialization_discards_previous_values (engine_of 0) quiet_rs)
    as [_ Hl].
  apply Hl; reflexivity.
Defined.




(** ** Batch elements do not interact *)

Lemma result_rel_bind {A B : Type} (R : A -> A -> Prop) (S : B -> B -> Prop)
      (m m' : result A) (k k' : A -> result B) :
  result_rel R m m' ->
  (forall a a', R a a' -> result_rel S (k a) (k' a')) ->
  result_rel S (bind m k) (bind m' k').
Proof.
  destruct m as [a|e], m' as [a'|e']; cbn; try tauto.
  intros Hr Hk. apply Hk. exact Hr.
Qed.

Lemma result_rel_raise {A : Type} (R : A -> A -> Prop) (e : exn) :
  result_rel R (Raise e) (Raise e).
Proof. reflexivity. Qed.

Lemma same3_refl (ib : nat) (x : Tensor) (b n d : nat) :
  shape x = [b; n; d] -> ib < b -> same3 ib x x.
Proof. intros Hs Hib. split; [reflexivity|]. split; [eauto | reflexivity]. Qed.

Lemma Linear_forward_same (l : Linear) (ib : nat) (x x' : Tensor) :
  same3 ib x x' ->
  result_rel (same3 ib) (Linear_forward l x) (Linear_forward l x').
Proof.
  intros (Hs & (b & n & d & Hx & Hib) & Hag).
  unfold Linear_forward. rewrite <- Hs, Hx. cbn [last removelast app].
  destruct (shape (lin_weight l)) as [|o [|i [|? ?]]]; try apply result_rel_raise.
  destruct (d =? i); [|apply result_rel_raise].
  cbn [result_rel]. split; [reflexivity|]. split; [cbn; eauto|].
  intros j k. cbn [elem removelast last app]. f_equal.
  apply sum_n_ext. intros c _. rewrite Hag. reflexivity.
Qed.

Lemma LayerNorm_forward_same (l : LayerNorm) (ib : nat) (x x' : Tensor) :
  same3 ib x x' ->
  result_rel (same3 ib) (LayerNorm_forward l x) (LayerNorm_forward l x').
Proof.
  intros (Hs & (b & n & d & Hx & Hib) & Hag).
  unfold LayerNorm_forward. rewrite <- Hs, Hx. cbn [last].
  destruct (shape (ln_weight l)) as [|w [|? ?]]; try apply result_rel_raise.
  destruct (d =? w); [|apply result_rel_raise].
  cbn [result_rel]. split; [cbn; congruence|]. split; [cbn; eauto|].
  intros i k. cbn [elem removelast last].
  assert (Hm : row_mean x w [ib; i] = row_mean x' w [ib; i]).
  { unfold row_mean. f_equal. apply sum_n_ext. intros j _. apply Hag. }
  assert (Hv : row_var x w [ib; i] = row_var x' w [ib; i]).
  { unfold row_var. f_equal. apply sum_n_ext. intros j _.
    rewrite Hm. cbn [app]. rewrite Hag. reflexivity. }
  rewrite Hm, Hv, Hag. reflexivity.
Qed.

Lemma Dropout_forward_same3 (rs : RandomState) (m : Dropout) (ib : nat)
      (x x' : Tensor) :
  same3 ib x x' ->
  same3 ib (Dropout_forward rs m x) (Dropout_forward rs m x').
Proof.
  intros (Hs & Hb & Hag). split; [exact Hs|]. split; [exact Hb|].
  intros i k. cbn. rewrite Hag. reflexivity.
Qed.

Lemma Dropout_forward_same4 (rs : RandomState) (m : Dropout) (ib : nat)
      (x x' : Tensor) :
  same4 ib x x' ->
  same4 ib (Dropout_forward rs m x) (Dropout_forward rs m x').
Proof.
  intros (Hs & Hb & Hag). split; [exact Hs|]. split; [exact Hb|].
  intros c i k. cbn. rewrite Hag. reflexivity.
Qed.

Lemma tensor_map_same3 (f : R -> R) (ib : nat) (x x' : Tensor) :
  same3 ib x x' -> same3 ib (tensor_map f x) (tensor_map f x').
Proof.
  intros (Hs & Hb & Hag). split; [exact Hs|]. split; [exact Hb|].
  intros i k. cbn. rewrite Hag. reflexivity.
Qed.

Lemma tensor_map_same4 (f : R -> R) (ib : nat) (x x' : Tensor) :
  same4 ib x x' -> same4 ib (tensor_map f x) (tensor_map f x').
Proof.
  intros (Hs & Hb & Hag). split; [exact Hs|]. split; [exact Hb|].
  intros c i k. cbn. rewrite Hag. reflexivity.
Qed.

Lemma Softmax_forward_same4 (ib : nat) (x x' : Tensor) :
  same4 ib x x' -> same4 ib (Softmax_forward x) (Softmax_forward x').
Proof.
  intros (Hs & Hb & Hag). split; [exact Hs|]. split; [exact Hb|].
  intros c i k. unfold Softmax_forward. cbn [elem shape removelast].
  rewrite <- Hs, Hag. f_equal. apply sum_n_ext. intros j _.
  cbn [app]. rewrite Hag. reflexivity.
Qed.

Lemma slice_last_same (ib off len : nat) (x x' : Tensor) :
  same3 ib x x' -> same3 ib (slice_last x off len) (slice_last x' off len).
Proof.
  intros (Hs & (b & n & d & Hx & Hib) & Hag).
  unfold slice_last. split; [cbn; congruence|].
  split; [cbn; rewrite Hx; cbn; eauto|].
  intros i k. cbn [elem removelast last app]. apply Hag.
Qed.

Lemma chunk3_same (ib : nat) (x x' : Tensor) :
  same3 ib x x' ->
  result_rel (Forall2 (same3 ib)) (chunk3 x) (chunk3 x').
Proof.
  intros Hsame. pose proof Hsame as (Hs & (b & n & d & Hx & Hib) & Hag).
  unfold chunk3. rewrite <- Hs, Hx. cbn [last].
  destruct (d =? 0); cbn [result_rel].
  - pose proof (slice_last_same ib 0 0 x x' Hsame) as H0.
    constructor; [exact H0|]. constructor; [exact H0|].
    constructor; [exact H0 | constructor].
  - match goal with
    | |- Forall2 _ (map _ ?pieces) _ => induction pieces as [|i l IH]
    end.
    + constructor.
    + cbn [map]. constructor; [apply slice_last_same; exact Hsame | exact IH].
Qed.

Lemma unpack3_map_same (R S : Tensor -> Tensor -> Prop)
      (f : Tensor -> result Tensor) (l l' : list Tensor) :
  Forall2 R l l' ->
  (forall a a', R a a' -> result_rel S (f a) (f a')) ->
  result_rel (same_qkv S) (unpack3_map f l) (unpack3_map f l').
Proof.
  intros Hl Hf.
  destruct Hl as [|a a' l l' Ha Hl]; [reflexivity|].
  destruct Hl as [|b b' l l' Hb Hl].
  { cbn [unpack3_map]. apply (result_rel_bind S); [apply Hf; exact Ha|].
    intros; reflexivity. }
  destruct Hl as [|c c' l l' Hc Hl].
  { cbn [unpack3_map]. apply (result_rel_bind S); [apply Hf; exact Ha|].
    intros _ _ _. apply (result_rel_bind S); [apply Hf; exact Hb|].
    intros; reflexivity. }
  destruct Hl as [|d d' l l' Hd Hl].
  { cbn [unpack3_map]. apply (result_rel_bind S); [apply Hf; exact Ha|].
    intros q q' Hq. apply (result_rel_bind S); [apply Hf; exact Hb|].
    intros k k' Hk. apply (result_rel_bind S); [apply Hf; exact Hc|].
    intros v v' Hv. cbn. repeat split; assumption. }
  cbn [unpack3_map]. apply (result_rel_bind S); [apply Hf; exact Ha|].
  intros _ _ _. apply (result_rel_bind S); [apply Hf; exact Hb|].
  intros _ _ _. apply (result_rel_bind S); [apply Hf; exact Hc|].
  intros _ _ _. apply (result_rel_bind S); [apply Hf; exact Hd|].
  intros; reflexivity.
Qed.

Lemma split_heads_same (heads ib : nat) (x x' : Tensor) :
  same3 ib x x' ->
  result_rel (same4 ib) (split_heads heads x) (split_heads heads x').
Proof.
  intros (Hs & (b & n & d & Hx & Hib) & Hag).
  unfold split_heads. rewrite <- Hs, Hx.
  destruct ((heads =? 0) || negb (d mod heads =? 0)); [reflexivity|].
  cbn [result_rel]. split; [reflexivity|]. split; [cbn; repeat eexists; exact Hib|].
  intros c i k. cbn [elem]. apply Hag.
Qed.

Lemma merge_heads_same (heads ib : nat) (x x' : Tensor) :
  same4 ib x x' ->
  result_rel (same3 ib) (merge_heads heads x) (merge_heads heads x').
Proof.
  intros (Hs & (b & h & n & d & Hx & Hib) & Hag).
  unfold merge_heads. rewrite <- Hs, Hx.
  destruct (h =? heads); [|reflexivity].
  cbn [result_rel]. split; [reflexivity|]. split; [cbn; repeat eexists; exact Hib|].
  intros i k. cbn [elem]. apply Hag.
Qed.

Lemma einsum_qk_same (ib : nat) (q q' k k' : Tensor) :
  same4 ib q q' -> same4 ib k k' ->
  result_rel (same4 ib) (einsum_qk q k) (einsum_qk q' k').
Proof.
  intros (Hs & (b & h & n & d & Hx & Hib) & Hag)
         (Hs' & (b' & h' & m & d' & Hx' & _) & Hag').
  unfold einsum_qk. rewrite <- Hs, <- Hs', Hx, Hx'.
  destruct ((b =? b') && (h =? h') && (d =? d')); [|reflexivity].
  cbn [result_rel]. split; [reflexivity|]. split; [cbn; repeat eexists; exact Hib|].
  intros c i j. cbn [elem]. apply sum_n_ext. intros e _.
  rewrite Hag, Hag'. reflexivity.
Qed.

Lemma einsum_av_same (ib : nat) (p p' v v' : Tensor) :
  same4 ib p p' -> same4 ib v v' ->
  result_rel (same4 ib) (einsum_av p v) (einsum_av p' v').
Proof.
  intros (Hs & (b & h & n & m & Hx & Hib) & Hag)
         (Hs' & (b' & h' & m' & d & Hx' & _) & Hag').
  unfold einsum_av. rewrite <- Hs, <- Hs', Hx, Hx'.
  destruct ((b =? b') && (h =? h') && (m =? m')); [|reflexivity].
  cbn [result_rel]. split; [reflexivity|]. split; [cbn; repeat eexists; exact Hib|].
  intros c i j. cbn [elem]. apply sum_n_ext. intros e _.
  rewrite Hag, Hag'. reflexivity.
Qed.

Lemma Attention_forward_same (rs : RandomState) (a : Attention) (ib : nat)
      (x x' : Tensor) :
  same3 ib x x' ->
  result_rel (same3 ib) (Attention_forward rs a x) (Attention_forward rs a x').
Proof.
  intros Hx. unfold Attention_forward, Attention_weights.
  apply (result_rel_bind (fun p p' => same4 ib (fst p) (fst p')
                                      /\ same4 ib (snd p) (snd p'))).
  - apply (result_rel_bind (same3 ib)); [apply Linear_forward_same; exact Hx|].
    intros y y' Hy.
    apply (result_rel_bind (Forall2 (same3 ib))); [apply chunk3_same; exact Hy|].
    intros l l' Hl.
    apply (result_rel_bind (same_qkv (same4 ib))).
    { apply (unpack3_map_same (same3 ib)); [exact Hl|].
      intros t t' Ht. apply split_heads_same. exact Ht. }
    intros [[q k] v] [[q' k'] v'] (Hq & Hk & Hv). cbn in Hq, Hk, Hv.
    apply (result_rel_bind (same4 ib)); [apply einsum_qk_same; assumption|].
    intros s s' Hsc. cbn [result_rel fst snd]. split; [|exact Hv].
    apply Softmax_forward_same4. apply tensor_map_same4. exact Hsc.
  - intros [p v] [p' v'] [Hp Hv]. cbn in Hp, Hv.
    apply (result_rel_bind (same4 ib)).
    { apply einsum_av_same; [apply Dropout_forward_same4; exact Hp | exact Hv]. }
    intros o o' Ho.
    apply (result_rel_bind (same3 ib)); [apply merge_heads_same; exact Ho|].
    intros u u' Hu.
    apply (result_rel_bind (same3 ib)); [apply Linear_forward_same; exact Hu|].
    intros w w' Hw. cbn [result_rel]. apply Dropout_forward_same3. exact Hw.
Qed.

Lemma broadcast_shapes_rank3 (b n d b' n' d' : nat) (s : list nat) :
  broadcast_shapes [b; n; d] [b'; n'; d'] = Some s ->
  exists B N D, s = [B; N; D] /\ (B = b \/ B = b').
Proof.
  unfold broadcast_shapes. cbn [rev app broadcast_rev].
  repeat match goal with
         | |- context [if ?c then _ else _] => destruct c
         end;
    cbn [option_map rev app]; intros H; try discriminate;
    injection H as <-; eauto 8.
Qed.

Lemma bidx_rank3 (b n d ib i k : nat) :
  ib < b -> exists i' k', bidx [b; n; d] [ib; i; k] = [ib; i'; k'].
Proof.
  intros Hib. unfold bidx. cbn [rev app bidx_rev].
  destruct (Nat.eqb_spec b 1) as [->|_].
  - replace ib with 0 by lia. eauto.
  - eauto.
Qed.

Lemma tensor_add_same (ib : nat) (x x' a a' : Tensor) :
  same3 ib x x' -> same3 ib a a' ->
  result_rel (same3 ib) (tensor_add x a) (tensor_add x' a').
Proof.
  intros (Hs & (b & n & d & Hx & Hib) & Hag)
         (Hs' & (b' & n' & d' & Ha & Hib') & Hag').
  unfold tensor_add. rewrite <- Hs, <- Hs', Hx, Ha.
  destruct (broadcast_shapes [b; n; d] [b'; n'; d']) as [s|] eqn:Eb;
    [|reflexivity].
  destruct (broadcast_shapes_rank3 _ _ _ _ _ _ _ Eb) as (B & N & D & -> & HB).
  cbn [result_rel]. split; [reflexivity|]. split.
  - cbn. exists B, N, D. split; [reflexivity|]. destruct HB; lia.
  - intros i k. cbn [elem].
    destruct (bidx_rank3 b n d ib i k Hib) as (i1 & k1 & ->).
    destruct (bidx_rank3 b' n' d' ib i k Hib') as (i2 & k2 & ->).
    rewrite Hag, Hag'. reflexivity.
Qed.

(** In [x += pos] only [x] varies. *)
Lemma tensor_iadd_same (ib : nat) (x x' pos : Tensor) :
  same3 ib x x' ->
  result_rel (same3 ib) (tensor_iadd x pos) (tensor_iadd x' pos).
Proof.
  intros (Hs & (b & n & d & Hx & Hib) & Hag).
  unfold tensor_iadd. rewrite <- Hs, Hx.
  destruct (broadcast_shapes [b; n; d] (shape pos)) as [s|]; [|reflexivity].
  destruct (shape_eqb s [b; n; d]) eqn:Es; [|reflexivity].
  apply shape_eqb_eq in Es. subst s.
  cbn [result_rel]. split; [reflexivity|]. split.
  - cbn. eauto.
  - intros i k. cbn [elem].
    destruct (bidx_rank3 b n d ib i k Hib) as (i1 & k1 & ->).
    rewrite Hag. reflexivity.
Qed.

Lemma MLP_forward_same (E : Engine) (rs : RandomState) (m : MLP) (ib : nat)
      (x x' : Tensor) :
  same3 ib x x' ->
  result_rel (same3 ib) (MLP_forward E rs m x) (MLP_forward E rs m x').
Proof.
  intros Hx. unfold MLP_forward.
  apply (result_rel_bind (same3 ib)); [apply Linear_forward_same; exact Hx|].
  intros y y' Hy.
  apply (result_rel_bind (same3 ib)).
  { apply Linear_forward_same. unfold GELU_forward.
    apply tensor_map_same3. apply Dropout_forward_same3. exact Hy. }
  intros z z' Hz. cbn [result_rel]. apply Dropout_forward_same3. exact Hz.
Qed.

Lemma TransformerBlock_forward_same (E : Engine) (rs : RandomState)
      (blk : TransformerBlock) (ib : nat) (x x' : Tensor) :
  same3 ib x x' ->
  result_rel (same3 ib) (TransformerBlock_forward E rs blk x)
             (TransformerBlock_forward E rs blk x').
Proof.
  intros Hx. unfold TransformerBlock_forward.
  apply (result_rel_bind (same3 ib)); [apply LayerNorm_forward_same; exact Hx|].
  intros x1 x1' H1.
  apply (result_rel_bind (same3 ib)); [apply Attention_forward_same; exact H1|].
  intros a a' Ha.
  apply (result_rel_bind (same3 ib)); [apply tensor_add_same; assumption|].
  intros t t' Ht.
  apply (result_rel_bind (same3 ib)); [apply LayerNorm_forward_same; exact Ht|].
  intros u u' Hu.
  apply (result_rel_bind (same3 ib)); [apply MLP_forward_same; exact Hu|].
  intros m m' Hm.
  apply (result_rel_bind (same3 ib)); [apply tensor_add_same; assumption|].
  intros y y' Hy. exact Hy.
Qed.

Lemma apply_layers_same (E : Engine) (rs : RandomState)
      (ls : list TransformerBlock) (ib : nat) (x x' : Tensor) :
  same3 ib x x' ->
  result_rel (same3 ib) (apply_layers E rs ls x) (apply_layers E rs ls x').
Proof.
  revert x x'. induction ls as [|blk ls IH]; intros x x' Hx; cbn [apply_layers].
  - exact Hx.
  - apply (result_rel_bind (same3 ib));
      [apply TransformerBlock_forward_same; exact Hx|].
    intros y y' Hy. apply IH. exact Hy.
Qed.

Lemma result_rel_eq_refl {A : Type} (r : result A) : result_rel eq r r.
Proof. destruct r; reflexivity. Qed.

Lemma Rearrange_patches_same (ph pw : Z) (ib : nat) (x x' : Tensor) :
  same4 ib x x' ->
  result_rel (same3 ib) (Rearrange_patches ph pw x) (Rearrange_patches ph pw x').
Proof.
  intros (Hs & (b & c & h & w & Hx & Hib) & Hag).
  unfold Rearrange_patches. rewrite <- Hs, Hx.
  destruct ((ph <=? 0)%Z || (pw <=? 0)%Z); [reflexivity|].
  destruct (negb (h mod Z.to_nat ph =? 0) || negb (w mod Z.to_nat pw =? 0));
    [reflexivity|].
  cbn [result_rel]. split; [reflexivity|]. split; [cbn; eauto|].
  intros i k. cbn [elem]. apply Hag.
Qed.

Lemma Conv2d_forward_same (m : Conv2d) (ib : nat) (x x' : Tensor) :
  same4 ib x x' ->
  result_rel (same4 ib) (Conv2d_forward m x) (Conv2d_forward m x').
Proof.
  intros (Hs & (b & c & h & w & Hx & Hib) & Hag).
  unfold Conv2d_forward. rewrite <- Hs, Hx.
  destruct (shape (conv_weight m)) as [|D [|C [|kh [|kw [|? ?]]]]];
    try reflexivity.
  destruct (conv_stride m) as [sh sw].
  destruct (negb (c =? C) || (sh =? 0) || (sw =? 0) || (kh =? 0) || (kw =? 0)
            || (h <? kh) || (w <? kw)); [reflexivity|].
  cbn [result_rel]. split; [reflexivity|].
  split; [cbn; repeat eexists; exact Hib|].
  intros d i j. cbn [elem]. f_equal.
  apply sum_n_ext. intros ic _. apply sum_n_ext. intros p _.
  apply sum_n_ext. intros q _. rewrite Hag. reflexivity.
Qed.

Lemma flatten2_transpose12_same (ib : nat) (x x' : Tensor) :
  same4 ib x x' ->
  result_rel (same3 ib) (flatten2_transpose12 x) (flatten2_transpose12 x').
Proof.
  intros (Hs & (b & c & h & w & Hx & Hib) & Hag).
  unfold flatten2_transpose12. rewrite <- Hs, Hx.
  cbn [result_rel]. split; [reflexivity|]. split; [cbn; eauto|].
  intros i k. cbn [elem]. apply Hag.
Qed.

Lemma PatchEmbedding_forward_same (m : PatchEmbedding) (ib : nat) (x x' : Tensor) :
  same4 ib x x' ->
  result_rel (same3 ib) (PatchEmbedding_forward m x) (PatchEmbedding_forward m x').
Proof.
  intros Hx. destruct m as [ph pw lin | conv]; cbn [PatchEmbedding_forward].
  - apply (result_rel_bind (same3 ib)); [apply Rearrange_patches_same; exact Hx|].
    intros y y' Hy. apply Linear_forward_same. exact Hy.
  - unfold ConvProjection_forward.
    apply (result_rel_bind (same4 ib)); [apply Conv2d_forward_same; exact Hx|].
    intros y y' Hy. apply flatten2_transpose12_same. exact Hy.
Qed.

Lemma cat_dim1_same (cls : Tensor) (ib : nat) (x x' : Tensor) :
  same3 ib x x' ->
  result_rel (same3 ib) (cat_dim1 cls x) (cat_dim1 cls x').
Proof.
  intros (Hs & (b & n & d & Hx & Hib) & Hag).
  unfold cat_dim1. rewrite <- Hs, Hx.
  destruct (shape cls) as [|a0 [|a1 [|a2 [|? ?]]]]; try reflexivity.
  destruct (Nat.eqb_spec a0 b) as [->|_]; [|reflexivity].
  destruct (a2 =? d); [|reflexivity].
  cbn [andb result_rel]. split; [reflexivity|]. split; [cbn; eauto|].
  intros i k. cbn [elem]. rewrite Hag. reflexivity.
Qed.

Lemma pooling_same (flag : bool) (ib : nat) (x x' : Tensor) :
  same3 ib x x' ->
  result_rel (same2 ib)
             (if flag then mean_dim1 x else select_dim1_first x)
             (if flag then mean_dim1 x' else select_dim1_first x').
Proof.
  intros (Hs & (b & n & d & Hx & Hib) & Hag).
  unfold mean_dim1, select_dim1_first. rewrite <- Hs, Hx. destruct flag.
  - cbn [result_rel]. split; [reflexivity|]. split; [cbn; eauto|].
    intros k. cbn [elem]. f_equal. apply sum_n_ext. intros j _. apply Hag.
  - destruct n as [|n]; [reflexivity|].
    cbn [result_rel]. split; [reflexivity|]. split; [cbn; eauto|].
    intros k. cbn [elem]. apply Hag.
Qed.

(** X16.  Batch elements do not interact.  On two batches of the same
    shape that hold the same image at batch index [ib], [ViT.forward]
    (same instance, flag and random state) either raises the same
    exception on both or returns two feature tensors of one shape whose
    rows [ib] are equal: the features of an image do not depend on the
    other images of its batch. *)
Theorem forward_batch_elements_independent :
  forall E rs self norm_flag mixup lbda perm mixup' lbda' perm' ib x x',
    same4 ib x x' ->
    result_rel (same2 ib)
               (ViT_forward E rs self x norm_flag mixup lbda perm)
               (ViT_forward E rs self x' norm_flag mixup' lbda' perm').
Proof.
  intros E rs self norm_flag mixup lbda perm mixup' lbda' perm' ib x x' Hx.
  pose proof Hx as (Hs & (b & c & w & h & Hshape & Hib) & _).
  unfold ViT_forward. rewrite <- Hs, Hshape.
  apply (result_rel_bind (same3 ib));
    [apply PatchEmbedding_forward_same; exact Hx|].
  intros x1 x1' H1.
  apply (result_rel_bind eq); [apply result_rel_eq_refl|].
  intros cls ? <-.
  apply (result_rel_bind (same3 ib)); [apply cat_dim1_same; exact H1|].
  intros x2 x2' H2.
  apply (result_rel_bind eq).
  { rewrite (interpolate_pos_encoding_shape_only E self x2 x2' w h);
      [apply result_rel_eq_refl | apply H2]. }
  intros pos ? <-.
  apply (result_rel_bind (same3 ib)); [apply tensor_iadd_same; exact H2|].
  intros x3 x3' H3.
  apply (result_rel_bind (same3 ib)).
  { apply apply_layers_same. apply Dropout_forward_same3. exact H3. }
  intros x4 x4' H4.
  apply (result_rel_bind (same3 ib)).
  { destruct norm_flag; [apply LayerNorm_forward_same; exact H4 | exact H4]. }
  intros x5 x5' H5. apply pooling_same. exact H5.
Qed.

Lemma forward_batch_elements_independent_witness :
  exists self,
    ViT_init quiet_rs (args_32_16 false) = Ok self
    /\ result_rel (same2 0)
         (ViT_forward (engine_of 0) quiet_rs self (full [2; 3; 32; 32] 0) true
                      PyNone PyNone PyNone)
         (ViT_forward (engine_of 0) quiet_rs self second_image_ones true
                      PyNone PyNone PyNone).
Proof.
  destruct (ViT_init_ok quiet_rs _ _ _ _ _ (args_32_16_valid false))
    as (self & Einit & _).
  exists self. split; [exact Einit|].
  apply forward_batch_elements_independent.
  split; [reflexivity|]. split.
  - exists 2, 3, 32, 32. split; [reflexivity | lia].
  - intros c i k. reflexivity.
Defined.

(** ** Non-square patches at another resolution *)

Lemma tensor_iadd_length_mismatch (x pos : Tensor) (b n m d : nat) :
  shape x = [b; 1 + n; d] -> shape pos = [1; 1 + m; d] ->
  m <> n -> m <> 0 ->
  tensor_iadd x pos = Raise RuntimeError.
Proof.
  intros Hx Hp Hmn Hm. unfold tensor_iadd, broadcast_shapes. rewrite Hx, Hp.
  cbn [rev app broadcast_rev]. rewrite !Nat.eqb_refl.
  assert (Hb : (if b =? 1 then Some [b]
                else if b =? 1 then Some [1] else Some [b])
               = Some [b]).
  { destruct (b =? 1); reflexivity. }
  rewrite Hb.
  destruct (Nat.eqb_spec (1 + n) (1 + m)) as [?|_]; [lia|].
  destruct (Nat.eqb_spec (1 + m) 1) as [?|_]; [lia|].
  destruct (Nat.eqb_spec (1 + n) 1) as [Hn|_]; [|reflexivity].
  cbn [option_map rev app].
  unfold shape_eqb.
  destruct (list_eq_dec Nat.eq_dec [b; 1 + m; d] [b; 1 + n; d]) as [Heq|_];
    [|reflexivity].
  injection Heq as Heq. lia.
Qed.

(** X17.  [ViT.forward] hands the height of the batch to
    [interpolate_pos_encoding] as [w] and the width as [h], so the target
    grid is (W // patch_height, H // patch_width).  When that grid has
    another (nonzero) number of cells than the patch grid
    (H // patch_height, W // patch_width), which needs non-square
    patches, the interpolated encoding does not fit the sequence and
    [x += pos] raises [RuntimeError], even though the resize returned
    exactly the grid it was asked for. *)
Theorem forward_transposed_target_grid :
  forall E rs self x norm_flag mixup lbda perm b c H W ph pw dim N,
    wf_ViT self c dim ph pw N -> 0 < dim ->
    0 < N -> Nat.sqrt N * Nat.sqrt N = N ->
    shape x = [b; c; H; W] ->
    0 < H -> 0 < W -> H mod ph = 0 -> W mod pw = 0 ->
    ~ ((H / ph) * (W / pw) = N /\ H = W) ->
    interp_size E (Nat.sqrt N) (resize_scale (Z.of_nat (W / ph)) N) = Ok (W / ph) ->
    interp_size E (Nat.sqrt N) (resize_scale (Z.of_nat (H / pw)) N) = Ok (H / pw) ->
    (W / ph) * (H / pw) <> (H / ph) * (W / pw) ->
    (W / ph) * (H / pw) <> 0 ->
    ViT_forward E rs self x norm_flag mixup lbda perm = Raise RuntimeError.
Proof.
  intros E rs self x norm_flag mixup lbda perm b c H W ph pw dim N
         Hwf Hdim HN Hsq Hx HH HW HmH HmW Hgen Hrh Hrw Hne Hnz.
  destruct (embed_with_cls_shape self x b c H W ph pw dim N
              Hwf HH HW HmH HmW Hx) as (x1 & cls & x2 & E1 & E2 & E3 & S2).
  destruct (interpolate_pos_encoding_resized E self x2
              b (1 + H / ph * (W / pw)) c dim ph pw N H W
              Hwf Hdim HN Hsq S2) as (pos & Epos & Spos); try assumption.
  { intros [Hn Hwh]. apply Hgen. split; [lia | assumption]. }
  unfold ViT_forward. rewrite Hx.
  rewrite E1. cbn [bind]. rewrite E2. cbn [bind]. rewrite E3. cbn [bind].
  rewrite Epos. cbn [bind].
  rewrite (tensor_iadd_length_mismatch x2 pos b _ _ dim S2 Spos Hne Hnz).
  reflexivity.
Qed.

Lemma args_32x8_16x4_valid : valid_args args_32x8_16x4 32 8 16 4.
Proof.
  unfold valid_args, size_arg; simpl.
  repeat split; try lia; try lra; auto.
Qed.

Lemma sqrt_INR_4 : sqrt (INR 4) = 2%R.
Proof.
  replace (INR 4) with (2 * 2)%R by (simpl; lra).
  apply sqrt_square. lra.
Qed.

Lemma forward_transposed_target_grid_witness :
  exists self,
    ViT_init quiet_rs args_32x8_16x4 = Ok self
    /\ ViT_forward engine_1_or_8 quiet_rs self (full [1; 3; 32; 20] 0) true
         PyNone PyNone PyNone = Raise RuntimeError.
Proof.
  destruct (ViT_init_ok quiet_rs _ _ _ _ _ args_32x8_16x4_valid)
    as (self & Einit & Hwf & _).
  exists self. split; [exact Einit|].
  apply (forward_transposed_target_grid engine_1_or_8 quiet_rs self
           (full [1; 3; 32; 20] 0) true PyNone PyNone PyNone
           1 3 32 20 16 4 4 4 Hwf).
  - lia.
  - lia.
  - reflexivity.
  - reflexivity.
  - lia.
  - lia.
  - reflexivity.
  - reflexivity.
  - cbn. lia.
  - unfold resize_scale. rewrite sqrt_INR_4. cbn.
    destruct (Rlt_dec ((1 + 1 / 10) / 2) 1) as [_|Hn]; [reflexivity|].
    exfalso. apply Hn. lra.
  - unfold resize_scale. rewrite sqrt_INR_4. cbn.
    destruct (Rlt_dec ((8 + 1 / 10) / 2) 1) as [Hlt|_]; [|reflexivity].
    exfalso. lra.
  - cbn. lia.
  - cbn. lia.
Defined.

(** ** Attention: the scaled dot product *)

Lemma split_heads_value (heads : nat) (t : Tensor) (b n dh : nat) :
  0 < heads -> shape t = [b; n; dh * heads] ->
  exists y,
    split_heads heads t = Ok y /\ shape y = [b; heads; n; dh]
    /\ forall ib ih i c, elem y [ib; ih; i; c] = elem t [ib; i; ih * dh + c].
Proof.
  intros Hh Hs. unfold split_heads. rewrite Hs.
  destruct (Nat.eqb_spec heads 0) as [H0|_]; [lia|].
  rewrite Nat.Div0.mod_mul. cbn [Nat.eqb negb orb].
  rewrite Nat.div_mul by lia.
  eexists; split; [reflexivity|]. split; reflexivity.
Qed.

(** X18.  The attention weights are the softmax, over the key position,
    of the scaled dot products of query and key rows: with [y] the output
    of the single projection [to_qkv], head [h] reads its query from
    columns [h*dim_head ..] of the first third of [y], its key from the
    same columns of the second third and its value from those of the last
    third. *)
Theorem attention_is_scaled_dot_product :
  forall a x dim dh b n,
    0 < att_heads a -> 0 < dh ->
    wf_Linear (to_qkv a) dim (dh * att_heads a * 3) ->
    shape x = [b; n; dim] ->
    exists y p v,
      Linear_forward (to_qkv a) x = Ok y
      /\ Attention_weights a x = Ok (p, v)
      /\ (forall ib ih i j,
             elem p [ib; ih; i; j]
             = (exp (sum_n dh (fun c =>
                       elem y [ib; i; (ih * dh + c)%nat]
                       * elem y [ib; j; (dh * att_heads a + (ih * dh + c))%nat])
                     * att_scale a)
                / sum_n n (fun j' =>
                    exp (sum_n dh (fun c =>
                           elem y [ib; i; (ih * dh + c)%nat]
                           * elem y [ib; j'; (dh * att_heads a + (ih * dh + c))%nat])
                         * att_scale a)))%R)
      /\ (forall ib ih i c,
             elem v [ib; ih; i; c]
             = elem y [ib; i; 2 * (dh * att_heads a) + (ih * dh + c)]).
Proof.
  intros a x dim dh b n Hh Hdh Hqkv Hx.
  unfold Attention_weights.
  destruct (Linear_forward_shape _ _ _ _ _ _ Hqkv Hx) as (y & Ey & Hy).
  exists y. rewrite Ey. cbn [bind].
  rewrite (chunk3_thirds y b n (dh * att_heads a)) by (try lia; assumption).
  cbn [bind unpack3_map].
  assert (Hsl : forall off, shape (slice_last y off (dh * att_heads a))
                            = [b; n; dh * att_heads a]).
  { intros off. unfold slice_last. cbn. rewrite Hy. reflexivity. }
  destruct (split_heads_value _ (slice_last y 0 (dh * att_heads a)) _ _ _
              Hh (Hsl 0)) as (q & -> & Sq & Vq).
  destruct (split_heads_value _ (slice_last y (dh * att_heads a) (dh * att_heads a))
              _ _ _ Hh (Hsl _)) as (k & -> & Sk & Vk).
  destruct (split_heads_value _ (slice_last y (2 * (dh * att_heads a))
                                   (dh * att_heads a))
              _ _ _ Hh (Hsl _)) as (v & -> & Sv & Vv).
  cbn [bind]. unfold einsum_qk. rewrite Sq, Sk, !Nat.eqb_refl. cbn [andb bind].
  eexists; exists v. split; [reflexivity|]. split; [reflexivity|]. split.
  - intros ib ih i j. unfold Softmax_forward, tensor_map.
    cbn [elem shape last removelast app].
    assert (Hdot : forall j0,
               sum_n dh (fun c => elem q [ib; ih; i; c] * elem k [ib; ih; j0; c])%R
               = sum_n dh (fun c =>
                   elem y [ib; i; (ih * dh + c)%nat]
                   * elem y [ib; j0; (dh * att_heads a + (ih * dh + c))%nat])%R).
    { intros j0. apply sum_n_ext. intros c _. rewrite Vq, Vk. reflexivity. }
    rewrite Hdot. f_equal. apply sum_n_ext. intros j' _. rewrite Hdot.
    reflexivity.
  - intros ib ih i c. rewrite Vv. reflexivity.
Qed.

Lemma attention_is_scaled_dot_product_witness :
  exists y p v,
    Linear_forward (to_qkv (attention unit_block)) (full [2; 3; 1] 5) = Ok y
    /\ Attention_weights (attention unit_block) (full [2; 3; 1] 5) = Ok (p, v)
    /\ (forall ib ih i c,
           elem v [ib; ih; i; c] = elem y [ib; i; 2 * (1 * 1) + (ih * 1 + c)]).
Proof.
  destruct (attention_is_scaled_dot_product (attention unit_block)
              (full [2; 3; 1] 5) 1 1 2 3)
    as (y & p & v & Ey & Ew & _ & Vv); try (cbn; lia); try reflexivity.
  exists y, p, v. split; [exact Ey|]. split; [exact Ew | exact Vv].
Defined.

(** ** Positional encoding: what is resized and where it lands *)

Lemma row_major_lt (i j a b : nat) : i < a -> j < b -> i * b + j < a * b.
Proof.
  intros Hi Hj.
  assert ((i + 1) * b <= a * b) by (apply Nat.mul_le_mono_r; lia). lia.
Qed.

Lemma ravel_rank3 (m d r k : nat) : ravel [1; m; d] [0; r; k] = r * d + k.
Proof. cbn. lia. Qed.

Lemma ravel_rank4 (a b d i j k : nat) :
  ravel [1; a; b; d] [0; i; j; k] = (i * b + j) * d + k.
Proof. cbn. lia. Qed.

Lemma unravel_rank3 (m d r k : nat) :
  r < m -> k < d -> unravel [1; m; d] (r * d + k) = [0; r; k].
Proof.
  intros Hr Hk. cbn [unravel numel].
  rewrite !Nat.mul_1_r, Nat.mod_1_r.
  assert (Hlt : r * d + k < m * d) by (apply row_major_lt; assumption).
  rewrite (Nat.mod_small (r * d + k) (m * d)) by exact Hlt.
  destruct (div_mod_row_major r k d Hk) as [-> ->].
  rewrite Nat.div_1_r, (Nat.mod_small r m), (Nat.mod_small k d) by assumption.
  reflexivity.
Qed.

Lemma unravel_rank4 (a b d i j k : nat) :
  i < a -> j < b -> k < d ->
  unravel [1; a; b; d] ((i * b + j) * d + k) = [0; i; j; k].
Proof.
  intros Hi Hj Hk. cbn [unravel numel].
  rewrite !Nat.mul_1_r, Nat.mod_1_r.
  assert (Hlt : (i * b + j) * d + k < a * (b * d)).
  { rewrite Nat.mul_assoc. apply row_major_lt; [|assumption].
    apply row_major_lt; assumption. }
  rewrite (Nat.mod_small _ (a * (b * d))) by exact Hlt.
  replace ((i * b + j) * d + k) with (i * (b * d) + (j * d + k)) by lia.
  assert (Hjk : j * d + k < b * d) by (apply row_major_lt; assumption).
  destruct (div_mod_row_major i (j * d + k) (b * d) Hjk) as [-> ->].
  destruct (div_mod_row_major j k d Hk) as [-> ->].
  rewrite Nat.div_1_r, (Nat.mod_small i a), (Nat.mod_small j b),
    (Nat.mod_small k d) by assumption.
  reflexivity.
Qed.

(** X19.  What the general path of [interpolate_pos_encoding] resizes and
    where the result lands.  The grid handed to the resize holds, at
    channel [c], row [i], column [j], the stored positional value of patch
    position [i * sqrt(N) + j] (row-major, after the class row); in the
    returned encoding the class row is the stored class row, unchanged,
    and row [1 + i * columns + j] holds the resized grid at row [i],
    column [j]. *)
Theorem interpolate_pos_encoding_layout :
  forall E self x b n1 c dim ph pw N w h,
    wf_ViT self c dim ph pw N -> 0 < dim ->
    0 < N -> Nat.sqrt N * Nat.sqrt N = N ->
    shape x = [b; n1; dim] ->
    ~ (n1 = N + 1 /\ w = h) ->
    interp_size E (Nat.sqrt N) (resize_scale (Z.of_nat (h / ph)) N) = Ok (h / ph) ->
    interp_size E (Nat.sqrt N) (resize_scale (Z.of_nat (w / pw)) N) = Ok (w / pw) ->
    exists g0 grid pos',
      reshape (patch_pos_embed_rows (pos_embedding self) 1 N dim)
              [1; Nat.sqrt N; Nat.sqrt N; dim] = Ok g0
      /\ permute_0312 g0 = Ok grid
      /\ (forall k i j,
             k < dim -> i < Nat.sqrt N -> j < Nat.sqrt N ->
             elem grid [0; k; i; j]
             = elem (pos_embedding self) [0; 1 + (i * Nat.sqrt N + j); k])
      /\ interpolate_pos_encoding E self x w h = Ok pos'
      /\ shape pos' = [1; 1 + (h / ph) * (w / pw); dim]
      /\ (forall k, elem pos' [0; 0; k] = elem (pos_embedding self) [0; 0; k])
      /\ (forall i j k,
             i < h / ph -> j < w / pw -> k < dim ->
             elem pos' [0; 1 + (i * (w / pw) + j); k]
             = interp_value E grid (h / ph) (w / pw) [0; k; i; j]).
Proof.
  intros E self x b n1 c dim ph pw N w h Hwf Hdim HN Hsq Hx Hgen Hrh Hrw.
  rewrite (interpolate_pos_encoding_general E self x b n1 c dim ph pw N w h
             Hwf Hx Hgen).
  unfold reshape at 1 2. cbn [shape patch_pos_embed_rows numel].
  replace (1 * (N * (dim * 1)) =? 1 * (Nat.sqrt N * (Nat.sqrt N * (dim * 1))))
    with true by (symmetry; apply Nat.eqb_eq; nia).
  eexists. cbn [permute_0312 shape bind]. eexists. 
  rewrite !py_div_ok by (apply sqrt_INR_nonzero; assumption).
  cbn [bind]. unfold interpolate_bicubic. cbn [shape].
  unfold resize_scale in Hrh, Hrw. rewrite Hrh. cbn [bind]. rewrite Hrw.
  cbn [bind shape]. rewrite !Nat.eqb_refl. cbn [andb].
  cbn [permute_0231 shape bind]. unfold view_1_m1. cbn [shape numel].
  destruct (Nat.eqb_spec dim 0) as [?|_]; [lia|].
  replace (1 * (h / ph * (w / pw * (dim * 1)))) with ((h / ph) * (w / pw) * dim)
    by lia.
  rewrite Nat.Div0.mod_mul, Nat.div_mul by lia.
  cbn [Nat.eqb negb orb]. unfold reshape. cbn [shape numel].
  replace (1 * (h / ph * (w / pw * (dim * 1)))
           =? 1 * (h / ph * (w / pw) * (dim * 1)))
    with true by (symmetry; apply Nat.eqb_eq; lia).
  unfold cat_dim1. cbn [bind shape class_pos_embed_row].
  rewrite (Nat.eqb_refl dim). cbn [Nat.eqb andb].
  eexists. split; [reflexivity|]. split; [reflexivity|]. split.
  - intros k i j Hk Hi Hj. cbn [elem].
    rewrite ravel_rank4, unravel_rank3; [reflexivity | | exact Hk].
    pose proof (row_major_lt i j (Nat.sqrt N) (Nat.sqrt N) Hi Hj). lia.
  - split; [reflexivity|]. split; [reflexivity|]. split.
    + intros k. reflexivity.
    + intros i j k Hi Hj Hk. cbn [elem Nat.ltb Nat.leb Nat.add Nat.sub].
      rewrite Nat.sub_0_r, ravel_rank3, unravel_rank4 by assumption.
      reflexivity.
Qed.

Lemma interpolate_pos_encoding_layout_witness :
  exists self grid pos',
    ViT_init quiet_rs (args_32_16 false) = Ok self
    /\ (forall k i j,
           k < 4 -> i < 2 -> j < 2 ->
           elem grid [0; k; i; j]
           = elem (pos_embedding self) [0; 1 + (i * 2 + j); k])
    /\ interpolate_pos_encoding (engine_of 3) self (full [1; 10; 4] 0) 48 48
       = Ok pos'
    /\ (forall k, elem pos' [0; 0; k] = elem (pos_embedding self) [0; 0; k])
    /\ (forall i j k,
           i < 3 -> j < 3 -> k < 4 ->
           elem pos' [0; 1 + (i * 3 + j); k]
           = interp_value (engine_of 3) grid 3 3 [0; k; i; j]).
Proof.
  destruct (ViT_init_ok quiet_rs _ _ _ _ _ (args_32_16_valid false))
    as (self & Einit & Hwf & _).
  destruct (interpolate_pos_encoding_layout (engine_of 3) self
              (full [1; 10; 4] 0) 1 10 3 4 16 16 4 48 48 Hwf)
    as (g0 & grid & pos' & _ & _ & Vg & Epos & _ & Vc & Vp);
    try lia; try reflexivity.
  exists self, grid, pos'.
  split; [exact Einit|]. split; [exact Vg|]. split; [exact Epos|].
  split; [exact Vc | exact Vp].
Defined.

(** ** The input of the first block *)

Lemma bidx_positions (n d ib j k : nat) :
  j < 1 + n -> k < d -> bidx [1; 1 + n; d] [ib; j; k] = [0; j; k].
Proof.
  intros Hj Hk. unfold bidx. cbn [rev app bidx_rev Nat.eqb].
  destruct (Nat.eqb_spec d 1) as [->|_];
    destruct (Nat.eqb_spec (1 + n) 1) as [Hn|_];
    try (replace k with 0 by lia); try (replace j with 0 by lia);
    reflexivity.
Qed.

(** X20.  The sequence [ViT.forward] hands to dropout and the first
    block (lines 176-180): for every image of the batch, position 0 is
    the class token plus the positional row 0, and position [1 + r] is
    the embedding of patch [r] plus the positional row [1 + r]; the same
    positional rows are added to every image. *)
Theorem forward_sequence_layout :
  forall self x pos b c H W ph pw dim N,
    wf_ViT self c dim ph pw N ->
    shape x = [b; c; H; W] ->
    0 < H -> 0 < W -> H mod ph = 0 -> W mod pw = 0 ->
    shape pos = [1; 1 + (H / ph) * (W / pw); dim] ->
    exists x1 cls x2 x3,
      PatchEmbedding_forward (patch_to_embedding self) x = Ok x1
      /\ expand_batch (cls_token self) b = Ok cls
      /\ cat_dim1 cls x1 = Ok x2
      /\ tensor_iadd x2 pos = Ok x3
      /\ shape x3 = [b; 1 + (H / ph) * (W / pw); dim]
      /\ (forall ib k,
             ib < b -> k < dim ->
             elem x3 [ib; 0; k]
             = (elem (cls_token self) [0; 0; k]%nat
                + elem pos [0; 0; k]%nat)%R)
      /\ (forall ib r k,
             ib < b -> r < (H / ph) * (W / pw) -> k < dim ->
             elem x3 [ib; 1 + r; k]
             = (elem x1 [ib; r; k]%nat + elem pos [0; 1 + r; k]%nat)%R).
Proof.
  intros self x pos b c H W ph pw dim N Hwf Hx HH HW HmH HmW Hp.
  pose proof Hwf as [_ _ Hph Hpw Hemb _ Hcls _ _].
  destruct (PatchEmbedding_forward_shape _ x b c H W ph pw dim
              Hph Hpw HH HW HmH HmW Hemb Hx) as (x1 & E1 & S1).
  exists x1. eexists. eexists. eexists.
  split; [exact E1|].
  split.
  { unfold expand_batch. rewrite Hcls. cbv beta iota.
    rewrite (Nat.eqb_refl 1), orb_true_r. reflexivity. }
  split.
  { unfold cat_dim1. cbn [shape]. rewrite S1, !Nat.eqb_refl.
    cbn [andb]. reflexivity. }
  assert (Hb : (if b =? 1 then Some [b]
                else if b =? 1 then Some [1] else Some [b])
               = Some [b]).
  { destruct (b =? 1); reflexivity. }
  split.
  { unfold tensor_iadd, broadcast_shapes. cbn [shape]. rewrite Hp.
    cbn [rev app broadcast_rev]. rewrite !Nat.eqb_refl.
    rewrite Hb. cbn [option_map rev app]. rewrite shape_eqb_refl.
    reflexivity. }
  split; [reflexivity|]. split.
  - intros ib k Hib Hk. cbn [elem shape].
    rewrite bidx_in_bounds by (cbn; repeat split; lia).
    rewrite bidx_positions by lia. cbn [Nat.ltb Nat.leb Nat.eqb].
    reflexivity.
  - intros ib r k Hib Hr Hk. cbn [elem shape].
    rewrite bidx_in_bounds by (cbn; repeat split; lia).
    rewrite bidx_positions by lia.
    cbn [Nat.ltb Nat.leb Nat.add Nat.sub]. rewrite Nat.sub_0_r. reflexivity.
Qed.

Lemma forward_sequence_layout_witness :
  exists self x1 x2 x3,
    ViT_init quiet_rs (args_32_16 false) = Ok self
    /\ PatchEmbedding_forward (patch_to_embedding self)
         (full [2; 3; 32; 32] 0) = Ok x1
    /\ cat_dim1 (mkTensor [2; 1; 4]
                   (fun idx => match idx with
                               | [i; j; k] => elem (cls_token self) [0; j; k]
                               | _ => 0%R
                               end)) x1 = Ok x2
    /\ tensor_iadd x2 (pos_embedding self) = Ok x3
    /\ (forall ib r k,
           ib < 2 -> r < 4 -> k < 4 ->
           elem x3 [ib; 1 + r; k]%nat
           = (elem x1 [ib; r; k]%nat
              + elem (pos_embedding self) [0; 1 + r; k]%nat)%R).
Proof.
  destruct (ViT_init_ok quiet_rs _ _ _ _ _ (args_32_16_valid false))
    as (self & Einit & Hwf & _).
  destruct (forward_sequence_layout self (full [2; 3; 32; 32] 0)
              (pos_embedding self) 2 3 32 32 16 16 4 4 Hwf)
    as (x1 & cls & x2 & x3 & E1 & Ec & E2 & E3 & _ & _ & V);
    try lia; try reflexivity.
  { exact (wf_pos _ _ _ _ _ _ Hwf). }
  exists self, x1, x2, x3.
  split; [exact Einit|]. split; [exact E1|].
  split.
  { unfold expand_batch in Ec. rewrite (wf_cls _ _ _ _ _ _ Hwf) in Ec.
    cbn in Ec. injection Ec as <-. exact E2. }
  split; [exact E3 | exact V].
Defined.
